(** * Round cleaning of [awpy.parser.demoparser.DemoParser]

    A shallow embedding of the cleaning half of [DemoParser]
    (src/awpy/parser/demoparser.py, lines 850-1536): the scalar round
    filters, the roster normaliser [remove_excess_players] with its helpers,
    the score consistency checker [remove_bad_scoring], the two renumbering
    passes and the orchestrator [clean_rounds].

    Conventions of the embedding.
    - Python [int] is [Z]; JSON strings are [string]; a JSON value that may be
      [null] ([gameRounds], [frames], the five event lists) is an [option].
    - Coordinates are only ever compared (with each other and with 0), so they
      are taken in [Z].
    - A Python exception is the [Raise] branch of [result]; the partially
      mutated state of the parser at the time of the exception is not kept.
    - In-place mutation of a round is explicit state passing: every helper
      takes the round and returns the new round.
    - Logging and [print] calls, [write_json] and the data-frame projection are
      left out: they do not change [self.json]. *)

From Stdlib Require Import ZArith Bool String Lia Arith List Permutation.
Import ListNotations.

Local Open Scope Z_scope.

(** ** Exceptions *)

Inductive exn : Type :=
| AttributeError
| TypeError
| IndexError.

Inductive result (A : Type) : Type :=
| Ok (a : A)
| Raise (e : exn).

Arguments Ok {A} a.
Arguments Raise {A} e.

Definition bind {A B : Type} (m : result A) (k : A -> result B) : result B :=
  match m with
  | Ok a => k a
  | Raise e => Raise e
  end.

Declare Scope result_scope.
Delimit Scope result_scope with result.
Notation "'do' x <- m ; k" := (bind m (fun x => k))
  (at level 10, x name, m at level 100, k at level 200) : result_scope.
Local Open Scope result_scope.

(** [for x in l: body], where [l] may be [None]: iterating [None] raises
    [TypeError]. *)
Definition iter_list {A : Type} (l : option (list A)) : result (list A) :=
  match l with
  | Some xs => Ok xs
  | None => Raise TypeError
  end.

(** [for x in xs: st = body x st], stopping at the first exception. *)
Fixpoint for_each {A S : Type} (body : A -> S -> result S) (xs : list A) (st : S)
  : result S :=
  match xs with
  | [] => Ok st
  | x :: xs' => do st' <- body x st; for_each body xs' st'
  end.

(** [l or []] *)
Definition or_empty {A : Type} (l : option (list A)) : list A :=
  match l with
  | Some xs => xs
  | None => []
  end.

(** ** Record model

    Modelled from the spec: the [TypedDict] declarations of [awpy.types]
    ([Game], [GameRound], [GameFrame], [PlayerInfo], the event types) are not
    among the sources; the records below carry the keys the cleaning code
    reads or writes, with the types of section 3 of the specification. *)

Module Player.
Record t : Type := mk {
  steamID : Z;
  name : string;
  side : string;
  x : Z;
  y : Z;
  z : Z;
  isAlive : bool
}.

(** [==] on two player dictionaries, on the keys kept here. *)
Definition eqb (p q : t) : bool :=
  (steamID p =? steamID q) && String.eqb (name p) (name q)
  && String.eqb (side p) (side q)
  && (x p =? x q) && (y p =? y q) && (z p =? z q)
  && Bool.eqb (isAlive p) (isAlive q).

(** [player["side"] = s] *)
Definition set_side (s : string) (p : t) : t :=
  mk (steamID p) (name p) s (x p) (y p) (z p) (isAlive p).
End Player.

Module Team.
(** A [tSide]/[ctSide] entry of a round, or a [t]/[ct] entry of a frame.
    An absent or [null] ["players"] entry is the empty list: that is what
    [remove_excess_players] puts in its place (lines 1303-1312) before any
    helper reads a player list. *)
Record t : Type := mk {
  teamName : string;
  players : list Player.t
}.

Definition set_players (ps : list Player.t) (s : t) : t :=
  mk (teamName s) ps.
End Team.

Module Frame.
Record t : Type := mk {
  tick : Z;
  globalFrameID : Z;
  t_ : Team.t;
  ct : Team.t
}.

Definition set_globalFrameID (n : Z) (f : t) : t :=
  mk (tick f) n (t_ f) (ct f).
Definition set_t (s : Team.t) (f : t) : t :=
  mk (tick f) (globalFrameID f) s (ct f).
Definition set_ct (s : Team.t) (f : t) : t :=
  mk (tick f) (globalFrameID f) (t_ f) s.
End Frame.

Module Kill.
Record t : Type := mk {
  attackerSteamID : Z;
  attackerSide : string;
  victimSteamID : Z;
  victimSide : string;
  weapon : string
}.
End Kill.

Module Damage.
Record t : Type := mk {
  attackerSteamID : Z;
  attackerSide : string;
  victimSteamID : Z;
  victimSide : string
}.
End Damage.

Module Grenade.
Record t : Type := mk {
  throwerSteamID : Z;
  throwerSide : string
}.
End Grenade.

Module WeaponFire.
Record t : Type := mk {
  playerSteamID : Z;
  playerSide : string
}.
End WeaponFire.

Module Flash.
Record t : Type := mk {
  attackerSteamID : Z;
  attackerSide : string;
  playerSteamID : Z;
  playerSide : string
}.
End Flash.

Module Round.
Record t : Type := mk {
  roundNum : Z;
  isWarmup : bool;
  startTick : Z;
  freezeTimeEndTick : Z;
  endTick : Z;
  endOfficialTick : Z;
  tScore : Z;
  ctScore : Z;
  endTScore : Z;
  endCTScore : Z;
  roundEndReason : string;
  tSide : Team.t;
  ctSide : Team.t;
  frames : option (list Frame.t);
  kills : option (list Kill.t);
  damages : option (list Damage.t);
  grenades : option (list Grenade.t);
  weaponFires : option (list WeaponFire.t);
  flashes : option (list Flash.t)
}.

Definition set_roundNum (n : Z) (r : t) : t :=
  mk n (isWarmup r) (startTick r) (freezeTimeEndTick r) (endTick r)
     (endOfficialTick r) (tScore r) (ctScore r) (endTScore r) (endCTScore r)
     (roundEndReason r) (tSide r) (ctSide r) (frames r) (kills r)
     (damages r) (grenades r) (weaponFires r) (flashes r).

Definition set_sides (ts cts : Team.t) (r : t) : t :=
  mk (roundNum r) (isWarmup r) (startTick r) (freezeTimeEndTick r) (endTick r)
     (endOfficialTick r) (tScore r) (ctScore r) (endTScore r) (endCTScore r)
     (roundEndReason r) ts cts (frames r) (kills r)
     (damages r) (grenades r) (weaponFires r) (flashes r).

Definition set_frames (fs : option (list Frame.t)) (r : t) : t :=
  mk (roundNum r) (isWarmup r) (startTick r) (freezeTimeEndTick r) (endTick r)
     (endOfficialTick r) (tScore r) (ctScore r) (endTScore r) (endCTScore r)
     (roundEndReason r) (tSide r) (ctSide r) fs (kills r)
     (damages r) (grenades r) (weaponFires r) (flashes r).

Definition set_events (ks : option (list Kill.t)) (ds : option (list Damage.t))
    (gs : option (list Grenade.t)) (ws : option (list WeaponFire.t))
    (fl : option (list Flash.t)) (r : t) : t :=
  mk (roundNum r) (isWarmup r) (startTick r) (freezeTimeEndTick r) (endTick r)
     (endOfficialTick r) (tScore r) (ctScore r) (endTScore r) (endCTScore r)
     (roundEndReason r) (tSide r) (ctSide r) (frames r) ks ds gs ws fl.
End Round.

Module Game.
(** [matchPhases] is a dictionary from phase names to tick lists; the
    cleaning code only asks whether a key is present. *)
Record t : Type := mk {
  mapName : string;
  matchPhases : list (string * list Z);
  gameRounds : option (list Round.t)
}.

Definition set_gameRounds (rs : option (list Round.t)) (g : t) : t :=
  mk (mapName g) (matchPhases g) rs.
End Game.

(** The parser object: the [parse_frames] argument and [self.json]. *)
Record DemoParser : Type := mkParser {
  parse_frames : bool;
  json : option Game.t
}.

(** [if self.json: ... else: raise AttributeError(msg)] *)
Definition with_json (p : DemoParser) (k : Game.t -> result DemoParser)
  : result DemoParser :=
  match json p with
  | Some g => k g
  | None => Raise AttributeError
  end.

(** [self.json["gameRounds"] = rs] *)
Definition store_rounds (p : DemoParser) (g : Game.t) (rs : list Round.t)
  : DemoParser :=
  mkParser (parse_frames p) (Some (Game.set_gameRounds (Some rs) g)).

(** ** Scalar filters *)

(** [remove_rounds_with_no_frames] (lines 1112-1135). *)
Definition remove_rounds_with_no_frames (p : DemoParser) : result DemoParser :=
  with_json p (fun g =>
    if negb (parse_frames p) then Ok p
    else
      let cleaned_rounds :=
        filter (fun game_round =>
                  (0 <? Z.of_nat (length (or_empty (Round.frames game_round)))))
               (or_empty (Game.gameRounds g)) in
      Ok (store_rounds p g cleaned_rounds)).

(** ["warmupChanged" in self.json["matchPhases"]] *)
Definition has_key (k : string) (d : list (string * list Z)) : bool :=
  existsb (fun kv => String.eqb (fst kv) k) d.

(** [remove_warmups] (lines 1393-1431). *)
Definition remove_warmups (p : DemoParser) : result DemoParser :=
  with_json p (fun g =>
    let cleaned_rounds := [] in
    let cleaned_rounds :=
      if has_key "warmupChanged" (Game.matchPhases g) then
        cleaned_rounds ++
          filter (fun game_round => negb (Round.isWarmup game_round))
                 (or_empty (Game.gameRounds g))
      else cleaned_rounds in
    Ok (store_rounds p g cleaned_rounds)).

(** [sum(1 for k in kill_actions if k["weapon"] == "Knife")] *)
Definition count_knife (kill_actions : list Kill.t) : Z :=
  fold_left (fun acc k => if String.eqb (Kill.weapon k) "Knife" then acc + 1 else acc)
            kill_actions 0.

(** The body of the loop of [remove_knife_rounds]: whether the round is
    appended to [cleaned_rounds]. *)
Definition knife_round_kept (game_round : Round.t) : bool :=
  if Round.isWarmup game_round then false
  else
    match Round.kills game_round with
    | None => false
    | Some kill_actions =>
        let total_kills := Z.of_nat (length kill_actions) in
        let total_knife_kills := count_knife kill_actions in
        negb (total_knife_kills =? total_kills) || (total_knife_kills =? 0)
    end.

(** [remove_knife_rounds] (lines 1459-1484). *)
Definition remove_knife_rounds (p : DemoParser) : result DemoParser :=
  with_json p (fun g =>
    match Game.gameRounds g with
    | None => Ok p
    | Some game_rounds =>
        Ok (store_rounds p g (filter knife_round_kept game_rounds))
    end).

(** [remove_excess_kill_rounds] (lines 1486-1506). *)
Definition remove_excess_kill_rounds (p : DemoParser) : result DemoParser :=
  with_json p (fun g =>
    let n_total_players := 10 in
    let cleaned_rounds :=
      filter (fun game_round =>
                negb (Round.isWarmup game_round)
                && (Z.of_nat (length (or_empty (Round.kills game_round)))
                    <=? n_total_players))
             (or_empty (Game.gameRounds g)) in
    Ok (store_rounds p g cleaned_rounds)).

(** [remove_time_rounds] (lines 1508-1528). *)
Definition remove_time_rounds (p : DemoParser) : result DemoParser :=
  with_json p (fun g =>
    let cleaned_rounds :=
      filter (fun game_round =>
                (Round.startTick game_round <=? Round.endTick game_round)
                && (Round.startTick game_round <=? Round.endOfficialTick game_round)
                && (Round.startTick game_round <=? Round.freezeTimeEndTick game_round))
             (or_empty (Game.gameRounds g)) in
    Ok (store_rounds p g cleaned_rounds)).

(** [x in bad_endings] *)
Definition string_in (s : string) (l : list string) : bool :=
  existsb (String.eqb s) l.

Definition default_bad_endings : list string :=
  ["Draw"; "Unknown"; EmptyString]%string.

(** [remove_end_round] (lines 1433-1457); [bad_endings = None] stands for the
    default list. *)
Definition remove_end_round (bad_endings : option (list string)) (p : DemoParser)
  : result DemoParser :=
  let bad_endings :=
    match bad_endings with
    | None => default_bad_endings
    | Some l => l
    end in
  with_json p (fun g =>
    match Game.gameRounds g with
    | None => Ok p
    | Some game_rounds =>
        Ok (store_rounds p g
              (filter (fun game_round =>
                         negb (string_in (Round.roundEndReason game_round) bad_endings))
                      game_rounds))
    end).

(** ** Score consistency checker *)

(** [_has_winner_and_not_winner] (lines 1022-1057).  Python's [%] with a
    positive modulus is [Z.modulo]. *)
Definition _has_winner_and_not_winner (game_round : Round.t) : bool :=
  let tie_score := 15 in
  let ot_tie_score := 3 in
  let regular_valid_t_win :=
    (Round.endTScore game_round =? tie_score + 1)
    && (Round.endCTScore game_round <? tie_score) in
  let regular_valid_ct_win :=
    (Round.endCTScore game_round =? tie_score + 1)
    && (Round.endTScore game_round <? tie_score) in
  let ot_valid_ct_win :=
    ((Round.endCTScore game_round - tie_score - 1) mod ot_tie_score =? 0)
    && (Round.endTScore game_round <? Round.endCTScore game_round - 1)
    && (tie_score <? Round.endCTScore game_round) in
  let ot_valid_t_win :=
    ((Round.endTScore game_round - tie_score - 1) mod ot_tie_score =? 0)
    && (Round.endCTScore game_round <? Round.endTScore game_round - 1)
    && (tie_score <? Round.endTScore game_round) in
  regular_valid_ct_win || regular_valid_t_win || ot_valid_ct_win || ot_valid_t_win.

(** [tScore + endTScore + ctScore + endCTScore] *)
Definition round_total (game_round : Round.t) : Z :=
  Round.tScore game_round + Round.endTScore game_round
  + Round.ctScore game_round + Round.endCTScore game_round.

(** [l[i]] for a Python list: a negative index counts from the end, an index
    out of range raises [IndexError]. *)
Definition py_index {A : Type} (l : list A) (i : Z) : result A :=
  let n := Z.of_nat (length l) in
  let j := if i <? 0 then i + n else i in
  if (j <? 0) || (n <=? j) then Raise IndexError
  else
    match nth_error l (Z.to_nat j) with
    | Some a => Ok a
    | None => Raise IndexError
    end.

(** One iteration of the loop of [remove_bad_scoring] (lines 1073-1105), for
    the pair [(i, game_round)] of [enumerate]; [all_rounds] is
    [self.json["gameRounds"]], which the loop does not change. *)
Definition bad_scoring_step (all_rounds : list Round.t) (ir : Z * Round.t)
    (cleaned_rounds : list Round.t) : result (list Round.t) :=
  let (i, game_round) := ir in
  let current_round_total := round_total game_round in
  if i <? Z.of_nat (length all_rounds) - 1 then
    do lookahead_round <- py_index all_rounds (i + 1);
    let lookahead_round_total := round_total lookahead_round in
    if (current_round_total <? lookahead_round_total)
       || _has_winner_and_not_winner game_round
    then Ok (cleaned_rounds ++ [game_round])
    else Ok cleaned_rounds
  else
    do lookback_round <- py_index all_rounds (i - 1);
    let lookback_round_total := round_total lookback_round in
    if lookback_round_total <? current_round_total
    then Ok (cleaned_rounds ++ [game_round])
    else Ok cleaned_rounds.

(** [enumerate(l)] *)
Definition enumerate {A : Type} (l : list A) : list (Z * A) :=
  combine (map Z.of_nat (seq 0 (length l))) l.

(** [remove_bad_scoring] (lines 1059-1110). *)
Definition remove_bad_scoring (p : DemoParser) : result DemoParser :=
  with_json p (fun g =>
    match Game.gameRounds g with
    | None => Ok p
    | Some game_rounds =>
        do cleaned_rounds <-
          for_each (bad_scoring_step game_rounds) (enumerate game_rounds) [];
        Ok (store_rounds p g cleaned_rounds)
    end).

(** ** Renumbering *)

(** [renumber_rounds] (lines 935-950): [gameRounds[i]["roundNum"] = i + 1]. *)
Definition renumber_round_list (game_rounds : list Round.t) : list Round.t :=
  map (fun ir => Round.set_roundNum (fst ir + 1) (snd ir)) (enumerate game_rounds).

Definition renumber_rounds (p : DemoParser) : result DemoParser :=
  with_json p (fun g =>
    match Game.gameRounds g with
    | None => Ok p
    | Some game_rounds => Ok (store_rounds p g (renumber_round_list game_rounds))
    end).

(** [renumber_frames] (lines 952-974).  The generator walks the rounds in
    order and, inside a round, [frames or []] in order; [index] is the running
    counter of [enumerate], threaded through both loops. *)
Fixpoint renumber_frame_list (index : Z) (fs : list Frame.t) : list Frame.t * Z :=
  match fs with
  | [] => ([], index)
  | frame :: fs' =>
      let (fs'', index') := renumber_frame_list (index + 1) fs' in
      (Frame.set_globalFrameID index frame :: fs'', index')
  end.

Fixpoint renumber_frames_from (index : Z) (game_rounds : list Round.t)
  : list Round.t :=
  match game_rounds with
  | [] => []
  | game_round :: rest =>
      match Round.frames game_round with
      | None => game_round :: renumber_frames_from index rest
      | Some fs =>
          let (fs', index') := renumber_frame_list index fs in
          Round.set_frames (Some fs') game_round :: renumber_frames_from index' rest
      end
  end.

Definition renumber_frames (p : DemoParser) : result DemoParser :=
  with_json p (fun g =>
    match Game.gameRounds g with
    | None => Ok p
    | Some game_rounds => Ok (store_rounds p g (renumber_frames_from 0 game_rounds))
    end).

(** ** Roster normaliser: helpers *)

(** The two keys ["t"] and ["ct"] of a frame. *)
Inductive side_key : Type :=
| key_t
| key_ct.

(** [frame[side]["players"]] *)
Definition frame_players (side : side_key) (frame : Frame.t) : list Player.t :=
  match side with
  | key_t => Team.players (Frame.t_ frame)
  | key_ct => Team.players (Frame.ct frame)
  end.

(** [len(l)] *)
Definition len {A : Type} (l : list A) : Z := Z.of_nat (length l).

(** [l.remove(player)]: deletes the first element equal to [player]. *)
Fixpoint list_remove (player : Player.t) (l : list Player.t) : list Player.t :=
  match l with
  | [] => []
  | q :: l' => if Player.eqb q player then l' else q :: list_remove player l'
  end.

(** [for player in l: if player["steamID"] == removed_steamID: l.remove(player)]
    The list is changed while it is iterated: the list iterator holds an index
    [i], reads [l[i]] as long as [i < len(l)], and moves to [i + 1] whatever
    happened to [l] in between.  [steps] bounds the number of iterations. *)
Fixpoint remove_loop (steps : nat) (removed_steamID : Z) (i : nat)
    (l : list Player.t) : list Player.t :=
  match steps with
  | O => l
  | S steps' =>
      match nth_error l i with
      | None => l
      | Some player =>
          remove_loop steps' removed_steamID (S i)
            (if Player.steamID player =? removed_steamID
             then list_remove player l else l)
      end
  end.

(** The loop reads at most [len(l)] elements, since [i] grows at each step and
    [l] never does. *)
Definition remove_from_players (removed_steamID : Z) (l : list Player.t)
  : list Player.t :=
  remove_loop (length l) removed_steamID 0 l.

Definition remove_from_team (removed_steamID : Z) (s : Team.t) : Team.t :=
  Team.set_players (remove_from_players removed_steamID (Team.players s)) s.

Definition remove_from_frame (removed_steamID : Z) (frame : Frame.t) : Frame.t :=
  Frame.set_ct (remove_from_team removed_steamID (Frame.ct frame))
    (Frame.set_t (remove_from_team removed_steamID (Frame.t_ frame)) frame).

(** [remove_player_from_round] (lines 1191-1204). *)
Definition remove_player_from_round (game_round : Round.t) (removed_steamID : Z)
  : result Round.t :=
  let game_round :=
    Round.set_sides (remove_from_team removed_steamID (Round.tSide game_round))
                    (remove_from_team removed_steamID (Round.ctSide game_round))
                    game_round in
  do frames <- iter_list (Round.frames game_round);
  Ok (Round.set_frames (Some (map (remove_from_frame removed_steamID) frames))
                       game_round).

(** ["T" if s == "CT" else "CT"] *)
Definition flip_side (s : string) : string :=
  if String.eqb s "CT" then "T"%string else "CT"%string.

(** The inner loop of both halves of [switch_player_side]: the first player of
    [this] with the given steamID is relabelled, appended to [other] and
    removed from [this]; [None] when nobody matches.  The player found is the
    first of its steamID, so [remove] deletes that very entry. *)
Definition move_player (relabel : Player.t -> Player.t) (switched_steamID : Z)
    (this other : list Player.t) : option (list Player.t * list Player.t) :=
  match find (fun player => Player.steamID player =? switched_steamID) this with
  | Some player => Some (list_remove player this, other ++ [relabel player])
  | None => None
  end.

(** [for side in (a, b)] with the [player_switched] flag: try to move from the
    t list to the ct list, and only if nobody was moved the other way round. *)
Definition switch_lists (to_ct to_t : Player.t -> Player.t) (switched_steamID : Z)
    (ts cts : list Player.t) : list Player.t * list Player.t :=
  match move_player to_ct switched_steamID ts cts with
  | Some (ts', cts') => (ts', cts')
  | None =>
      match move_player to_t switched_steamID cts ts with
      | Some (cts', ts') => (ts', cts')
      | None => (ts, cts)
      end
  end.

Definition switch_in_frame (switched_steamID : Z) (frame : Frame.t) : Frame.t :=
  let (ts, cts) :=
    switch_lists (Player.set_side "CT") (Player.set_side "T") switched_steamID
      (Team.players (Frame.t_ frame)) (Team.players (Frame.ct frame)) in
  Frame.set_ct (Team.set_players cts (Frame.ct frame))
    (Frame.set_t (Team.set_players ts (Frame.t_ frame)) frame).

Definition switch_kill (sid : Z) (kill : Kill.t) : Kill.t :=
  Kill.mk (Kill.attackerSteamID kill)
    (if Kill.attackerSteamID kill =? sid then flip_side (Kill.attackerSide kill)
     else Kill.attackerSide kill)
    (Kill.victimSteamID kill)
    (if Kill.victimSteamID kill =? sid then flip_side (Kill.victimSide kill)
     else Kill.victimSide kill)
    (Kill.weapon kill).

Definition switch_damage (sid : Z) (damage : Damage.t) : Damage.t :=
  Damage.mk (Damage.attackerSteamID damage)
    (if Damage.attackerSteamID damage =? sid
     then flip_side (Damage.attackerSide damage) else Damage.attackerSide damage)
    (Damage.victimSteamID damage)
    (if Damage.victimSteamID damage =? sid
     then flip_side (Damage.victimSide damage) else Damage.victimSide damage).

Definition switch_grenade (sid : Z) (grenade : Grenade.t) : Grenade.t :=
  Grenade.mk (Grenade.throwerSteamID grenade)
    (if Grenade.throwerSteamID grenade =? sid
     then flip_side (Grenade.throwerSide grenade) else Grenade.throwerSide grenade).

Definition switch_weaponFire (sid : Z) (weaponFire : WeaponFire.t) : WeaponFire.t :=
  WeaponFire.mk (WeaponFire.playerSteamID weaponFire)
    (if WeaponFire.playerSteamID weaponFire =? sid
     then flip_side (WeaponFire.playerSide weaponFire)
     else WeaponFire.playerSide weaponFire).

Definition switch_flash (sid : Z) (flash : Flash.t) : Flash.t :=
  Flash.mk (Flash.attackerSteamID flash)
    (if Flash.attackerSteamID flash =? sid
     then flip_side (Flash.attackerSide flash) else Flash.attackerSide flash)
    (Flash.playerSteamID flash)
    (if Flash.playerSteamID flash =? sid
     then flip_side (Flash.playerSide flash) else Flash.playerSide flash).

(** [switch_player_side] (lines 1206-1260).  The roster entries keep their
    label, the frame entries get the label of the list they are moved to. *)
Definition switch_player_side (game_round : Round.t) (switched_steamID : Z)
  : result Round.t :=
  let (ts, cts) :=
    switch_lists (fun player => player) (fun player => player) switched_steamID
      (Team.players (Round.tSide game_round))
      (Team.players (Round.ctSide game_round)) in
  do kills <- iter_list (Round.kills game_round);
  do damages <- iter_list (Round.damages game_round);
  do grenades <- iter_list (Round.grenades game_round);
  do weaponFires <- iter_list (Round.weaponFires game_round);
  do flashes <- iter_list (Round.flashes game_round);
  do frames <- iter_list (Round.frames game_round);
  Ok (Round.set_frames (Some (map (switch_in_frame switched_steamID) frames))
       (Round.set_events
          (Some (map (switch_kill switched_steamID) kills))
          (Some (map (switch_damage switched_steamID) damages))
          (Some (map (switch_grenade switched_steamID) grenades))
          (Some (map (switch_weaponFire switched_steamID) weaponFires))
          (Some (map (switch_flash switched_steamID) flashes))
          (Round.set_sides (Team.set_players ts (Round.tSide game_round))
                           (Team.set_players cts (Round.ctSide game_round))
                           game_round))).

(** [get_player_side] (lines 1262-1279). *)
Definition get_player_side (player : Player.t) (mapName : string) : string :=
  let T_if (b : bool) : string := if b then "T"%string else "CT"%string in
  if string_in mapName
       ["de_ancient"; "de_anubis"; "de_mirage"; "de_inferno"; "de_nuke";
        "de_overpass"; "de_vertigo"]%string
  then
    if String.eqb mapName "de_ancient" then T_if (Player.y player <? 0)
    else if String.eqb mapName "de_anubis" then T_if (Player.y player <? 0)
    else if String.eqb mapName "de_inferno" then T_if (Player.x player <? 0)
    else if String.eqb mapName "de_mirage" then T_if (0 <? Player.x player)
    else if String.eqb mapName "de_nuke" then T_if (Player.x player <? 0)
    else if String.eqb mapName "de_overpass" then T_if (Player.y player <? 0)
    else T_if (Player.y player <? 0)
  else Player.side player.

(** The state of the two nested loops of [findFirstDeadPlayer]: either the
    function has returned, or the scan goes on with the current [firstDied]. *)
Inductive scan : Type :=
| Return (v : option Z)
| Continue (firstDied : option Z).

Fixpoint scan_players (firstDied : option Z) (players : list Player.t) : scan :=
  match players with
  | [] => Continue firstDied
  | player :: rest =>
      if negb (Player.isAlive player) then
        match firstDied with
        | None => Return (Some (Player.steamID player))
        | Some d =>
            if Player.steamID player <? d
            then Return (Some (Player.steamID player))
            else scan_players firstDied rest
        end
      else scan_players firstDied rest
  end.

Fixpoint scan_frames (side : side_key) (firstDied : option Z)
    (frames : list Frame.t) : option Z :=
  match frames with
  | [] => firstDied
  | frame :: rest =>
      match scan_players firstDied (frame_players side frame) with
      | Return v => v
      | Continue firstDied' => scan_frames side firstDied' rest
      end
  end.

(** [findFirstDeadPlayer] (lines 1137-1148). *)
Definition findFirstDeadPlayer (game_round : Round.t) (side : side_key)
  : result (option Z) :=
  do frames <- iter_list (Round.frames game_round);
  Ok (scan_frames side None frames).

(** [player["x"] == 0 and player["y"] == 0 and player["z"] == 0] *)
Definition at_origin (player : Player.t) : bool :=
  (Player.x player =? 0) && (Player.y player =? 0) && (Player.z player =? 0).

(** [for player in toBeRemoved: self.remove_player_from_round(...)] *)
Definition remove_all (toBeRemoved : list Player.t) (game_round : Round.t)
  : result Round.t :=
  for_each (fun player r => remove_player_from_round r (Player.steamID player))
           toBeRemoved game_round.

(** [remove_coaches_in_origin] (lines 1150-1161). *)
Definition remove_coaches_in_origin (game_round : Round.t) : result Round.t :=
  do frames <- iter_list (Round.frames game_round);
  do first_frame <- py_index frames 0;
  let toBeRemoved :=
    flat_map (fun side => filter at_origin (frame_players side first_frame))
             [key_t; key_ct] in
  remove_all toBeRemoved game_round.

(** [(p["x"], p["y"], p["z"]) != position] *)
Definition position_differs (p player : Player.t) : bool :=
  negb ((Player.x p =? Player.x player) && (Player.y p =? Player.y player)
        && (Player.z p =? Player.z player)).

(** The value of [moved] after the scan of [frames[1:]]. *)
Definition has_moved (side : side_key) (player : Player.t) (later : list Frame.t)
  : bool :=
  existsb (fun frame =>
             existsb (fun p => (Player.steamID p =? Player.steamID player)
                               && position_differs p player)
                     (frame_players side frame))
          later.

(** [remove_coaches_not_moving] (lines 1163-1189). *)
Definition remove_coaches_not_moving (game_round : Round.t) : result Round.t :=
  match Round.frames game_round with
  | None | Some [] => Ok game_round
  | Some (first_frame :: later) =>
      let toBeRemoved :=
        flat_map (fun side =>
                    filter (fun player => negb (has_moved side player later))
                           (frame_players side first_frame))
                 [key_t; key_ct] in
      remove_all toBeRemoved game_round
  end.

(** ** Roster normaliser: [remove_excess_players] *)

(** [player_lists] is bound once (lines 1316-1319) to the two list objects of
    the first frame; the helpers change these very objects in place, so every
    later [len(player_lists[k])] reads the first frame of the current round. *)
Definition player_lists (game_round : Round.t) : list Player.t * list Player.t :=
  match Round.frames game_round with
  | Some (game_frame :: _) =>
      (frame_players key_t game_frame, frame_players key_ct game_frame)
  | _ => ([], [])
  end.

Definition player_list (side : side_key) (game_round : Round.t) : list Player.t :=
  match side with
  | key_t => fst (player_lists game_round)
  | key_ct => snd (player_lists game_round)
  end.

(** [len(player_lists[0]) > 5 or len(player_lists[1]) > 5] *)
Definition over_limit (game_round : Round.t) : bool :=
  (5 <? len (player_list key_t game_round))
  || (5 <? len (player_list key_ct game_round)).

(** [switchedPlayers.add(x)].  The Python set is kept as a duplicate-free list
    in insertion order; CPython walks a set of integers in hash order, so the
    order of the switches, and with it the order inside the player lists
    afterwards, is fixed by the model to one of the possible ones.  What is
    stated of the switches themselves is stated for every walk of the set
    ([set_walk], [switch_all]). *)
Definition set_add (x : Z) (s : list Z) : list Z :=
  if existsb (Z.eqb x) s then s else s ++ [x].

(** Lines 1334-1338. *)
Definition switchedPlayers (mapName : string) (game_round : Round.t) : list Z :=
  fold_left
    (fun s playerFrame =>
       if negb (String.eqb (get_player_side playerFrame mapName)
                           (Player.side playerFrame))
       then set_add (Player.steamID playerFrame) s else s)
    (player_list key_t game_round ++ player_list key_ct game_round) [].

(** One of the three [while] loops of lines 1349-1377; [loops] is what is left
    of [max_loops].  [if firstDied:] fails on [None] and on steamID 0. *)
Fixpoint eliminate (loops : nat) (side : side_key) (game_round : Round.t)
  : result Round.t :=
  match loops with
  | O => Ok game_round
  | S loops' =>
      if 5 <? len (player_list side game_round) then
        do firstDied <- findFirstDeadPlayer game_round side;
        match firstDied with
        | Some d =>
            if d =? 0 then Ok game_round
            else
              do game_round' <- remove_player_from_round game_round d;
              eliminate loops' side game_round'
        | None => Ok game_round
        end
      else Ok game_round
  end.

Definition max_loops : nat := 10.
Definition max_players : Z := 5.
Definition min_players : Z := 3.

(** The acceptance test of lines 1379-1382; the two lists are never [None]
    at this point, so the [any(...)] conjunct is true. *)
Definition accepted (game_round : Round.t) : bool :=
  forallb (fun player_list =>
             (len player_list <=? max_players) && (min_players <=? len player_list))
          [player_list key_t game_round; player_list key_ct game_round].

(** The steps of the loop body from the side correction on (lines 1333-1386). *)
Definition force_sides (mapName : string) (game_round : Round.t) : result Round.t :=
  for_each (fun playerToSwitch r => switch_player_side r playerToSwitch)
           (switchedPlayers mapName game_round) game_round.

Definition eliminate_and_accept (game_round : Round.t) : result (option Round.t) :=
  do r <- eliminate max_loops key_t game_round;
  do r <- eliminate max_loops key_t r;
  do r <- eliminate max_loops key_ct r;
  if accepted r then Ok (Some r) else Ok None.

(** The body of the loop over the rounds (lines 1299-1386): [Some r] when the
    round, now [r], is appended to [cleaned_rounds], [None] when it is
    dropped. *)
Definition excess_players_round (mapName : string) (game_round : Round.t)
  : result (option Round.t) :=
  match Round.frames game_round with
  | None | Some [] => Ok None
  | Some (_ :: _) =>
      do r <- (if over_limit game_round
               then remove_coaches_in_origin game_round else Ok game_round);
      do r <- (if over_limit r then remove_coaches_not_moving r else Ok r);
      do r <- force_sides mapName r;
      eliminate_and_accept r
  end.

Definition excess_players_step (mapName : string) (game_round : Round.t)
    (cleaned_rounds : list Round.t) : result (list Round.t) :=
  do kept <- excess_players_round mapName game_round;
  match kept with
  | Some r => Ok (cleaned_rounds ++ [r])
  | None => Ok cleaned_rounds
  end.

(** [remove_excess_players] (lines 1281-1391). *)
Definition remove_excess_players (p : DemoParser) : result DemoParser :=
  with_json p (fun g =>
    if negb (parse_frames p) then Ok p
    else
      do cleaned_rounds <-
        for_each (excess_players_step (Game.mapName g))
                 (or_empty (Game.gameRounds g)) [];
      Ok (store_rounds p g cleaned_rounds)).

(** ** Orchestrator *)

(** The keyword arguments of [clean_rounds] that select the stages. *)
Record CleanArgs : Type := mkArgs {
  arg_remove_no_frames : bool;
  arg_remove_warmups : bool;
  arg_remove_knifes : bool;
  arg_remove_bad_timings : bool;
  arg_remove_excess_players : bool;
  arg_remove_excess_kills : bool;
  arg_remove_bad_endings : bool;
  arg_remove_bad_scoring : bool
}.

(** The defaults of the signature: every stage enabled. *)
Definition default_args : CleanArgs :=
  mkArgs true true true true true true true true.

(** [if flag: self.stage()] *)
Definition when (flag : bool) (stage : DemoParser -> result DemoParser)
    (p : DemoParser) : result DemoParser :=
  if flag then stage p else Ok p.

(** The filter stages of [clean_rounds] (lines 893-908). *)
Definition filter_stages (a : CleanArgs) (p : DemoParser) : result DemoParser :=
  do p <- when (arg_remove_no_frames a) remove_rounds_with_no_frames p;
  do p <- when (arg_remove_warmups a) remove_warmups p;
  do p <- when (arg_remove_knifes a) remove_knife_rounds p;
  do p <- when (arg_remove_bad_timings a) remove_time_rounds p;
  do p <- when (arg_remove_excess_players a) remove_excess_players p;
  do p <- when (arg_remove_excess_kills a) remove_excess_kill_rounds p;
  do p <- when (arg_remove_bad_endings a) (remove_end_round None) p;
  when (arg_remove_bad_scoring a) remove_bad_scoring p.

(** The stages and the renumbering passes of [clean_rounds] (lines 892-913):
    the state of the parser when they are through, whose [json] is the value
    that a call with [return_type = "json"] returns.  The file write, the
    return and the [ValueError] of lines 914-923 are in [clean_rounds_call]
    below. *)
Definition clean_rounds (a : CleanArgs) (p : DemoParser) : result DemoParser :=
  with_json p (fun _ =>
    do p <- filter_stages a p;
    do p <- renumber_rounds p;
    renumber_frames p).

(** ** Sample records *)

Definition sample_player (id : Z) (side : string) (x y z : Z) (alive : bool)
  : Player.t :=
  Player.mk id "player" side x y z alive.

Definition sample_frame (ts cts : list Player.t) : Frame.t :=
  Frame.mk 0 0 (Team.mk "Team A" ts) (Team.mk "Team B" cts).

(** A live round that ends by a bomb explosion, with the given scores before
    and after, frames and kills, and empty rosters and event lists. *)
Definition sample_round (tScore ctScore endTScore endCTScore : Z)
    (frames : option (list Frame.t)) (kills : option (list Kill.t)) : Round.t :=
  Round.mk 1 false 0 10 100 110 tScore ctScore endTScore endCTScore
    "TargetBombed" (Team.mk "Team A" []) (Team.mk "Team B" [])
    frames kills (Some []) (Some []) (Some []) (Some []).

Definition sample_parser (mapName : string) (phases : list (string * list Z))
    (rounds : list Round.t) : DemoParser :=
  mkParser true (Some (Game.mk mapName phases (Some rounds))).

(** The rounds of the loaded record, [[]] when there is none. *)
Definition rounds_of (p : DemoParser) : list Round.t :=
  match json p with
  | Some g => or_empty (Game.gameRounds g)
  | None => []
  end.

Definition rounds_of_result (m : result DemoParser) : option (list Round.t) :=
  match m with
  | Ok p => Some (rounds_of p)
  | Raise _ => None
  end.

(** ** Notions used by the statements *)

(** *** Score consistency checker *)

(** The rounds of [l] whose index, counted from [k], satisfies [keep]. *)
Fixpoint select_from {A : Type} (keep : nat -> bool) (k : nat) (l : list A)
  : list A :=
  match l with
  | [] => []
  | a :: l' =>
      if keep k then a :: select_from keep (S k) l'
      else select_from keep (S k) l'
  end.

Definition select {A : Type} (keep : nat -> bool) (l : list A) : list A :=
  select_from keep 0 l.

(** The retention rule of section 4.3 of the specification, in its words. *)
Definition spec_total (r : Round.t) : Z :=
  Round.tScore r + Round.ctScore r + Round.endTScore r + Round.endCTScore r.

Definition regulation_win (won lost : Z) : Prop :=
  won = 16 /\ lost < 15.

Definition overtime_win (won lost : Z) : Prop :=
  (3 | won - 16) /\ won > 15 /\ lost <= won - 2.

Definition terminal_win (r : Round.t) : Prop :=
  regulation_win (Round.endTScore r) (Round.endCTScore r)
  \/ regulation_win (Round.endCTScore r) (Round.endTScore r)
  \/ overtime_win (Round.endTScore r) (Round.endCTScore r)
  \/ overtime_win (Round.endCTScore r) (Round.endTScore r).

Definition score_retained (rs : list Round.t) (i : nat) : Prop :=
  exists r, nth_error rs i = Some r /\
    ((S i < length rs)%nat /\
       (exists next, nth_error rs (S i) = Some next /\
                     (spec_total next > spec_total r \/ terminal_win r))
     \/ (S i = length rs)%nat /\
       (exists prev, nth_error rs (i - 1) = Some prev /\
                     spec_total r > spec_total prev)).

(** What one iteration of the loop decides for the round of index [i]. *)
Definition bad_scoring_keeps (rs : list Round.t) (i : nat) : bool :=
  match nth_error rs i with
  | None => false
  | Some r =>
      if (S i <? length rs)%nat then
        match nth_error rs (S i) with
        | Some next => (round_total r <? round_total next)
                       || _has_winner_and_not_winner r
        | None => false
        end
      else
        match nth_error rs (i - 1) with
        | Some prev => round_total prev <? round_total r
        | None => false
        end
  end.

(** *** Knife-round filter *)

Definition is_knife_kill (k : Kill.t) : bool :=
  String.eqb (Kill.weapon k) "Knife".

(** When a round leaves the knife filter. *)
Definition knife_dropped (r : Round.t) : Prop :=
  Round.isWarmup r = true
  \/ Round.kills r = None
  \/ exists ks, Round.kills r = Some ks /\ ks <> []
                /\ Forall (fun k => Kill.weapon k = "Knife"%string) ks.

(** *** Renumbering *)

(** The frames of a round list, rounds in order and frames in order. *)
Definition all_frames (rs : list Round.t) : list Frame.t :=
  flat_map (fun r => or_empty (Round.frames r)) rs.

(** A round with its two numberings forgotten: two rounds with the same image
    differ at most in [roundNum] and in the [globalFrameID] of their frames. *)
Definition unnumbered_frame (f : Frame.t) : Frame.t :=
  Frame.set_globalFrameID 0 f.

Definition unnumbered (r : Round.t) : Round.t :=
  Round.set_roundNum 0
    (Round.set_frames (option_map (map unnumbered_frame) (Round.frames r)) r).

(** [k, k + 1, ..., k + n - 1] *)
Fixpoint count_from (k : Z) (n : nat) : list Z :=
  match n with
  | O => []
  | S n' => k :: count_from (k + 1) n'
  end.

(** A parser whose record is loaded and has a round list. *)
Definition has_rounds (p : DemoParser) : Prop :=
  exists g rs, json p = Some g /\ Game.gameRounds g = Some rs.

(** What no stage of the pipeline touches. *)
Definition same_header (p p' : DemoParser) : Prop :=
  parse_frames p' = parse_frames p
  /\ option_map Game.mapName (json p') = option_map Game.mapName (json p)
  /\ option_map Game.matchPhases (json p') = option_map Game.matchPhases (json p).

(** Every stage ends in [self.json["gameRounds"] = cleaned_rounds] or leaves
    the parser as it is. *)
Definition stage_shape (stage : DemoParser -> result DemoParser) : Prop :=
  forall p p', stage p = Ok p' ->
    p' = p \/ exists g rs, json p = Some g /\ p' = store_rounds p g rs.

(** *** Removal of a player from a round *)

(** The players of [l] other than those with steamID [sid]. *)
Definition without (sid : Z) (l : list Player.t) : list Player.t :=
  filter (fun p => negb (Player.steamID p =? sid)) l.

(** The steamIDs of a player list; they are the identifiers of section 3 when
    no two entries of the list share one. *)
Definition ids (l : list Player.t) : list Z := map Player.steamID l.

Definition unique_ids (l : list Player.t) : Prop := NoDup (ids l).

Definition purge_team (sid : Z) (s : Team.t) : Team.t :=
  Team.set_players (without sid (Team.players s)) s.

Definition purge_frame (sid : Z) (f : Frame.t) : Frame.t :=
  Frame.set_ct (purge_team sid (Frame.ct f))
    (Frame.set_t (purge_team sid (Frame.t_ f)) f).

(** The round without the player [sid] in its rosters and frames. *)
Definition purge (sid : Z) (r : Round.t) : Round.t :=
  Round.set_frames (option_map (map (purge_frame sid)) (Round.frames r))
    (Round.set_sides (purge_team sid (Round.tSide r))
                     (purge_team sid (Round.ctSide r)) r).

(** SteamIDs identify the players inside every player list of the round. *)
Definition frame_unique (f : Frame.t) : Prop :=
  unique_ids (frame_players key_t f) /\ unique_ids (frame_players key_ct f).

Definition round_unique (r : Round.t) : Prop :=
  unique_ids (Team.players (Round.tSide r))
  /\ unique_ids (Team.players (Round.ctSide r))
  /\ Forall frame_unique (or_empty (Round.frames r)).

(** [remove_all] on a round with identifiers: the fold of [purge]. *)
Definition purge_all (toBeRemoved : list Player.t) (r : Round.t) : Round.t :=
  fold_left (fun r player => purge (Player.steamID player) r) toBeRemoved r.

(** No player list of the round holds the steamID [sid]. *)
Definition absent_from_frame (sid : Z) (f : Frame.t) : Prop :=
  ~ In sid (ids (frame_players key_t f)) /\ ~ In sid (ids (frame_players key_ct f)).

Definition absent_from_lists (sid : Z) (r : Round.t) : Prop :=
  ~ In sid (ids (Team.players (Round.tSide r)))
  /\ ~ In sid (ids (Team.players (Round.ctSide r)))
  /\ Forall (absent_from_frame sid) (or_empty (Round.frames r)).

Definition same_events (r r' : Round.t) : Prop :=
  Round.kills r' = Round.kills r
  /\ Round.damages r' = Round.damages r
  /\ Round.grenades r' = Round.grenades r
  /\ Round.weaponFires r' = Round.weaponFires r
  /\ Round.flashes r' = Round.flashes r.

(** The players that [remove_coaches_in_origin] collects. *)
Definition coaches_in_origin (first_frame : Frame.t) : list Player.t :=
  flat_map (fun side => filter at_origin (frame_players side first_frame))
           [key_t; key_ct].

(** *** Side switch *)

(** Equality of rounds up to the order inside the player lists. *)
Definition team_equiv (s s' : Team.t) : Prop :=
  Team.teamName s = Team.teamName s'
  /\ Permutation (Team.players s) (Team.players s').

Definition frame_equiv (f f' : Frame.t) : Prop :=
  Frame.tick f = Frame.tick f'
  /\ Frame.globalFrameID f = Frame.globalFrameID f'
  /\ team_equiv (Frame.t_ f) (Frame.t_ f')
  /\ team_equiv (Frame.ct f) (Frame.ct f').

Definition frames_equiv (fs fs' : option (list Frame.t)) : Prop :=
  match fs, fs' with
  | Some l, Some l' => Forall2 frame_equiv l l'
  | None, None => True
  | _, _ => False
  end.

(** The round without its player lists: the scalar fields and the events. *)
Definition round_rest (r : Round.t) : Round.t :=
  Round.set_frames None
    (Round.set_sides (Team.mk EmptyString []) (Team.mk EmptyString []) r).

Definition round_equiv (r r' : Round.t) : Prop :=
  round_rest r = round_rest r'
  /\ team_equiv (Round.tSide r) (Round.tSide r')
  /\ team_equiv (Round.ctSide r) (Round.ctSide r')
  /\ frames_equiv (Round.frames r) (Round.frames r').

(** The number of entries of [l] with steamID [sid]. *)
Definition occurrences (sid : Z) (l : list Player.t) : nat :=
  length (filter (fun player => Player.steamID player =? sid) l).

(** Every entry of [l] with steamID [sid] carries the label [s]. *)
Definition labelled (s : string) (sid : Z) (l : list Player.t) : Prop :=
  Forall (fun player => Player.steamID player = sid -> Player.side player = s) l.

Definition is_side (s : string) : Prop := s = "T"%string \/ s = "CT"%string.

(** What the double switch needs of a frame: the steamID names at most one
    entry of its two lists, and that entry carries the label of its list. *)
Definition frame_switchable (sid : Z) (f : Frame.t) : Prop :=
  (occurrences sid (frame_players key_t f ++ frame_players key_ct f) <= 1)%nat
  /\ labelled "T" sid (frame_players key_t f)
  /\ labelled "CT" sid (frame_players key_ct f).

Definition kill_switchable (sid : Z) (k : Kill.t) : Prop :=
  (Kill.attackerSteamID k = sid -> is_side (Kill.attackerSide k))
  /\ (Kill.victimSteamID k = sid -> is_side (Kill.victimSide k)).

Definition damage_switchable (sid : Z) (d : Damage.t) : Prop :=
  (Damage.attackerSteamID d = sid -> is_side (Damage.attackerSide d))
  /\ (Damage.victimSteamID d = sid -> is_side (Damage.victimSide d)).

Definition grenade_switchable (sid : Z) (g : Grenade.t) : Prop :=
  Grenade.throwerSteamID g = sid -> is_side (Grenade.throwerSide g).

Definition weaponFire_switchable (sid : Z) (w : WeaponFire.t) : Prop :=
  WeaponFire.playerSteamID w = sid -> is_side (WeaponFire.playerSide w).

Definition flash_switchable (sid : Z) (f : Flash.t) : Prop :=
  (Flash.attackerSteamID f = sid -> is_side (Flash.attackerSide f))
  /\ (Flash.playerSteamID f = sid -> is_side (Flash.playerSide f)).

(** All the lists that [switch_player_side] iterates are present. *)
Definition lists_present (r : Round.t) : Prop :=
  Round.frames r <> None /\ Round.kills r <> None /\ Round.damages r <> None
  /\ Round.grenades r <> None /\ Round.weaponFires r <> None
  /\ Round.flashes r <> None.

(** What the double switch needs of a round for the player [sid]. *)
Definition switchable (sid : Z) (r : Round.t) : Prop :=
  (occurrences sid (Team.players (Round.tSide r) ++ Team.players (Round.ctSide r))
   <= 1)%nat
  /\ Forall (frame_switchable sid) (or_empty (Round.frames r))
  /\ Forall (kill_switchable sid) (or_empty (Round.kills r))
  /\ Forall (damage_switchable sid) (or_empty (Round.damages r))
  /\ Forall (grenade_switchable sid) (or_empty (Round.grenades r))
  /\ Forall (weaponFire_switchable sid) (or_empty (Round.weaponFires r))
  /\ Forall (flash_switchable sid) (or_empty (Round.flashes r)).

(** [switch_player_side] applied twice. *)
Definition switch_twice (r : Round.t) (sid : Z) : result Round.t :=
  do r1 <- switch_player_side r sid; switch_player_side r1 sid.

(** *** Roster normaliser *)

(** Every first-frame player carries the side that [get_player_side] infers. *)
Definition sides_agree (mapName : string) (r : Round.t) : Prop :=
  Forall (fun player => get_player_side player mapName = Player.side player)
         (player_list key_t r ++ player_list key_ct r).

(** A match whose recording restarts after two rounds: five live rounds of
    two frames each, five players a side; the scores before the rounds run
    0-0, 1-0, then again 0-0, 0-1, 1-1. *)
Definition five_t : list Player.t :=
  [sample_player 1 "T" 100 200 0 true; sample_player 2 "T" 110 200 0 true;
   sample_player 3 "T" 120 200 0 true; sample_player 4 "T" 130 200 0 true;
   sample_player 5 "T" 140 200 0 true].

Definition five_ct : list Player.t :=
  [sample_player 6 "CT" (-100) 50 0 true; sample_player 7 "CT" (-110) 50 0 true;
   sample_player 8 "CT" (-120) 50 0 true; sample_player 9 "CT" (-130) 50 0 true;
   sample_player 10 "CT" (-140) 50 0 true].

Definition scored_round (tScore ctScore endTScore endCTScore : Z) : Round.t :=
  Round.mk 1 false 0 10 100 110 tScore ctScore endTScore endCTScore
    "TargetBombed" (Team.mk "Team A" five_t) (Team.mk "Team B" five_ct)
    (Some [sample_frame five_t five_ct; sample_frame five_t five_ct])
    (Some [Kill.mk 1 "T" 6 "CT" "AK-47"]) (Some []) (Some []) (Some []) (Some []).

Definition restarted_match : DemoParser :=
  sample_parser "de_dust2" [("warmupChanged"%string, [0; 50])]
    [scored_round 0 0 1 0; scored_round 1 0 2 0; scored_round 0 0 0 1;
     scored_round 0 1 1 1; scored_round 1 1 2 1].

(** Two live rounds on de_mirage, four players a side; player 4 stands on the
    T half (x > 0) and is listed with the T players, but carries the label
    ["CT"]. *)
Definition mislabelled_match : DemoParser :=
  let ts := [sample_player 1 "T" 5 10 0 true; sample_player 2 "T" 6 10 0 true;
             sample_player 3 "T" 7 10 0 true; sample_player 4 "CT" 8 10 0 true] in
  let cts := [sample_player 5 "CT" (-5) 10 0 true;
              sample_player 6 "CT" (-6) 10 0 true;
              sample_player 7 "CT" (-7) 10 0 true;
              sample_player 8 "CT" (-8) 10 0 true] in
  sample_parser "de_mirage" [("warmupChanged"%string, [0; 50])]
    [sample_round 0 0 1 0 (Some [sample_frame ts cts]) (Some []);
     sample_round 1 0 2 0 (Some [sample_frame ts cts]) (Some [])].

(** *** Second run of the pipeline *)

(** The tests of the scalar filters. *)
Definition has_frames (r : Round.t) : bool :=
  0 <? Z.of_nat (length (or_empty (Round.frames r))).

Definition live (r : Round.t) : bool := negb (Round.isWarmup r).

Definition time_ok (r : Round.t) : bool :=
  (Round.startTick r <=? Round.endTick r)
  && (Round.startTick r <=? Round.endOfficialTick r)
  && (Round.startTick r <=? Round.freezeTimeEndTick r).

Definition kills_ok (r : Round.t) : bool :=
  negb (Round.isWarmup r) && (Z.of_nat (length (or_empty (Round.kills r))) <=? 10).

Definition ending_ok (r : Round.t) : bool :=
  negb (string_in (Round.roundEndReason r) default_bad_endings).

(** What the scalar filters and the score checker read of a round: the
    warmup flag, the ticks, the scores, the end reason and the weapons of the
    kills. *)
Definition profile (r : Round.t)
  : bool * (Z * Z * Z * Z) * (Z * Z * Z * Z) * string * option (list string) :=
  (Round.isWarmup r,
   (Round.startTick r, Round.freezeTimeEndTick r, Round.endTick r,
    Round.endOfficialTick r),
   (Round.tScore r, Round.ctScore r, Round.endTScore r, Round.endCTScore r),
   Round.roundEndReason r,
   option_map (map Kill.weapon) (Round.kills r)).

(** [r'] is [r] after some removals and switches of players. *)
Definition same_profile (r r' : Round.t) : Prop := profile r' = profile r.

(** The parser with a loaded record, field by field. *)
Definition state (pf : bool) (mapName : string) (phases : list (string * list Z))
    (rounds : option (list Round.t)) : DemoParser :=
  mkParser pf (Some (Game.mk mapName phases rounds)).

(** The filter stages of [clean_rounds] with every stage enabled, as a
    function of the round list. *)
Definition stage_lists (pf : bool) (mapName : string)
    (phases : list (string * list Z)) (rs0 : list Round.t)
  : result (list Round.t) :=
  let rs := if pf then filter has_frames rs0 else rs0 in
  let rs := if has_key "warmupChanged" phases then filter live rs else [] in
  let rs := filter knife_round_kept rs in
  let rs := filter time_ok rs in
  do rs <- (if pf then for_each (excess_players_step mapName) rs [] else Ok rs);
  let rs := filter kills_ok rs in
  let rs := filter ending_ok rs in
  Ok (select (bad_scoring_keeps rs) rs).

(** The two renumbering passes on the round list. *)
Definition renumber (rs : list Round.t) : list Round.t :=
  renumber_frames_from 0 (renumber_round_list rs).

(** A round as the filter stages leave it: it passes every test of the
    scalar filters and, when frames are parsed, the acceptance test of the
    roster normaliser. *)
Definition cleaned_round (pf : bool) (r : Round.t) : Prop :=
  (pf = true -> accepted r = true)
  /\ live r = true /\ knife_round_kept r = true /\ time_ok r = true
  /\ kills_ok r = true /\ ending_ok r = true.

(** Three live rounds with the scores of an ordinary match. *)
Definition steady_match : DemoParser :=
  sample_parser "de_dust2" [("warmupChanged"%string, [0; 50])]
    [scored_round 0 0 1 0; scored_round 1 0 2 0; scored_round 2 0 2 1].

(** ** Notions used by the further properties *)

(** The maps on which [get_player_side] reads the side off the position. *)
Definition position_maps : list string :=
  ["de_ancient"; "de_anubis"; "de_mirage"; "de_inferno"; "de_nuke";
   "de_overpass"; "de_vertigo"]%string.

(** Whether a run of [clean_rounds] with the arguments [a] reaches a stage that
    stores a list built from [gameRounds or []]. *)
Definition stores_a_list (pf : bool) (a : CleanArgs) : bool :=
  (pf && (arg_remove_no_frames a || arg_remove_excess_players a))
  || arg_remove_warmups a || arg_remove_bad_timings a
  || arg_remove_excess_kills a.

(** The totals grow strictly from each round to the next. *)
Definition increasing_totals (rs : list Round.t) : Prop :=
  forall i a b, nth_error rs i = Some a -> nth_error rs (S i) = Some b ->
                round_total a < round_total b.

(** What a scalar filter does to [gameRounds]. *)
Inductive list_action : Type :=
| Normalising (f : Round.t -> bool)
| Lenient (f : Round.t -> bool)
| Wipe
| Skip.

(** [Normalising f] stores [[r for r in gameRounds or [] if f r]];
    [Lenient f] returns on a null list and stores the filtered list otherwise;
    [Wipe] stores [[]]; [Skip] stores nothing. *)
Definition act (k : list_action) (rounds : option (list Round.t))
  : option (list Round.t) :=
  match k with
  | Normalising f => Some (filter f (or_empty rounds))
  | Lenient f => option_map (filter f) rounds
  | Wipe => Some []
  | Skip => rounds
  end.

(** The six filters that keep or drop a round on its own fields. *)
Definition scalar_filters (bad_endings : option (list string))
  : list (DemoParser -> result DemoParser) :=
  [remove_rounds_with_no_frames; remove_warmups; remove_knife_rounds;
   remove_time_rounds; remove_excess_kill_rounds; remove_end_round bad_endings].

(** ** Parser settings

    The entries of [self.parser_args] that the constructor checks (lines
    183-185).  [parse_rate] can be any Python value; the check only asks
    whether it is an [int].  The members of the [Literal] type [BuyStyle]
    ([get_args(BuyStyle)]) are declared in [awpy.types], which is not among
    the sources: they are the argument [allowed]. *)

Inductive py_value : Type :=
| PyInt (n : Z)
| PyOther.

Record FullParserArgs : Type := mkFullParserArgs {
  parse_rate : py_value;
  trade_time : Z;
  buy_style : string
}.

(** [_check_trade_time] (lines 363-379): a trade time above the upper bound
    only gives a warning. *)
Definition _check_trade_time (a : FullParserArgs) : FullParserArgs :=
  let trade_time_upper_bound := 7 in
  if trade_time a <=? 0 then
    let trade_time_default := 5 in
    mkFullParserArgs (parse_rate a) trade_time_default (buy_style a)
  else if trade_time_upper_bound <? trade_time a then a
  else a.

(** [_check_parse_rate] (lines 399-422): the two [elif] branches only warn. *)
Definition _check_parse_rate (a : FullParserArgs) : FullParserArgs :=
  let parse_rate_lower_bound := 64 in
  let parse_rate_upper_bound := 256 in
  match parse_rate a with
  | PyOther => mkFullParserArgs (PyInt 128) (trade_time a) (buy_style a)
  | PyInt n =>
      if n <? 1 then mkFullParserArgs (PyInt 128) (trade_time a) (buy_style a)
      else if (1 <? n) && (n <? parse_rate_lower_bound) then a
      else if parse_rate_upper_bound <=? n then a
      else a
  end.

(** [_check_buy_style] (lines 424-434). *)
Definition _check_buy_style (allowed : list string) (a : FullParserArgs)
  : FullParserArgs :=
  if negb (string_in (buy_style a) allowed)
  then mkFullParserArgs (parse_rate a) (trade_time a) "hltv"
  else a.

(** The three checks in the order of the constructor. *)
Definition check_settings (allowed : list string) (a : FullParserArgs)
  : FullParserArgs :=
  _check_buy_style allowed (_check_parse_rate (_check_trade_time a)).

(** ** What the roster normaliser leaves alone

    A round without the entries of its player lists and without the side
    labels of its events: the fields, the frames with their ticks and
    identifiers, the team names, and the events with their steamIDs and
    weapons. *)
Definition bare_team (s : Team.t) : Team.t :=
  Team.mk (Team.teamName s) [].

Definition bare_frame (f : Frame.t) : Frame.t :=
  Frame.mk (Frame.tick f) (Frame.globalFrameID f)
           (bare_team (Frame.t_ f)) (bare_team (Frame.ct f)).

Definition bare_kill (k : Kill.t) : Kill.t :=
  Kill.mk (Kill.attackerSteamID k) EmptyString (Kill.victimSteamID k) EmptyString
          (Kill.weapon k).

Definition bare_damage (d : Damage.t) : Damage.t :=
  Damage.mk (Damage.attackerSteamID d) EmptyString (Damage.victimSteamID d)
            EmptyString.

Definition bare_grenade (g : Grenade.t) : Grenade.t :=
  Grenade.mk (Grenade.throwerSteamID g) EmptyString.

Definition bare_weaponFire (w : WeaponFire.t) : WeaponFire.t :=
  WeaponFire.mk (WeaponFire.playerSteamID w) EmptyString.

Definition bare_flash (f : Flash.t) : Flash.t :=
  Flash.mk (Flash.attackerSteamID f) EmptyString (Flash.playerSteamID f)
           EmptyString.

Definition bare_round (r : Round.t) : Round.t :=
  Round.mk (Round.roundNum r) (Round.isWarmup r) (Round.startTick r)
    (Round.freezeTimeEndTick r) (Round.endTick r) (Round.endOfficialTick r)
    (Round.tScore r) (Round.ctScore r) (Round.endTScore r) (Round.endCTScore r)
    (Round.roundEndReason r)
    (bare_team (Round.tSide r)) (bare_team (Round.ctSide r))
    (option_map (map bare_frame) (Round.frames r))
    (option_map (map bare_kill) (Round.kills r))
    (option_map (map bare_damage) (Round.damages r))
    (option_map (map bare_grenade) (Round.grenades r))
    (option_map (map bare_weaponFire) (Round.weaponFires r))
    (option_map (map bare_flash) (Round.flashes r)).

(** [r'] is [r] up to its player lists and event side labels. *)
Definition same_record (r r' : Round.t) : Prop := bare_round r' = bare_round r.

(** [rs'] is [rs] with some rounds dropped and the others replaced, in order,
    by rounds related to them by [R]. *)
Inductive thinned (R : Round.t -> Round.t -> Prop)
  : list Round.t -> list Round.t -> Prop :=
| thinned_nil : thinned R [] []
| thinned_drop (r : Round.t) (rs rs' : list Round.t) :
    thinned R rs rs' -> thinned R (r :: rs) rs'
| thinned_keep (r r' : Round.t) (rs rs' : list Round.t) :
    R r r' -> thinned R rs rs' -> thinned R (r :: rs) (r' :: rs').

(** The players of both sides of a frame, and of both rosters of a round. *)
Definition frame_all_players (f : Frame.t) : list Player.t :=
  frame_players key_t f ++ frame_players key_ct f.

Definition roster_all_players (r : Round.t) : list Player.t :=
  Team.players (Round.tSide r) ++ Team.players (Round.ctSide r).

(** [l'] is [l] after the removal of the steamID [sid]: the entries with
    another steamID are all there, in order, nothing is added, and if [l] has
    an entry with [sid] at least one of them is gone. *)
Definition removed_from (sid : Z) (l l' : list Player.t) : Prop :=
  without sid l' = without sid l
  /\ (length l' <= length l)%nat
  /\ (In sid (ids l) -> (length l' < length l)%nat).

(** ** Completion of [clean_rounds] *)

(** None of the five event lists of the round is [null]. *)
Definition events_present (r : Round.t) : Prop :=
  Round.kills r <> None /\ Round.damages r <> None /\ Round.grenades r <> None
  /\ Round.weaponFires r <> None /\ Round.flashes r <> None.

(** A computation that completes or raises [TypeError], nothing else. *)
Definition mild {A : Type} (m : result A) : Prop :=
  match m with
  | Ok _ => True
  | Raise e => e = TypeError
  end.

(** What is asked of a round before a helper iterates its frames and events. *)
Definition iterable (r : Round.t) : Prop :=
  Round.frames r <> None /\ events_present r.

(** A stage that completes on every loaded record whose rounds have their
    event lists, and leaves such a record. *)
Definition stage_total (F : DemoParser -> result DemoParser) : Prop :=
  forall pf mapName phases rounds,
    Forall events_present (or_empty rounds) ->
    exists rounds',
      F (state pf mapName phases rounds) = Ok (state pf mapName phases rounds')
      /\ Forall events_present (or_empty rounds').

(** A stage that, on a loaded record, completes with a loaded record or
    raises [TypeError]. *)
Definition stage_mild (F : DemoParser -> result DemoParser) : Prop :=
  forall pf mapName phases rounds,
    (exists rounds',
        F (state pf mapName phases rounds) = Ok (state pf mapName phases rounds'))
    \/ F (state pf mapName phases rounds) = Raise TypeError.

(** ** The result of a full run *)

(** A round that passes every test of the filter stages; the last conjunct is
    the one of the roster normaliser, which only runs when frames are
    parsed. *)
Definition passes_all_filters (pf : bool) (r : Round.t) : Prop :=
  Round.isWarmup r = false
  /\ Round.startTick r <= Round.endTick r
  /\ Round.startTick r <= Round.endOfficialTick r
  /\ Round.startTick r <= Round.freezeTimeEndTick r
  /\ len (or_empty (Round.kills r)) <= 10
  /\ ~ In (Round.roundEndReason r) default_bad_endings
  /\ ~ knife_dropped r
  /\ (pf = true ->
      has_frames r = true
      /\ 3 <= len (player_list key_t r) <= 5
      /\ 3 <= len (player_list key_ct r) <= 5).

(** ** The whole call of [clean_rounds] *)

(** [write_json] (lines 928-933) writes a file and [parse_json_to_df] (lines
    609-649) builds pandas data frames: what they do lies outside this
    development and is taken as it comes.  [E] is what they can raise, [D]
    the dictionary of data frames; [write_json env p = None] says that the
    file was written. *)
Record Outside (E D : Type) : Type := mkOutside {
  write_json : DemoParser -> option E;
  parse_json_to_df : DemoParser -> E + D
}.

Arguments write_json {E D} o p.
Arguments parse_json_to_df {E D} o p.

(** What a call of [clean_rounds] can raise: an exception of the stages or of
    the test of [self.json], an exception of the two methods above, or the
    [ValueError] of line 923. *)
Inductive raised (E : Type) : Type :=
| StageError (e : exn)
| OutsideError (e : E)
| ValueError.

Arguments StageError {E} e.
Arguments OutsideError {E} e.
Arguments ValueError {E}.

(** What it returns: [self.json] or the dictionary of data frames. *)
Inductive returned (D : Type) : Type :=
| ReturnedJson (g : option Game.t)
| ReturnedDf (d : D).

Arguments ReturnedJson {D} g.
Arguments ReturnedDf {D} d.

(** [clean_rounds] (lines 850-926) as a call: the stages and the two
    renumbering passes ([clean_rounds] above), then [write_json] when
    [save_to_json] is set, then the return by [return_type].  The result is
    the exception raised, or the parser after the call with the value
    returned. *)
Definition clean_rounds_call {E D : Type} (env : Outside E D) (a : CleanArgs)
    (return_type : string) (save_to_json : bool) (p : DemoParser)
  : raised E + DemoParser * returned D :=
  match clean_rounds a p with
  | Raise e => inl (StageError e)
  | Ok p' =>
      match (if save_to_json then write_json env p' else None) with
      | Some e => inl (OutsideError e)
      | None =>
          if String.eqb return_type "json" then
            inr (p', ReturnedJson (json p'))
          else if String.eqb return_type "df" then
            match parse_json_to_df env p' with
            | inl e => inl (OutsideError e)
            | inr demo_data => inr (p', ReturnedDf demo_data)
            end
          else inl ValueError
      end
  end.

(** ** The side correction *)

(** The reported side of the player differs from the inferred one. *)
Definition mis_sided (mapName : string) (player : Player.t) : Prop :=
  get_player_side player mapName <> Player.side player.

(** The state of the two first-frame lists while the players of [pending] are
    still to be switched: steamIDs identify the players of the two lists
    together, every entry carries the label of its list, and the mis-sided
    players are those of [pending]. *)
Definition correcting (mapName : string) (pending : list Z)
    (lists : list Player.t * list Player.t) : Prop :=
  NoDup (ids (fst lists ++ snd lists))
  /\ Forall (fun player => Player.side player = "T"%string) (fst lists)
  /\ Forall (fun player => Player.side player = "CT"%string) (snd lists)
  /\ (forall q, In q (fst lists ++ snd lists) ->
                (mis_sided mapName q <-> In (Player.steamID q) pending)).

(** [switchedPlayers] of lines 1334-1338 as the set it is: the steamIDs of
    the first-frame players whose reported side differs from the inferred
    one. *)
Definition in_switched_set (mapName : string) (game_round : Round.t) (sid : Z)
  : Prop :=
  exists playerFrame,
    In playerFrame (player_list key_t game_round ++ player_list key_ct game_round)
    /\ Player.steamID playerFrame = sid
    /\ mis_sided mapName playerFrame.

(** A walk of that set, as [for playerToSwitch in switchedPlayers] makes one:
    every member once, in an order the language leaves open (CPython follows
    the slots of the hash table, so that the set built from 1 and 8 is walked
    as 8, 1). *)
Definition set_walk (mapName : string) (game_round : Round.t) (order : list Z)
  : Prop :=
  NoDup order /\ forall sid, In sid order <-> in_switched_set mapName game_round sid.

(** The loop of lines 1340-1342 along the walk [order]. *)
Definition switch_all (order : list Z) (game_round : Round.t) : result Round.t :=
  for_each (fun playerToSwitch r => switch_player_side r playerToSwitch)
           order game_round.

(** ** Coaches that do not move *)

(** The players that [remove_coaches_not_moving] collects. *)
Definition coaches_not_moving (first_frame : Frame.t) (later : list Frame.t)
  : list Player.t :=
  flat_map (fun side =>
              filter (fun player => negb (has_moved side player later))
                     (frame_players side first_frame))
           [key_t; key_ct].

(** The frame without the players of [toBeRemoved]. *)
Definition purge_frame_all (toBeRemoved : list Player.t) (f : Frame.t) : Frame.t :=
  fold_left (fun f player => purge_frame (Player.steamID player) f) toBeRemoved f.

(** * Properties *)

(** ** Warmup filter *)

Lemma remove_warmups_no_marker (p : DemoParser) (g : Game.t) :
  json p = Some g ->
  has_key "warmupChanged" (Game.matchPhases g) = false ->
  remove_warmups p = Ok (store_rounds p g []).
Proof.
  intros Hj Hk. unfold remove_warmups, with_json.
  rewrite Hj, Hk. reflexivity.
Qed.

(** C1 (the code departs from the claim).  A record without the
    ["warmupChanged"] key and with one live round (not a warmup): the claim
    wants the round list left as it is, [remove_warmups] empties it. *)
Theorem remove_warmups_no_marker_drops_live_round :
  let r := sample_round 0 0 1 0 None (Some []) in
  let p := sample_parser "de_dust2" [("roundStarted"%string, [0])] [r] in
  Round.isWarmup r = false /\
  has_key "warmupChanged" [("roundStarted"%string, [0])] = false /\
  rounds_of_result (remove_warmups p) = Some [] /\
  rounds_of p = [r].
Proof.
  cbv zeta. repeat split.
Qed.

(** ** Score consistency checker *)

Lemma py_index_nat {A : Type} (l : list A) (i : nat) (a : A) :
  nth_error l i = Some a -> py_index l (Z.of_nat i) = Ok a.
Proof.
  intros H. unfold py_index.
  assert (Hlt : (i < length l)%nat) by (apply nth_error_Some; congruence).
  replace (Z.of_nat i <? 0) with false by (symmetry; apply Z.ltb_ge; lia).
  replace (Z.of_nat i <? 0) with false by (symmetry; apply Z.ltb_ge; lia).
  replace (Z.of_nat (length l) <=? Z.of_nat i) with false
    by (symmetry; apply Z.leb_gt; lia).
  simpl. rewrite Nat2Z.id, H. reflexivity.
Qed.

(** [l[-1]] of a one-element list is its element. *)
Lemma py_index_minus_one_singleton {A : Type} (a : A) :
  py_index [a] (0 - 1) = Ok a.
Proof. reflexivity. Qed.

Lemma has_winner_iff (r : Round.t) :
  _has_winner_and_not_winner r = true <-> terminal_win r.
Proof.
  unfold _has_winner_and_not_winner, terminal_win, regulation_win, overtime_win.
  cbv zeta.
  replace (Round.endCTScore r - 15 - 1) with (Round.endCTScore r - 16) by lia.
  replace (Round.endTScore r - 15 - 1) with (Round.endTScore r - 16) by lia.
  rewrite !orb_true_iff, !andb_true_iff, !Z.eqb_eq, !Z.ltb_lt.
  rewrite !(Z.mod_divide _ 3) by lia.
  intuition lia.
Qed.

Lemma bad_scoring_step_keeps (rs : list Round.t) (i : nat) (r : Round.t)
    (acc : list Round.t) :
  nth_error rs i = Some r ->
  bad_scoring_step rs (Z.of_nat i, r) acc
  = Ok (if bad_scoring_keeps rs i then acc ++ [r] else acc).
Proof.
  intros Hi. unfold bad_scoring_step, bad_scoring_keeps. rewrite Hi.
  assert (Hlt : (i < length rs)%nat) by (apply nth_error_Some; congruence).
  destruct (Nat.ltb_spec (S i) (length rs)) as [Hnext | Hlast].
  - replace (Z.of_nat i <? Z.of_nat (length rs) - 1) with true
      by (symmetry; apply Z.ltb_lt; lia).
    destruct (nth_error rs (S i)) as [next |] eqn:Hn.
    + replace (Z.of_nat i + 1) with (Z.of_nat (S i)) by lia.
      rewrite (py_index_nat _ _ _ Hn). simpl.
      destruct ((round_total r <? round_total next)
                || _has_winner_and_not_winner r); reflexivity.
    + apply nth_error_None in Hn. lia.
  - replace (Z.of_nat i <? Z.of_nat (length rs) - 1) with false
      by (symmetry; apply Z.ltb_ge; lia).
    destruct i as [| i'].
    + destruct rs as [| r0 [| r1 rs']]; simpl in *; try lia.
      injection Hi as ->. simpl.
      destruct (round_total r <? round_total r); reflexivity.
    + replace (Z.of_nat (S i') - 1) with (Z.of_nat i') by lia.
      replace (S i' - 1)%nat with i' by lia.
      destruct (nth_error rs i') as [prev |] eqn:Hp.
      * rewrite (py_index_nat _ _ _ Hp). simpl.
        destruct (round_total prev <? round_total r); reflexivity.
      * apply nth_error_None in Hp. lia.
Qed.

Lemma bad_scoring_loop (rs suffix : list Round.t) (k : nat) (acc : list Round.t) :
  (forall j, nth_error suffix j = nth_error rs (k + j)) ->
  for_each (bad_scoring_step rs)
           (combine (map Z.of_nat (seq k (length suffix))) suffix) acc
  = Ok (acc ++ select_from (bad_scoring_keeps rs) k suffix).
Proof.
  revert k acc. induction suffix as [| r suffix IH]; intros k acc Hsuf.
  - simpl. rewrite app_nil_r. reflexivity.
  - cbn [length seq map combine for_each select_from].
    rewrite (bad_scoring_step_keeps rs k r acc).
    + cbn [bind]. rewrite IH.
      * destruct (bad_scoring_keeps rs k).
        -- rewrite <- app_assoc. reflexivity.
        -- reflexivity.
      * intros j. specialize (Hsuf (S j)). simpl in Hsuf.
        rewrite Hsuf. f_equal. lia.
    + specialize (Hsuf 0%nat). simpl in Hsuf. rewrite Nat.add_0_r in Hsuf.
      symmetry. exact Hsuf.
Qed.

Lemma remove_bad_scoring_select (p : DemoParser) (g : Game.t) (rs : list Round.t) :
  json p = Some g ->
  Game.gameRounds g = Some rs ->
  remove_bad_scoring p = Ok (store_rounds p g (select (bad_scoring_keeps rs) rs)).
Proof.
  intros Hj Hr. unfold remove_bad_scoring, with_json. rewrite Hj, Hr.
  unfold enumerate. rewrite (bad_scoring_loop rs rs 0 []).
  - reflexivity.
  - intros j. reflexivity.
Qed.

Lemma round_total_spec (r : Round.t) : round_total r = spec_total r.
Proof. unfold round_total, spec_total. lia. Qed.

Lemma bad_scoring_keeps_iff (rs : list Round.t) (i : nat) :
  (2 <= length rs)%nat -> (i < length rs)%nat ->
  bad_scoring_keeps rs i = true <-> score_retained rs i.
Proof.
  intros Hlen Hi. unfold bad_scoring_keeps, score_retained.
  destruct (nth_error rs i) as [r |] eqn:Hr.
  2:{ apply nth_error_None in Hr. lia. }
  destruct (Nat.ltb_spec (S i) (length rs)) as [Hnext | Hlast].
  - destruct (nth_error rs (S i)) as [next |] eqn:Hn.
    2:{ apply nth_error_None in Hn. lia. }
    rewrite orb_true_iff, Z.ltb_lt, has_winner_iff, !round_total_spec.
    split.
    + intros H. exists r. split; [reflexivity |]. left. split; [exact Hnext |].
      exists next. split; [reflexivity |]. destruct H; [left; lia | right; assumption].
    + intros (r' & Hr' & [[_ (next' & Hn' & H)] | [Hl _]]); [| lia].
      injection Hr' as <-. injection Hn' as <-.
      destruct H; [left; lia | right; assumption].
  - destruct (nth_error rs (i - 1)) as [prev |] eqn:Hp.
    2:{ apply nth_error_None in Hp. lia. }
    rewrite Z.ltb_lt, !round_total_spec. split.
    + intros H. exists r. split; [reflexivity |]. right. split; [lia |].
      exists prev. split; [reflexivity | lia].
    + intros (r' & Hr' & [[Hl _] | [_ (prev' & Hp' & H)]]); [lia |].
      injection Hr' as <-. injection Hp' as <-. lia.
Qed.

Lemma select_from_In {A : Type} (keep : nat -> bool) (k : nat) (l : list A)
    (x : A) :
  In x (select_from keep k l)
  <-> exists j, nth_error l j = Some x /\ keep (k + j)%nat = true.
Proof.
  revert k. induction l as [| a l IH]; intros k; cbn [select_from].
  - split; [intros [] |]. intros ([| j] & H & _); discriminate H.
  - assert (Hrest : In x (select_from keep (S k) l)
                    <-> exists j, nth_error l j = Some x
                                  /\ keep (k + S j)%nat = true).
    { rewrite IH. split; intros (j & Hj & Hk); exists j; split; try exact Hj;
        [replace (k + S j)%nat with (S k + j)%nat by lia
        | replace (S k + j)%nat with (k + S j)%nat by lia]; exact Hk. }
    destruct (keep k) eqn:Ek.
    + cbn [In]. rewrite Hrest. split.
      * intros [-> | (j & Hj & Hk)].
        -- exists 0%nat. rewrite Nat.add_0_r. split; [reflexivity | exact Ek].
        -- exists (S j). split; [exact Hj | exact Hk].
      * intros ([| j] & Hj & Hk).
        -- left. cbn in Hj. congruence.
        -- right. exists j. split; [exact Hj | exact Hk].
    + rewrite Hrest. split.
      * intros (j & Hj & Hk). exists (S j). split; [exact Hj | exact Hk].
      * intros ([| j] & Hj & Hk).
        -- rewrite Nat.add_0_r in Hk. congruence.
        -- exists j. split; [exact Hj | exact Hk].
Qed.

(** C5.  On a match of at least two rounds [remove_bad_scoring] completes and
    leaves a record whose round list holds, in their order, exactly the rounds
    whose index passes the rule of the specification: before the last round,
    the next total is strictly larger or the round is a terminal win (16
    against less than 15, or an overtime score with [score - 16] divisible by
    3, above 15 and at least two ahead); for the last round, its total is
    strictly larger than the one of the round before.  The map name, the match
    phases and [parse_frames] are as before. *)
Theorem remove_bad_scoring_retains_iff (p : DemoParser) (g : Game.t)
    (rs : list Round.t) :
  json p = Some g ->
  Game.gameRounds g = Some rs ->
  (2 <= length rs)%nat ->
  exists (p' : DemoParser) (g' : Game.t) (keep : nat -> bool),
    remove_bad_scoring p = Ok p'
    /\ p' = store_rounds p g (select keep rs)
    /\ json p' = Some g'
    /\ Game.gameRounds g' = Some (select keep rs)
    /\ Game.mapName g' = Game.mapName g
    /\ Game.matchPhases g' = Game.matchPhases g
    /\ parse_frames p' = parse_frames p
    /\ (forall i, (i < length rs)%nat -> (keep i = true <-> score_retained rs i))
    /\ (forall r, In r (select keep rs)
                  <-> exists i, nth_error rs i = Some r /\ score_retained rs i).
Proof.
  intros Hj Hr Hlen.
  exists (store_rounds p g (select (bad_scoring_keeps rs) rs)),
         (Game.set_gameRounds (Some (select (bad_scoring_keeps rs) rs)) g),
         (bad_scoring_keeps rs).
  split; [apply remove_bad_scoring_select; assumption |].
  do 6 (split; [reflexivity |]).
  split; [intros i Hi; apply bad_scoring_keeps_iff; assumption |].
  intros r. unfold select. rewrite select_from_In. split.
  - intros (i & Hi & Hk). exists i. split; [exact Hi |].
    assert (Hlt : (i < length rs)%nat)
      by (apply nth_error_Some; rewrite Hi; discriminate).
    apply (proj1 (bad_scoring_keeps_iff rs i Hlen Hlt)). exact Hk.
  - intros (i & Hi & Hk). exists i. split; [exact Hi |].
    assert (Hlt : (i < length rs)%nat)
      by (apply nth_error_Some; rewrite Hi; discriminate).
    apply (proj2 (bad_scoring_keeps_iff rs i Hlen Hlt)). exact Hk.
Qed.

(** The rule on a match of four rounds with the totals 1, 3, 1 and 3: the
    second round, followed by a smaller total and no terminal win, is
    dropped, and the stored list holds the other three. *)
Lemma remove_bad_scoring_retains_iff_witness :
  let r1 := sample_round 0 0 1 0 None (Some []) in
  let r2 := sample_round 1 0 2 0 None (Some []) in
  let r3 := sample_round 0 0 0 1 None (Some []) in
  let r4 := sample_round 0 1 1 1 None (Some []) in
  let rs := [r1; r2; r3; r4] in
  let p := sample_parser "de_dust2" [] rs in
  (exists (p' : DemoParser) (g' : Game.t) (keep : nat -> bool),
      remove_bad_scoring p = Ok p'
      /\ p' = store_rounds p (Game.mk "de_dust2" [] (Some rs)) (select keep rs)
      /\ json p' = Some g'
      /\ Game.gameRounds g' = Some (select keep rs)
      /\ Game.mapName g' = "de_dust2"%string
      /\ Game.matchPhases g' = []
      /\ parse_frames p' = true
      /\ (forall i, (i < 4)%nat -> (keep i = true <-> score_retained rs i))
      /\ (forall r, In r (select keep rs)
                    <-> exists i, nth_error rs i = Some r /\ score_retained rs i))
  /\ remove_bad_scoring p = Ok (sample_parser "de_dust2" [] [r1; r3; r4])
  /\ rounds_of_result (remove_bad_scoring p) = Some [r1; r3; r4].
Proof.
  cbv zeta. split; [| split; reflexivity].
  apply (remove_bad_scoring_retains_iff
           (sample_parser "de_dust2" []
              [sample_round 0 0 1 0 None (Some []);
               sample_round 1 0 2 0 None (Some []);
               sample_round 0 0 0 1 None (Some []);
               sample_round 0 1 1 1 None (Some [])])
           (Game.mk "de_dust2" []
              (Some [sample_round 0 0 1 0 None (Some []);
                     sample_round 1 0 2 0 None (Some []);
                     sample_round 0 0 0 1 None (Some []);
                     sample_round 0 1 1 1 None (Some [])]))).
  - reflexivity.
  - reflexivity.
  - simpl. lia.
Defined.

(** C10.  A record with exactly one round: the round takes the last-round
    branch, [gameRounds[0 - 1]] is the round itself, its total is not strictly
    larger than itself, and [remove_bad_scoring] leaves an empty round list. *)
Theorem remove_bad_scoring_single_round (p : DemoParser) (g : Game.t)
    (r : Round.t) :
  json p = Some g ->
  Game.gameRounds g = Some [r] ->
  (0 <? Z.of_nat (length [r]) - 1) = false
  /\ py_index [r] (0 - 1) = Ok r
  /\ (round_total r <? round_total r) = false
  /\ remove_bad_scoring p = Ok (store_rounds p g []).
Proof.
  intros Hj Hr. repeat split.
  - apply Z.ltb_irrefl.
  - rewrite (remove_bad_scoring_select p g [r] Hj Hr).
    unfold select, select_from, bad_scoring_keeps. simpl.
    rewrite Z.ltb_irrefl. reflexivity.
Qed.

(** A single round that ends 16-10. *)
Lemma remove_bad_scoring_single_round_witness :
  let r := sample_round 15 10 16 10 None (Some []) in
  (0 <? Z.of_nat (length [r]) - 1) = false
  /\ py_index [r] (0 - 1) = Ok r
  /\ (round_total r <? round_total r) = false
  /\ remove_bad_scoring (sample_parser "de_dust2" [] [r])
     = Ok (sample_parser "de_dust2" [] []).
Proof.
  cbv zeta.
  apply (remove_bad_scoring_single_round
           (sample_parser "de_dust2" [] [sample_round 15 10 16 10 None (Some [])])
           (Game.mk "de_dust2" [] (Some [sample_round 15 10 16 10 None (Some [])]))).
  - reflexivity.
  - reflexivity.
Defined.

(** ** Knife-round filter *)

Lemma count_knife_from (ks : list Kill.t) (acc : Z) :
  fold_left (fun acc k => if String.eqb (Kill.weapon k) "Knife" then acc + 1 else acc)
            ks acc
  = acc + len (filter is_knife_kill ks).
Proof.
  revert acc. induction ks as [| k ks IH]; intros acc.
  - unfold len. simpl. lia.
  - simpl. rewrite IH. unfold is_knife_kill.
    destruct (String.eqb (Kill.weapon k) "Knife"); unfold len; simpl length; lia.
Qed.

Lemma count_knife_filter (ks : list Kill.t) :
  count_knife ks = len (filter is_knife_kill ks).
Proof. unfold count_knife. rewrite count_knife_from. lia. Qed.

Lemma filter_length_all {A : Type} (f : A -> bool) (l : list A) :
  length (filter f l) = length l <-> Forall (fun a => f a = true) l.
Proof.
  induction l as [| a l IH]; simpl.
  - split; intros; [constructor | reflexivity].
  - destruct (f a) eqn:Ha; simpl.
    + split.
      * intros H. constructor; [exact Ha | apply IH; lia].
      * intros H. inversion H; subst. f_equal. apply IH. assumption.
    + split.
      * intros H. pose proof (filter_length_le f l). lia.
      * intros H. inversion H; subst. congruence.
Qed.

Lemma knife_round_kept_false_iff (r : Round.t) :
  knife_round_kept r = false <-> knife_dropped r.
Proof.
  unfold knife_round_kept, knife_dropped.
  destruct (Round.isWarmup r).
  { split; intros; [left; reflexivity | reflexivity]. }
  destruct (Round.kills r) as [ks |].
  2:{ split; intros; [right; left; reflexivity | reflexivity]. }
  rewrite count_knife_filter. unfold len.
  rewrite orb_false_iff, negb_false_iff, !Z.eqb_eq, Z.eqb_neq.
  split.
  - intros [Hall Hne]. right. right. exists ks. split; [reflexivity |].
    apply Nat2Z.inj in Hall. split.
    + intros ->. simpl in Hne. lia.
    + apply filter_length_all in Hall.
      eapply Forall_impl; [| exact Hall].
      intros k Hk. apply String.eqb_eq. exact Hk.
  - intros [H | [H | (ks' & Hks & Hne & Hall)]]; try discriminate.
    injection Hks as <-.
    assert (Hlen : length (filter is_knife_kill ks) = length ks).
    { apply filter_length_all. eapply Forall_impl; [| exact Hall].
      intros k Hk. apply String.eqb_eq. exact Hk. }
    rewrite Hlen. split; [reflexivity |].
    destruct ks; [congruence | simpl; lia].
Qed.

(** C6 (as stated, refuted).  A live round whose kill list is absent and a
    warmup round with a single rifle kill: the claim keeps both (neither has
    a knife kill), [remove_knife_rounds] drops both. *)
Lemma remove_knife_rounds_drops_rounds_without_knife_kill :
  let no_kill_list := sample_round 0 0 1 0 None None in
  let rifle := Kill.mk 1 "T" 2 "CT" "AK-47" in
  let warmup :=
    Round.mk 1 true 0 10 100 110 0 0 0 0 "TargetBombed"
      (Team.mk "Team A" []) (Team.mk "Team B" []) None (Some [rifle])
      (Some []) (Some []) (Some []) (Some []) in
  rounds_of_result
    (remove_knife_rounds (sample_parser "de_dust2" [] [no_kill_list; warmup]))
  = Some []
  /\ or_empty (Round.kills no_kill_list) = []
  /\ forallb is_knife_kill (or_empty (Round.kills warmup)) = false.
Proof.
  cbv zeta. repeat split.
Qed.

(** C6 (amended).  [remove_knife_rounds] keeps the rounds that pass a test
    which fails exactly on the warmup rounds, on the rounds whose kill list
    is absent, and on the rounds with at least one kill all of whose kills
    used the knife; so a live round with a present, empty kill list is
    kept. *)
Theorem remove_knife_rounds_drops_iff (p : DemoParser) (g : Game.t)
    (rs : list Round.t) :
  json p = Some g ->
  Game.gameRounds g = Some rs ->
  exists keep : Round.t -> bool,
    remove_knife_rounds p = Ok (store_rounds p g (filter keep rs))
    /\ (forall r, keep r = false <-> knife_dropped r)
    /\ (forall r, Round.isWarmup r = false -> Round.kills r = Some [] ->
                  keep r = true).
Proof.
  intros Hj Hr. exists knife_round_kept. split; [| split].
  - unfold remove_knife_rounds, with_json. rewrite Hj, Hr. reflexivity.
  - apply knife_round_kept_false_iff.
  - intros r Hw Hk. unfold knife_round_kept. rewrite Hw, Hk. reflexivity.
Qed.

(** A round with two knife kills and a round with a knife and a rifle kill. *)
Lemma remove_knife_rounds_drops_iff_witness :
  let knife := Kill.mk 1 "T" 2 "CT" "Knife" in
  let rifle := Kill.mk 1 "T" 2 "CT" "AK-47" in
  let rs := [sample_round 0 0 1 0 None (Some [knife; knife]);
             sample_round 0 0 1 0 None (Some [knife; rifle])] in
  exists keep : Round.t -> bool,
    remove_knife_rounds (sample_parser "de_dust2" [] rs)
    = Ok (sample_parser "de_dust2" [] (filter keep rs))
    /\ (forall r, keep r = false <-> knife_dropped r)
    /\ (forall r, Round.isWarmup r = false -> Round.kills r = Some [] ->
                  keep r = true).
Proof.
  cbv zeta.
  apply (remove_knife_rounds_drops_iff
           (sample_parser "de_dust2" []
              [sample_round 0 0 1 0 None
                 (Some [Kill.mk 1 "T" 2 "CT" "Knife"; Kill.mk 1 "T" 2 "CT" "Knife"]);
               sample_round 0 0 1 0 None
                 (Some [Kill.mk 1 "T" 2 "CT" "Knife"; Kill.mk 1 "T" 2 "CT" "AK-47"])])
           (Game.mk "de_dust2" []
              (Some [sample_round 0 0 1 0 None
                 (Some [Kill.mk 1 "T" 2 "CT" "Knife"; Kill.mk 1 "T" 2 "CT" "Knife"]);
               sample_round 0 0 1 0 None
                 (Some [Kill.mk 1 "T" 2 "CT" "Knife"; Kill.mk 1 "T" 2 "CT" "AK-47"])]))).
  - reflexivity.
  - reflexivity.
Defined.

(** ** Earliest death *)

(** Whatever the frames, the scan returns at the first dead player it meets,
    frames in order and players in list order inside a frame: the comparison
    of steamIDs is never reached. *)
Lemma scan_players_first_dead (players : list Player.t) :
  scan_players None players
  = match find (fun player => negb (Player.isAlive player)) players with
    | Some player => Return (Some (Player.steamID player))
    | None => Continue None
    end.
Proof.
  induction players as [| player rest IH]; simpl.
  - reflexivity.
  - destruct (Player.isAlive player); simpl; [exact IH | reflexivity].
Qed.

Lemma scan_frames_first_dead (side : side_key) (frames : list Frame.t) :
  scan_frames side None frames
  = option_map Player.steamID
      (find (fun player => negb (Player.isAlive player))
            (flat_map (frame_players side) frames)).
Proof.
  induction frames as [| frame rest IH]; simpl.
  - reflexivity.
  - rewrite scan_players_first_dead.
    induction (frame_players side frame) as [| player players IHp]; simpl.
    + exact IH.
    + destruct (Player.isAlive player); simpl; [exact IHp | reflexivity].
Qed.

Lemma findFirstDeadPlayer_first_dead (r : Round.t) (side : side_key)
    (frames : list Frame.t) :
  Round.frames r = Some frames ->
  findFirstDeadPlayer r side
  = Ok (option_map Player.steamID
          (find (fun player => negb (Player.isAlive player))
                (flat_map (frame_players side) frames))).
Proof.
  intros H. unfold findFirstDeadPlayer. rewrite H. cbn [iter_list bind].
  rewrite scan_frames_first_dead. reflexivity.
Qed.

(** C7 (the code departs from the claim).  One frame whose T list holds two
    dead players, steamID 5 listed before steamID 3: the claim selects the
    lowest steamID of the frame, 3; [findFirstDeadPlayer] returns 5, the first
    one listed. *)
Theorem findFirstDeadPlayer_returns_first_listed :
  let frame :=
    sample_frame [sample_player 5 "T" 10 20 0 false;
                  sample_player 3 "T" 30 40 0 false] [] in
  findFirstDeadPlayer (sample_round 0 0 1 0 (Some [frame]) (Some [])) key_t
  = Ok (Some 5).
Proof. reflexivity. Qed.

(** ** Renumbering *)

Lemma count_from_seq (k n : nat) :
  count_from (Z.of_nat k) n = map Z.of_nat (seq k n).
Proof.
  revert k. induction n as [| n IH]; intros k; simpl.
  - reflexivity.
  - f_equal. rewrite <- IH. f_equal. lia.
Qed.

Lemma count_from_app (k : Z) (n m : nat) :
  count_from k (n + m) = count_from k n ++ count_from (k + Z.of_nat n) m.
Proof.
  revert k. induction n as [| n IH]; intros k.
  - simpl. f_equal. lia.
  - cbn [Nat.add count_from app]. f_equal. rewrite IH. do 2 f_equal. lia.
Qed.

Lemma renumber_round_list_from (k : nat) (rs : list Round.t) :
  map Round.roundNum
    (map (fun ir => Round.set_roundNum (fst ir + 1) (snd ir))
         (combine (map Z.of_nat (seq k (length rs))) rs))
  = map Z.of_nat (seq (S k) (length rs)).
Proof.
  revert k. induction rs as [| r rs IH]; intros k; simpl.
  - reflexivity.
  - f_equal; [lia | apply IH].
Qed.

Lemma renumber_round_list_roundNum (rs : list Round.t) :
  map Round.roundNum (renumber_round_list rs) = map Z.of_nat (seq 1 (length rs)).
Proof. apply renumber_round_list_from. Qed.

Lemma renumber_round_list_length (rs : list Round.t) :
  length (renumber_round_list rs) = length rs.
Proof.
  unfold renumber_round_list, enumerate.
  rewrite length_map, length_combine, length_map, length_seq. lia.
Qed.

Lemma renumber_round_list_unnumbered (rs : list Round.t) :
  map unnumbered (renumber_round_list rs) = map unnumbered rs.
Proof.
  unfold renumber_round_list, enumerate. generalize 0%nat.
  induction rs as [| r rs IH]; intros k; simpl.
  - reflexivity.
  - f_equal. apply IH.
Qed.

Lemma renumber_frame_list_spec (index : Z) (fs : list Frame.t) :
  map Frame.globalFrameID (fst (renumber_frame_list index fs))
  = count_from index (length fs)
  /\ snd (renumber_frame_list index fs) = index + len fs
  /\ map unnumbered_frame (fst (renumber_frame_list index fs))
     = map unnumbered_frame fs.
Proof.
  revert index. induction fs as [| f fs IH]; intros index.
  - unfold len. simpl. repeat split. lia.
  - simpl. destruct (IH (index + 1)) as (Hids & Hnext & Hrest).
    destruct (renumber_frame_list (index + 1) fs) as [fs' index'].
    simpl in *. repeat split.
    + f_equal. exact Hids.
    + unfold len in *. simpl length. lia.
    + f_equal. exact Hrest.
Qed.

Lemma renumber_frames_from_spec (index : Z) (rs : list Round.t) :
  map Frame.globalFrameID (all_frames (renumber_frames_from index rs))
  = count_from index (length (all_frames rs))
  /\ map Round.roundNum (renumber_frames_from index rs) = map Round.roundNum rs
  /\ map unnumbered (renumber_frames_from index rs) = map unnumbered rs.
Proof.
  revert index. induction rs as [| r rs IH]; intros index.
  - repeat split.
  - simpl. destruct (Round.frames r) as [fs |] eqn:Hfs.
    + destruct (renumber_frame_list_spec index fs) as (Hids & Hnext & Hrest).
      destruct (renumber_frame_list index fs) as [fs' index'].
      simpl in Hids, Hnext, Hrest. subst index'.
      destruct (IH (index + len fs)) as (IHids & IHnum & IHrest).
      simpl. repeat split.
      * rewrite map_app, Hids, IHids, length_app, count_from_app. reflexivity.
      * f_equal. exact IHnum.
      * f_equal; [| exact IHrest].
        unfold unnumbered. simpl. rewrite Hfs. simpl. rewrite Hrest. reflexivity.
    + destruct (IH index) as (IHids & IHnum & IHrest).
      simpl. rewrite Hfs. simpl. repeat split.
      * exact IHids.
      * f_equal. exact IHnum.
      * f_equal. exact IHrest.
Qed.

Lemma all_frames_unnumbered (rs rs' : list Round.t) :
  map unnumbered rs' = map unnumbered rs ->
  length (all_frames rs') = length (all_frames rs).
Proof.
  revert rs'. induction rs as [| r rs IH]; intros [| r' rs'] H; cbn [map] in H;
    try discriminate; [reflexivity |].
  assert (Hr : unnumbered r' = unnumbered r) by congruence.
  assert (Hrs : map unnumbered rs' = map unnumbered rs) by congruence.
  clear H. simpl. rewrite !length_app, (IH rs' Hrs).
  f_equal. unfold unnumbered in Hr.
  apply (f_equal Round.frames) in Hr. simpl in Hr.
  destruct (Round.frames r') as [fs' |], (Round.frames r) as [fs |];
    simpl in *; try discriminate; [| reflexivity].
  injection Hr as Hr. apply (f_equal (@length _)) in Hr.
  rewrite !length_map in Hr. exact Hr.
Qed.

Lemma same_header_refl (p : DemoParser) : same_header p p.
Proof. repeat split. Qed.

Lemma same_header_trans (p q r : DemoParser) :
  same_header p q -> same_header q r -> same_header p r.
Proof.
  intros (H1 & H2 & H3) (H4 & H5 & H6). repeat split; congruence.
Qed.

Lemma same_header_store (p : DemoParser) (g : Game.t) (rs : list Round.t) :
  json p = Some g -> same_header p (store_rounds p g rs).
Proof. intros H. unfold same_header. rewrite H. repeat split. Qed.

Lemma has_rounds_store (p : DemoParser) (g : Game.t) (rs : list Round.t) :
  has_rounds (store_rounds p g rs).
Proof. eexists. eexists. split; reflexivity. Qed.

Ltac stage_shape_tac :=
  let p := fresh "p" in
  let p' := fresh "p'" in
  let H := fresh "H" in
  let g := fresh "g" in
  let Hj := fresh "Hj" in
  intros p p' H; unfold with_json in H;
  destruct (json p) as [g |] eqn:Hj; [| discriminate];
  repeat match type of H with
         | (if ?c then _ else _) = Ok _ => destruct c
         | match ?c with Some _ => _ | None => _ end = Ok _ => destruct c
         | bind ?c _ = Ok _ => destruct c; cbn [bind] in H
         | Raise _ = Ok _ => discriminate H
         | Ok _ = Ok _ => injection H as <-
         end;
  first [left; reflexivity
        | right; eexists; eexists; split; reflexivity].

Lemma shape_no_frames : stage_shape remove_rounds_with_no_frames.
Proof. unfold remove_rounds_with_no_frames. stage_shape_tac. Qed.

Lemma shape_warmups : stage_shape remove_warmups.
Proof. unfold remove_warmups. stage_shape_tac. Qed.

Lemma shape_knife : stage_shape remove_knife_rounds.
Proof. unfold remove_knife_rounds. stage_shape_tac. Qed.

Lemma shape_time : stage_shape remove_time_rounds.
Proof. unfold remove_time_rounds. stage_shape_tac. Qed.

Lemma shape_excess_players : stage_shape remove_excess_players.
Proof. unfold remove_excess_players. stage_shape_tac. Qed.

Lemma shape_excess_kills : stage_shape remove_excess_kill_rounds.
Proof. unfold remove_excess_kill_rounds. stage_shape_tac. Qed.

Lemma shape_end_round : stage_shape (remove_end_round None).
Proof. unfold remove_end_round. stage_shape_tac. Qed.

Lemma shape_bad_scoring : stage_shape remove_bad_scoring.
Proof. unfold remove_bad_scoring. stage_shape_tac. Qed.

Lemma shape_when (flag : bool) (stage : DemoParser -> result DemoParser) :
  stage_shape stage -> stage_shape (when flag stage).
Proof.
  intros Hs p p' H. unfold when in H. destruct flag.
  - apply Hs. exact H.
  - injection H as <-. left. reflexivity.
Qed.

Lemma stage_shape_keeps (stage : DemoParser -> result DemoParser)
    (p p' : DemoParser) :
  stage_shape stage -> stage p = Ok p' -> has_rounds p ->
  has_rounds p' /\ same_header p p'.
Proof.
  intros Hs H Hp. destruct (Hs p p' H) as [-> | (g & rs & Hj & ->)].
  - split; [exact Hp | apply same_header_refl].
  - split; [apply has_rounds_store | apply same_header_store; exact Hj].
Qed.

Lemma filter_stages_keeps (a : CleanArgs) (p p' : DemoParser) :
  filter_stages a p = Ok p' -> has_rounds p ->
  has_rounds p' /\ same_header p p'.
Proof.
  unfold filter_stages. intros H Hp.
  repeat match type of H with
         | bind (when ?f ?s ?q) _ = Ok _ =>
             let q' := fresh "q" in
             let Hq := fresh "Hq" in
             destruct (when f s q) as [q' |] eqn:Hq; cbn [bind] in H;
             [| discriminate H]
         end.
  pose proof (stage_shape_keeps _ _ _ (shape_when _ _ shape_no_frames) Hq Hp)
    as [R1 S1].
  pose proof (stage_shape_keeps _ _ _ (shape_when _ _ shape_warmups) Hq0 R1)
    as [R2 S2].
  pose proof (stage_shape_keeps _ _ _ (shape_when _ _ shape_knife) Hq1 R2)
    as [R3 S3].
  pose proof (stage_shape_keeps _ _ _ (shape_when _ _ shape_time) Hq2 R3)
    as [R4 S4].
  pose proof (stage_shape_keeps _ _ _ (shape_when _ _ shape_excess_players) Hq3 R4)
    as [R5 S5].
  pose proof (stage_shape_keeps _ _ _ (shape_when _ _ shape_excess_kills) Hq4 R5)
    as [R6 S6].
  pose proof (stage_shape_keeps _ _ _ (shape_when _ _ shape_end_round) Hq5 R6)
    as [R7 S7].
  pose proof (stage_shape_keeps _ _ _ (shape_when _ _ shape_bad_scoring) H R7)
    as [R8 S8].
  split; [exact R8 |].
  repeat (eapply same_header_trans; [eassumption |]). apply same_header_refl.
Qed.

(** C8.  When [clean_rounds] completes on a loaded record with a round list,
    whatever the stages enabled: the rounds [rs'] of the result carry the
    round numbers 1..N in list order, their frames (rounds in order, frames in
    order) carry the identifiers 0..M-1, and [rs'] differs from the rounds
    [rs1] that left the filter stages in these two numberings only. *)
Theorem clean_rounds_contiguous (a : CleanArgs) (p p' : DemoParser) :
  has_rounds p ->
  clean_rounds a p = Ok p' ->
  exists p1 g1 rs1 g' rs',
    filter_stages a p = Ok p1
    /\ json p1 = Some g1 /\ Game.gameRounds g1 = Some rs1
    /\ json p' = Some g' /\ Game.gameRounds g' = Some rs'
    /\ map Round.roundNum rs' = map Z.of_nat (seq 1 (length rs'))
    /\ map Frame.globalFrameID (all_frames rs')
       = map Z.of_nat (seq 0 (length (all_frames rs')))
    /\ map unnumbered rs' = map unnumbered rs1
    /\ same_header p1 p'.
Proof.
  intros Hp H. unfold clean_rounds, with_json in H.
  destruct Hp as (g & rs & Hj & Hr). rewrite Hj in H.
  destruct (filter_stages a p) as [p1 |] eqn:Hstages;
    cbn [bind] in H; [| discriminate H].
  destruct (filter_stages_keeps a p p1 Hstages) as [(g1 & rs1 & Hj1 & Hr1) _].
  { exists g, rs. split; assumption. }
  unfold renumber_rounds, with_json in H. rewrite Hj1, Hr1 in H.
  cbn [bind] in H. unfold renumber_frames, with_json in H.
  cbn [json store_rounds Game.gameRounds Game.set_gameRounds] in H.
  injection H as <-.
  destruct (renumber_frames_from_spec 0 (renumber_round_list rs1))
    as (Hids & Hnum & Hrest).
  exists p1, g1, rs1. eexists. eexists.
  split; [reflexivity |]. split; [exact Hj1 |]. split; [exact Hr1 |].
  split; [reflexivity |]. split; [reflexivity |].
  assert (Hsame : map unnumbered (renumber_frames_from 0 (renumber_round_list rs1))
                  = map unnumbered rs1).
  { rewrite Hrest. apply renumber_round_list_unnumbered. }
  repeat split.
  - rewrite Hnum, renumber_round_list_roundNum.
    apply (f_equal (@length _)) in Hsame. rewrite !length_map in Hsame.
    rewrite Hsame. reflexivity.
  - rewrite Hids.
    rewrite <- (all_frames_unnumbered _ _ Hrest).
    apply (count_from_seq 0).
  - exact Hsame.
  - cbn. rewrite Hj1. reflexivity.
  - cbn. rewrite Hj1. reflexivity.
Qed.

(** ** Removal of a player from a round *)

Lemma player_eqb_eq (p q : Player.t) : Player.eqb p q = true <-> p = q.
Proof.
  unfold Player.eqb. destruct p, q; simpl.
  rewrite !andb_true_iff, !Z.eqb_eq, !String.eqb_eq, Bool.eqb_true_iff.
  split.
  - intros [[[[[[-> ->] ->] ->] ->] ->] ->]. reflexivity.
  - intros H. injection H as -> -> -> -> -> -> ->. repeat split.
Qed.

Lemma player_eqb_refl (p : Player.t) : Player.eqb p p = true.
Proof. apply player_eqb_eq. reflexivity. Qed.

Lemma without_absent (sid : Z) (l : list Player.t) :
  ~ In sid (ids l) -> without sid l = l.
Proof.
  induction l as [| q l IH]; simpl; intros H.
  - reflexivity.
  - destruct (Z.eqb_spec (Player.steamID q) sid) as [E | E]; simpl.
    + exfalso. apply H. left. exact E.
    + f_equal. apply IH. intros Hin. apply H. right. exact Hin.
Qed.

Lemma without_not_in (sid : Z) (l : list Player.t) : ~ In sid (ids (without sid l)).
Proof.
  unfold ids, without. rewrite in_map_iff. intros (q & Hq & Hin).
  apply filter_In in Hin. destruct Hin as [_ Hne].
  rewrite <- Hq, Z.eqb_refl in Hne. discriminate.
Qed.

Lemma without_ids_incl (sid x : Z) (l : list Player.t) :
  In x (ids (without sid l)) -> In x (ids l).
Proof.
  unfold ids, without. rewrite !in_map_iff. intros (q & Hq & Hin).
  apply filter_In in Hin. exists q. tauto.
Qed.

Lemma without_unique (sid : Z) (l : list Player.t) :
  unique_ids l -> unique_ids (without sid l).
Proof.
  unfold unique_ids. induction l as [| q l IH]; simpl; intros H.
  - constructor.
  - inversion H as [| ? ? Hq Hl]; subst.
    destruct (Player.steamID q =? sid); simpl.
    + apply IH. exact Hl.
    + constructor; [| apply IH; exact Hl].
      intros Hin. apply Hq. eapply without_ids_incl. exact Hin.
Qed.

Lemma remove_loop_absent (steps : nat) (sid : Z) (i : nat) (l : list Player.t) :
  ~ In sid (ids l) -> remove_loop steps sid i l = l.
Proof.
  revert i. induction steps as [| steps IH]; intros i H; simpl.
  - reflexivity.
  - destruct (nth_error l i) as [p |] eqn:Hp; [| reflexivity].
    destruct (Z.eqb_spec (Player.steamID p) sid) as [E | E].
    + exfalso. apply H. unfold ids. rewrite <- E.
      apply in_map. eapply nth_error_In. exact Hp.
    + apply IH. exact H.
Qed.

Lemma list_remove_unique (p : Player.t) (l : list Player.t) :
  unique_ids l -> In p l -> list_remove p l = without (Player.steamID p) l.
Proof.
  unfold unique_ids. induction l as [| q l IH]; simpl; intros Hu Hin.
  - contradiction.
  - inversion Hu as [| ? ? Hq Hl]; subst.
    destruct (Player.eqb q p) eqn:E.
    + apply player_eqb_eq in E. subst q. rewrite Z.eqb_refl. simpl.
      symmetry. apply without_absent. exact Hq.
    + destruct Hin as [-> | Hin]; [rewrite player_eqb_refl in E; discriminate |].
      destruct (Z.eqb_spec (Player.steamID q) (Player.steamID p)) as [E' | E'].
      * exfalso. apply Hq. rewrite E'. apply in_map. exact Hin.
      * simpl. f_equal. apply IH; assumption.
Qed.

Lemma remove_loop_unique (steps : nat) (sid : Z) (i : nat) (l : list Player.t) :
  unique_ids l ->
  (forall q, In q (firstn i l) -> Player.steamID q <> sid) ->
  (length l <= steps + i)%nat ->
  remove_loop steps sid i l = without sid l.
Proof.
  revert i. induction steps as [| steps IH]; intros i Hu Hpre Hlen.
  - simpl. symmetry. apply without_absent.
    rewrite firstn_all2 in Hpre by lia.
    unfold ids. rewrite in_map_iff. intros (q & Hq & Hin).
    exact (Hpre q Hin Hq).
  - simpl. destruct (nth_error l i) as [p |] eqn:Hp.
    + destruct (Z.eqb_spec (Player.steamID p) sid) as [E | E].
      * rewrite (list_remove_unique p l Hu (nth_error_In _ _ Hp)), E.
        apply remove_loop_absent. apply without_not_in.
      * apply IH; [exact Hu | | lia].
        intros q Hq.
        assert (Hi : (i < length l)%nat) by (apply nth_error_Some; congruence).
        rewrite <- (firstn_skipn i l) in Hp.
        rewrite nth_error_app2 in Hp by (rewrite length_firstn; lia).
        rewrite length_firstn in Hp.
        replace (i - Nat.min i (length l))%nat with 0%nat in Hp by lia.
        destruct (skipn i l) as [| p' rest] eqn:Hskip; [discriminate |].
        simpl in Hp. injection Hp as ->.
        assert (Hfirst : firstn (S i) l = firstn i l ++ [p]).
        { rewrite <- (firstn_skipn i l) at 1. rewrite Hskip.
          rewrite firstn_app, length_firstn.
          replace (S i - Nat.min i (length l))%nat with 1%nat by lia.
          rewrite firstn_firstn. replace (Nat.min (S i) i) with i by lia.
          reflexivity. }
        rewrite Hfirst in Hq. apply in_app_or in Hq.
        destruct Hq as [Hq | [<- | []]]; [apply Hpre; exact Hq | exact E].
    + symmetry. apply without_absent.
      apply nth_error_None in Hp. rewrite firstn_all2 in Hpre by lia.
      unfold ids. rewrite in_map_iff. intros (q & Hq & Hin).
      exact (Hpre q Hin Hq).
Qed.

(** With identifiers, the loop over a list that it mutates removes the
    player: it is then the filter one expects. *)
Lemma remove_from_players_unique (sid : Z) (l : list Player.t) :
  unique_ids l -> remove_from_players sid l = without sid l.
Proof.
  intros Hu. unfold remove_from_players.
  apply remove_loop_unique; [exact Hu | intros q [] | lia].
Qed.

Lemma list_remove_length (p : Player.t) (l : list Player.t) :
  (length (list_remove p l) <= length l)%nat.
Proof.
  induction l as [| q l IH]; simpl; [lia |].
  destruct (Player.eqb q p); simpl; lia.
Qed.

(** The bound of [remove_from_players] is enough: once [steps + i] reaches
    the length of the list, a further step of the loop changes nothing. *)
Lemma remove_loop_steps (steps : nat) (sid : Z) (i : nat) (l : list Player.t) :
  (length l <= steps + i)%nat ->
  remove_loop (S steps) sid i l = remove_loop steps sid i l.
Proof.
  revert i l. induction steps as [| steps IH]; intros i l Hlen.
  - simpl. destruct (nth_error l i) as [p |] eqn:Hp; [| reflexivity].
    assert ((i < length l)%nat) by (apply nth_error_Some; congruence). lia.
  - change (remove_loop (S (S steps)) sid i l)
      with (match nth_error l i with
            | None => l
            | Some player =>
                remove_loop (S steps) sid (S i)
                  (if Player.steamID player =? sid
                   then list_remove player l else l)
            end).
    change (remove_loop (S steps) sid i l)
      with (match nth_error l i with
            | None => l
            | Some player =>
                remove_loop steps sid (S i)
                  (if Player.steamID player =? sid
                   then list_remove player l else l)
            end).
    destruct (nth_error l i) as [p |]; [| reflexivity].
    apply IH. destruct (Player.steamID p =? sid); [| lia].
    pose proof (list_remove_length p l). lia.
Qed.

(** Two entries with the same steamID next to each other: the iterator skips
    the second one after the removal of the first. *)
Example remove_from_players_skips_duplicate :
  remove_from_players 7
    [sample_player 7 "T" 0 0 0 true; sample_player 7 "T" 1 1 1 true;
     sample_player 8 "T" 2 2 2 true]
  = [sample_player 7 "T" 1 1 1 true; sample_player 8 "T" 2 2 2 true].
Proof. reflexivity. Qed.

Lemma remove_from_frame_unique (sid : Z) (f : Frame.t) :
  frame_unique f -> remove_from_frame sid f = purge_frame sid f.
Proof.
  intros [Ht Hct]. unfold remove_from_frame, purge_frame, remove_from_team, purge_team.
  simpl in Ht, Hct.
  rewrite (remove_from_players_unique sid _ Ht),
          (remove_from_players_unique sid _ Hct).
  reflexivity.
Qed.

Lemma purge_frame_unique (sid : Z) (f : Frame.t) :
  frame_unique f -> frame_unique (purge_frame sid f).
Proof.
  intros [Ht Hct]. split; simpl; apply without_unique; assumption.
Qed.

Lemma purge_unique (sid : Z) (r : Round.t) :
  round_unique r -> round_unique (purge sid r).
Proof.
  intros (Ht & Hct & Hfs). repeat split; simpl.
  - apply without_unique. exact Ht.
  - apply without_unique. exact Hct.
  - destruct (Round.frames r) as [fs |]; simpl in *; [| constructor].
    induction Hfs as [| f fs Hf Hfs IH]; simpl; constructor.
    + apply purge_frame_unique. exact Hf.
    + exact IH.
Qed.

Lemma map_remove_from_frame_unique (sid : Z) (fs : list Frame.t) :
  Forall frame_unique fs ->
  map (remove_from_frame sid) fs = map (purge_frame sid) fs.
Proof.
  intros Hall. induction Hall as [| f fs Hf Hfs IH]; simpl.
  - reflexivity.
  - f_equal; [apply remove_from_frame_unique; exact Hf | exact IH].
Qed.

Lemma remove_player_from_round_unique (r : Round.t) (sid : Z) :
  Round.frames r <> None -> round_unique r ->
  remove_player_from_round r sid = Ok (purge sid r).
Proof.
  intros Hfs (Ht & Hct & Hall).
  destruct r as [? ? ? ? ? ? ? ? ? ? ? ts cts fs ? ? ? ? ?].
  cbn [Round.frames Round.tSide Round.ctSide] in *.
  destruct fs as [fs |]; [| congruence].
  unfold remove_player_from_round, purge, remove_from_team, purge_team.
  cbn [Round.frames Round.tSide Round.ctSide Round.set_sides iter_list bind
       option_map or_empty] in *.
  rewrite (remove_from_players_unique sid _ Ht),
          (remove_from_players_unique sid _ Hct),
          (map_remove_from_frame_unique sid fs Hall).
  reflexivity.
Qed.

Lemma purge_frames_present (sid : Z) (r : Round.t) :
  Round.frames r <> None -> Round.frames (purge sid r) <> None.
Proof. simpl. destruct (Round.frames r); simpl; congruence. Qed.

Lemma remove_all_unique (toBeRemoved : list Player.t) (r : Round.t) :
  Round.frames r <> None -> round_unique r ->
  remove_all toBeRemoved r = Ok (purge_all toBeRemoved r).
Proof.
  revert r. induction toBeRemoved as [| player rest IH]; intros r Hfs Hu.
  - reflexivity.
  - unfold remove_all. cbn [for_each].
    rewrite (remove_player_from_round_unique r _ Hfs Hu). cbn [bind].
    apply IH; [apply purge_frames_present; exact Hfs | apply purge_unique; exact Hu].
Qed.

Lemma purge_absent (sid : Z) (r : Round.t) : absent_from_lists sid (purge sid r).
Proof.
  repeat split; simpl; try apply without_not_in.
  destruct (Round.frames r) as [fs |]; simpl; [| constructor].
  induction fs as [| f fs IH]; simpl; constructor.
  - split; simpl; apply without_not_in.
  - exact IH.
Qed.

Lemma purge_keeps_absent (sid sid' : Z) (r : Round.t) :
  absent_from_lists sid r -> absent_from_lists sid (purge sid' r).
Proof.
  intros (Ht & Hct & Hfs). repeat split; simpl.
  - intros H. apply Ht. eapply without_ids_incl. exact H.
  - intros H. apply Hct. eapply without_ids_incl. exact H.
  - destruct (Round.frames r) as [fs |]; simpl in *; [| constructor].
    induction Hfs as [| f fs [Hf1 Hf2] Hfs IH]; simpl; constructor.
    + split; simpl; intros H; [apply Hf1 | apply Hf2];
        eapply without_ids_incl; exact H.
    + exact IH.
Qed.

Lemma purge_all_keeps_absent (sid : Z) (l : list Player.t) (r : Round.t) :
  absent_from_lists sid r -> absent_from_lists sid (purge_all l r).
Proof.
  revert r. induction l as [| p l IH]; intros r H; simpl.
  - exact H.
  - apply IH. apply purge_keeps_absent. exact H.
Qed.

Lemma purge_all_absent (l : list Player.t) (r : Round.t) (player : Player.t) :
  In player l -> absent_from_lists (Player.steamID player) (purge_all l r).
Proof.
  revert r. induction l as [| p l IH]; intros r Hin; simpl.
  - contradiction.
  - destruct Hin as [-> | Hin].
    + apply purge_all_keeps_absent. apply purge_absent.
    + apply IH. exact Hin.
Qed.

Lemma purge_all_events (l : list Player.t) (r : Round.t) :
  same_events r (purge_all l r).
Proof.
  revert r. induction l as [| p l IH]; intros r; simpl.
  - repeat split.
  - destruct (IH (purge (Player.steamID p) r)) as (H1 & H2 & H3 & H4 & H5).
    repeat split; assumption.
Qed.

Lemma purge_all_frame_count (l : list Player.t) (r : Round.t) :
  length (or_empty (Round.frames (purge_all l r)))
  = length (or_empty (Round.frames r)).
Proof.
  revert r. induction l as [| p l IH]; intros r; simpl.
  - reflexivity.
  - rewrite IH. simpl. destruct (Round.frames r); simpl; [| reflexivity].
    apply length_map.
Qed.

Lemma remove_coaches_in_origin_unique (r : Round.t) (first : Frame.t)
    (later : list Frame.t) :
  Round.frames r = Some (first :: later) -> round_unique r ->
  remove_coaches_in_origin r = Ok (purge_all (coaches_in_origin first) r).
Proof.
  intros Hfs Hu. unfold remove_coaches_in_origin. rewrite Hfs. simpl.
  apply remove_all_unique; [congruence | exact Hu].
Qed.

(** C3 (as stated, refuted).  First round: a first frame with six T players,
    one of them (steamID 6) at the origin, and a kill by that player; after
    [remove_coaches_in_origin] the kill list still names steamID 6.  Second
    round: the same first frame and a second frame that lists steamID 6 twice
    in a row; the loop of [remove_player_from_round] steps over the second
    entry, which stays in the frame. *)
Lemma remove_coaches_in_origin_keeps_events :
  let ts := [sample_player 1 "T" 10 10 0 true; sample_player 2 "T" 20 10 0 true;
             sample_player 3 "T" 30 10 0 true; sample_player 4 "T" 40 10 0 true;
             sample_player 5 "T" 50 10 0 true; sample_player 6 "T" 0 0 0 true] in
  let kill := Kill.mk 6 "T" 11 "CT" "AK-47" in
  let r := sample_round 0 0 1 0 (Some [sample_frame ts []]) (Some [kill]) in
  let listed_twice :=
    sample_round 0 0 1 0
      (Some [sample_frame ts [];
             sample_frame (ts ++ [sample_player 6 "T" 5 5 0 true]) []])
      (Some []) in
  (exists r',
     remove_coaches_in_origin r = Ok r'
     /\ player_list key_t r' = firstn 5 ts
     /\ Round.kills r' = Some [kill]
     /\ In 6 (map Kill.attackerSteamID (or_empty (Round.kills r'))))
  /\ (exists r',
       remove_coaches_in_origin listed_twice = Ok r'
       /\ map (frame_players key_t) (or_empty (Round.frames r'))
          = [firstn 5 ts; firstn 5 ts ++ [sample_player 6 "T" 5 5 0 true]]).
Proof.
  cbv zeta. split.
  - eexists. split; [reflexivity |]. simpl. auto.
  - eexists. split; reflexivity.
Qed.

(** C3 (amended).  In a round whose steamIDs identify the players inside
    each player list, [remove_coaches_in_origin] succeeds and leaves no entry
    with the steamID of a first-frame player at (0,0,0) in the two side
    rosters nor in the t and ct lists of any frame; the five event lists are
    left as they were. *)
Theorem remove_coaches_in_origin_purges_lists (r : Round.t) (first : Frame.t)
    (later : list Frame.t) (coach : Player.t) :
  Round.frames r = Some (first :: later) ->
  round_unique r ->
  In coach (frame_players key_t first ++ frame_players key_ct first) ->
  at_origin coach = true ->
  exists r',
    remove_coaches_in_origin r = Ok r'
    /\ absent_from_lists (Player.steamID coach) r'
    /\ length (or_empty (Round.frames r')) = length (first :: later)
    /\ same_events r r'.
Proof.
  intros Hfs Hu Hin Hc. exists (purge_all (coaches_in_origin first) r).
  split; [apply (remove_coaches_in_origin_unique r first later Hfs Hu) |].
  split; [| split].
  - apply purge_all_absent. unfold coaches_in_origin. simpl.
    rewrite app_nil_r. apply in_app_or in Hin. apply in_or_app.
    destruct Hin as [Hin | Hin]; [left | right]; apply filter_In; split; assumption.
  - rewrite purge_all_frame_count, Hfs. reflexivity.
  - apply purge_all_events.
Qed.

(** Closed goals about concrete identifier lists. *)
Ltac solve_unique_ids :=
  unfold unique_ids, ids; simpl;
  repeat (constructor; [simpl; intuition discriminate |]); constructor.

Ltac solve_round_unique :=
  unfold round_unique, frame_unique; simpl;
  repeat match goal with
         | |- _ /\ _ => split
         | |- Forall _ (_ :: _) => constructor
         | |- Forall _ [] => constructor
         | |- unique_ids _ => solve_unique_ids
         | |- NoDup _ => solve_unique_ids
         end.

(** Six T players in the first frame, player 6 at the origin. *)
Lemma remove_coaches_in_origin_purges_lists_witness :
  let ts := [sample_player 1 "T" 10 10 0 true; sample_player 2 "T" 20 10 0 true;
             sample_player 3 "T" 30 10 0 true; sample_player 4 "T" 40 10 0 true;
             sample_player 5 "T" 50 10 0 true; sample_player 6 "T" 0 0 0 true] in
  let r := sample_round 0 0 1 0 (Some [sample_frame ts []])
             (Some [Kill.mk 6 "T" 11 "CT" "AK-47"]) in
  exists r',
    remove_coaches_in_origin r = Ok r'
    /\ absent_from_lists 6 r'
    /\ length (or_empty (Round.frames r')) = 1%nat
    /\ same_events r r'.
Proof.
  cbv zeta.
  apply (remove_coaches_in_origin_purges_lists
           (sample_round 0 0 1 0
              (Some [sample_frame
                       [sample_player 1 "T" 10 10 0 true;
                        sample_player 2 "T" 20 10 0 true;
                        sample_player 3 "T" 30 10 0 true;
                        sample_player 4 "T" 40 10 0 true;
                        sample_player 5 "T" 50 10 0 true;
                        sample_player 6 "T" 0 0 0 true] []])
              (Some [Kill.mk 6 "T" 11 "CT" "AK-47"]))
           (sample_frame
              [sample_player 1 "T" 10 10 0 true;
               sample_player 2 "T" 20 10 0 true;
               sample_player 3 "T" 30 10 0 true;
               sample_player 4 "T" 40 10 0 true;
               sample_player 5 "T" 50 10 0 true;
               sample_player 6 "T" 0 0 0 true] [])
           []
           (sample_player 6 "T" 0 0 0 true)).
  - reflexivity.
  - solve_round_unique.
  - simpl. tauto.
  - reflexivity.
Defined.

(** ** Side switch *)

Lemma flip_side_involutive (s : string) : is_side s -> flip_side (flip_side s) = s.
Proof. intros [-> | ->]; reflexivity. Qed.

Lemma occurrences_app (sid : Z) (l l' : list Player.t) :
  occurrences sid (l ++ l') = (occurrences sid l + occurrences sid l')%nat.
Proof. unfold occurrences. rewrite filter_app, length_app. reflexivity. Qed.

Lemma find_occurrences_none (sid : Z) (l : list Player.t) :
  occurrences sid l = 0%nat ->
  find (fun player => Player.steamID player =? sid) l = None.
Proof.
  unfold occurrences. induction l as [| q l IH]; simpl; intros H.
  - reflexivity.
  - destruct (Player.steamID q =? sid); simpl in H; [discriminate | apply IH; exact H].
Qed.

Lemma occurrences_none_find (sid : Z) (l : list Player.t) :
  find (fun player => Player.steamID player =? sid) l = None ->
  occurrences sid l = 0%nat.
Proof.
  unfold occurrences. induction l as [| q l IH]; simpl; intros H.
  - reflexivity.
  - destruct (Player.steamID q =? sid); [discriminate | apply IH; exact H].
Qed.

Lemma occurrences_list_remove (sid : Z) (p : Player.t) (l : list Player.t) :
  In p l -> Player.steamID p = sid ->
  S (occurrences sid (list_remove p l)) = occurrences sid l.
Proof.
  unfold occurrences. intros Hin Hp. induction l as [| q l IH]; simpl.
  - contradiction.
  - destruct (Player.eqb q p) eqn:E.
    + apply player_eqb_eq in E. subst q. rewrite Hp, Z.eqb_refl. reflexivity.
    + destruct Hin as [-> | Hin]; [rewrite player_eqb_refl in E; discriminate |].
      simpl. destruct (Player.steamID q =? sid); simpl; rewrite <- (IH Hin);
        reflexivity.
Qed.

Lemma list_remove_last (p : Player.t) (l : list Player.t) :
  ~ In (Player.steamID p) (ids l) -> list_remove p (l ++ [p]) = l.
Proof.
  induction l as [| q l IH]; simpl; intros H.
  - rewrite player_eqb_refl. reflexivity.
  - destruct (Player.eqb q p) eqn:E.
    + apply player_eqb_eq in E. subst q. exfalso. apply H. left. reflexivity.
    + f_equal. apply IH. intros Hin. apply H. right. exact Hin.
Qed.

Lemma list_remove_permutation (p : Player.t) (l : list Player.t) :
  In p l -> Permutation l (list_remove p l ++ [p]).
Proof.
  induction l as [| q l IH]; simpl; intros Hin.
  - contradiction.
  - destruct (Player.eqb q p) eqn:E.
    + apply player_eqb_eq in E. subst q.
      apply Permutation_cons_append.
    + destruct Hin as [-> | Hin]; [rewrite player_eqb_refl in E; discriminate |].
      simpl. constructor. apply IH. exact Hin.
Qed.

Lemma occurrences_zero_absent (sid : Z) (l : list Player.t) :
  occurrences sid l = 0%nat -> ~ In sid (ids l).
Proof.
  unfold occurrences, ids. intros H Hin. apply in_map_iff in Hin.
  destruct Hin as (q & Hq & Hin).
  assert (Hf : In q (filter (fun player => Player.steamID player =? sid) l)).
  { apply filter_In. split; [exact Hin | apply Z.eqb_eq; exact Hq]. }
  destruct (filter (fun player => Player.steamID player =? sid) l);
    [contradiction | discriminate].
Qed.

Lemma find_app_none {A : Type} (f : A -> bool) (l l' : list A) :
  find f l = None -> find f (l ++ l') = find f l'.
Proof.
  induction l as [| a l IH]; simpl; intros H.
  - reflexivity.
  - destruct (f a); [discriminate | apply IH; exact H].
Qed.

(** One way of the double switch: the player sits in [this], goes to [other]
    and comes back. *)
Lemma move_player_back (f g : Player.t -> Player.t) (sid : Z)
    (this other this1 other1 : list Player.t) :
  (forall p, Player.steamID (f p) = Player.steamID p) ->
  (forall p, In p this -> Player.steamID p = sid -> g (f p) = p) ->
  (occurrences sid (this ++ other) <= 1)%nat ->
  move_player f sid this other = Some (this1, other1) ->
  find (fun player => Player.steamID player =? sid) this1 = None
  /\ exists this2,
       move_player g sid other1 this1 = Some (other, this2)
       /\ Permutation this this2.
Proof.
  intros Hf Hgf Hocc Hmove. unfold move_player in Hmove.
  destruct (find (fun player => Player.steamID player =? sid) this) as [p |] eqn:Hfind;
    [| discriminate].
  injection Hmove as <- <-.
  destruct (find_some _ _ Hfind) as [Hin Hp]. apply Z.eqb_eq in Hp.
  rewrite occurrences_app in Hocc.
  pose proof (occurrences_list_remove sid p this Hin Hp) as Hrem.
  assert (H0 : occurrences sid (list_remove p this) = 0%nat) by lia.
  assert (H1 : occurrences sid other = 0%nat) by lia.
  split; [apply find_occurrences_none; exact H0 |].
  exists (list_remove p this ++ [g (f p)]). split.
  - unfold move_player.
    rewrite (find_app_none _ _ _ (find_occurrences_none sid other H1)).
    simpl. rewrite Hf, Hp, Z.eqb_refl.
    rewrite list_remove_last; [reflexivity |].
    rewrite Hf, Hp. apply occurrences_zero_absent. exact H1.
  - rewrite (Hgf p Hin Hp). apply list_remove_permutation. exact Hin.
Qed.

(** The double switch on a pair of lists. *)
Lemma switch_lists_twice (f g : Player.t -> Player.t) (sid : Z)
    (ts cts : list Player.t) :
  (forall p, Player.steamID (f p) = Player.steamID p) ->
  (forall p, Player.steamID (g p) = Player.steamID p) ->
  (forall p, In p ts -> Player.steamID p = sid -> g (f p) = p) ->
  (forall p, In p cts -> Player.steamID p = sid -> f (g p) = p) ->
  (occurrences sid (ts ++ cts) <= 1)%nat ->
  let (ts1, cts1) := switch_lists f g sid ts cts in
  let (ts2, cts2) := switch_lists f g sid ts1 cts1 in
  Permutation ts ts2 /\ Permutation cts cts2.
Proof.
  intros Hf Hg Hgf Hfg Hocc. unfold switch_lists at 1.
  destruct (move_player f sid ts cts) as [[ts1 cts1] |] eqn:M1.
  - destruct (move_player_back f g sid ts cts ts1 cts1 Hf Hgf Hocc M1)
      as (Hnone & ts2 & M2 & Hperm).
    unfold switch_lists.
    assert (M3 : move_player f sid ts1 cts1 = None).
    { unfold move_player. rewrite Hnone. reflexivity. }
    rewrite M3, M2. split; [exact Hperm | apply Permutation_refl].
  - destruct (move_player g sid cts ts) as [[cts1 ts1] |] eqn:M2.
    + assert (Hocc' : (occurrences sid (cts ++ ts) <= 1)%nat).
      { rewrite occurrences_app in *. lia. }
      destruct (move_player_back g f sid cts ts cts1 ts1 Hg Hfg Hocc' M2)
        as (Hnone & cts2 & M3 & Hperm).
      unfold switch_lists. rewrite M3.
      split; [apply Permutation_refl | exact Hperm].
    + unfold switch_lists. rewrite M1, M2.
      split; apply Permutation_refl.
Qed.

Lemma set_side_same (s : string) (p : Player.t) :
  Player.side p = s -> Player.set_side s p = p.
Proof. intros <-. destruct p. reflexivity. Qed.

Lemma set_side_twice (s s' : string) (p : Player.t) :
  Player.set_side s (Player.set_side s' p) = Player.set_side s p.
Proof. reflexivity. Qed.

Lemma switch_in_frame_twice (sid : Z) (f : Frame.t) :
  frame_switchable sid f ->
  frame_equiv f (switch_in_frame sid (switch_in_frame sid f)).
Proof.
  intros (Hocc & Ht & Hct). simpl in Hocc, Ht, Hct.
  pose proof (switch_lists_twice (Player.set_side "CT") (Player.set_side "T") sid
                (Team.players (Frame.t_ f)) (Team.players (Frame.ct f))) as H.
  unfold frame_equiv, switch_in_frame.
  destruct (switch_lists (Player.set_side "CT") (Player.set_side "T") sid
              (Team.players (Frame.t_ f)) (Team.players (Frame.ct f)))
    as [ts1 cts1].
  cbn [Frame.t_ Frame.ct Frame.set_t Frame.set_ct Team.players Team.set_players].
  destruct (switch_lists (Player.set_side "CT") (Player.set_side "T") sid ts1 cts1)
    as [ts2 cts2].
  destruct H as [H1 H2]; try reflexivity; try exact Hocc.
  - intros p Hin Hp. rewrite set_side_twice. apply set_side_same.
    unfold labelled in Ht. rewrite Forall_forall in Ht. apply Ht; assumption.
  - intros p Hin Hp. rewrite set_side_twice. apply set_side_same.
    unfold labelled in Hct. rewrite Forall_forall in Hct. apply Hct; assumption.
  - unfold team_equiv. simpl. repeat split; assumption.
Qed.

Ltac switch_twice_tac :=
  repeat match goal with
         | |- context [?a =? ?b] => destruct (Z.eqb_spec a b)
         end;
  repeat rewrite flip_side_involutive by auto; reflexivity.

Lemma switch_kill_twice (sid : Z) (k : Kill.t) :
  kill_switchable sid k -> switch_kill sid (switch_kill sid k) = k.
Proof.
  destruct k. unfold kill_switchable, switch_kill. simpl. intros [H1 H2].
  switch_twice_tac.
Qed.

Lemma switch_damage_twice (sid : Z) (d : Damage.t) :
  damage_switchable sid d -> switch_damage sid (switch_damage sid d) = d.
Proof.
  destruct d. unfold damage_switchable, switch_damage. simpl. intros [H1 H2].
  switch_twice_tac.
Qed.

Lemma switch_grenade_twice (sid : Z) (g : Grenade.t) :
  grenade_switchable sid g -> switch_grenade sid (switch_grenade sid g) = g.
Proof.
  destruct g. unfold grenade_switchable, switch_grenade. simpl. intros H.
  switch_twice_tac.
Qed.

Lemma switch_weaponFire_twice (sid : Z) (w : WeaponFire.t) :
  weaponFire_switchable sid w ->
  switch_weaponFire sid (switch_weaponFire sid w) = w.
Proof.
  destruct w. unfold weaponFire_switchable, switch_weaponFire. simpl. intros H.
  switch_twice_tac.
Qed.

Lemma switch_flash_twice (sid : Z) (f : Flash.t) :
  flash_switchable sid f -> switch_flash sid (switch_flash sid f) = f.
Proof.
  destruct f. unfold flash_switchable, switch_flash. simpl. intros [H1 H2].
  switch_twice_tac.
Qed.

Lemma map_twice_id {A : Type} (f : A -> A) (P : A -> Prop) (l : list A) :
  (forall a, P a -> f (f a) = a) -> Forall P l -> map f (map f l) = l.
Proof.
  intros Hf Hl. induction Hl as [| a l Ha Hl IH]; simpl.
  - reflexivity.
  - rewrite (Hf a Ha), IH. reflexivity.
Qed.

Lemma map_switch_in_frame_twice (sid : Z) (fs : list Frame.t) :
  Forall (frame_switchable sid) fs ->
  Forall2 frame_equiv fs (map (switch_in_frame sid) (map (switch_in_frame sid) fs)).
Proof.
  intros H. induction H as [| f fs Hf Hfs IH]; simpl; constructor.
  - apply switch_in_frame_twice. exact Hf.
  - exact IH.
Qed.

(** C4 (as stated, refuted).  Three rounds that two switches do not give
    back.  In the first the T list of a frame holds player 7 with the label
    ["CT"]: the entry goes to the CT list with the label ["CT"] and comes back
    with the label ["T"].  In the second the T list holds two bots, both with
    steamID 0: each switch moves one of them to the CT list.  In the third a
    kill by player 7 carries the empty attacker label: it becomes ["CT"], then
    ["T"]. *)
Lemma switch_player_side_twice_relabels :
  let p := sample_player 7 "CT" 10 20 0 true in
  let r := sample_round 0 0 1 0 (Some [sample_frame [p] []]) (Some []) in
  let bot_a := sample_player 0 "T" 10 20 0 true in
  let bot_b := sample_player 0 "T" 30 40 0 true in
  let bots :=
    sample_round 0 0 1 0 (Some [sample_frame [bot_a; bot_b] []]) (Some []) in
  let no_label :=
    sample_round 0 0 1 0 (Some []) (Some [Kill.mk 7 EmptyString 8 "CT" "AK-47"]) in
  (exists r2,
     switch_twice r 7 = Ok r2
     /\ player_list key_t r = [p]
     /\ player_list key_t r2 = [Player.set_side "T" p]
     /\ ~ round_equiv r r2)
  /\ (exists r2,
       switch_twice bots 0 = Ok r2
       /\ player_list key_t r2 = []
       /\ player_list key_ct r2
          = [Player.set_side "CT" bot_a; Player.set_side "CT" bot_b]
       /\ ~ round_equiv bots r2)
  /\ (exists r2,
       switch_twice no_label 7 = Ok r2
       /\ Round.kills r2 = Some [Kill.mk 7 "T" 8 "CT" "AK-47"]
       /\ ~ round_equiv no_label r2).
Proof.
  cbv zeta. split; [| split].
  - eexists. split; [reflexivity |]. split; [reflexivity |].
    split; [reflexivity |].
    intros (_ & _ & _ & Hfs). simpl in Hfs.
    inversion Hfs as [| ? ? ? ? Hf _]; subst.
    destruct Hf as (_ & _ & [_ Hperm] & _). simpl in Hperm.
    apply Permutation_length_1 in Hperm. discriminate Hperm.
  - eexists. split; [reflexivity |]. split; [reflexivity |].
    split; [reflexivity |].
    intros (_ & _ & _ & Hfs). simpl in Hfs.
    inversion Hfs as [| ? ? ? ? Hf _]; subst.
    destruct Hf as (_ & _ & [_ Hperm] & _). simpl in Hperm.
    apply Permutation_length in Hperm. discriminate Hperm.
  - eexists. split; [reflexivity |]. split; [reflexivity |].
    intros (Hrest & _). discriminate Hrest.
Qed.

(** C4 (amended).  When the lists that the switch iterates are present, the
    steamID names at most one entry of the two rosters together and at most
    one entry of the two lists of every frame, that frame entry carries the
    label of its list, and the side labels of the player in the events are
    ["T"] or ["CT"], then two switches in a row succeed and give back the
    round up to the order inside the player lists. *)
Theorem switch_player_side_twice (r : Round.t) (sid : Z) :
  lists_present r ->
  switchable sid r ->
  exists r2, switch_twice r sid = Ok r2 /\ round_equiv r r2.
Proof.
  intros (Pf & Pk & Pd & Pg & Pw & Pl) (Hocc & Hfs & Hk & Hd & Hg & Hw & Hl).
  destruct r as [? ? ? ? ? ? ? ? ? ? ? ts cts fs ks ds gs ws fl].
  cbn [Round.frames Round.kills Round.damages Round.grenades Round.weaponFires
       Round.flashes Round.tSide Round.ctSide] in *.
  destruct fs as [fs |]; [| congruence]. destruct ks as [ks |]; [| congruence].
  destruct ds as [ds |]; [| congruence]. destruct gs as [gs |]; [| congruence].
  destruct ws as [ws |]; [| congruence]. destruct fl as [fl |]; [| congruence].
  cbn [or_empty] in *.
  pose proof (switch_lists_twice (fun p => p) (fun p => p) sid
                (Team.players ts) (Team.players cts)) as Hros.
  unfold switch_twice, switch_player_side.
  cbn [Round.frames Round.kills Round.damages Round.grenades Round.weaponFires
       Round.flashes Round.tSide Round.ctSide].
  destruct (switch_lists (fun p => p) (fun p => p) sid
              (Team.players ts) (Team.players cts)) as [ts1 cts1].
  cbn [iter_list bind Round.set_sides Round.set_events Round.set_frames
       Round.frames Round.kills Round.damages Round.grenades Round.weaponFires
       Round.flashes Round.tSide Round.ctSide Team.players Team.set_players
       Team.teamName].
  destruct (switch_lists (fun p => p) (fun p => p) sid ts1 cts1) as [ts2 cts2].
  eexists. split; [reflexivity |].
  destruct Hros as [H1 H2]; try reflexivity; try exact Hocc.
  unfold round_equiv, round_rest, team_equiv.
  cbn [Round.set_sides Round.set_frames Round.frames Round.kills Round.damages
       Round.grenades Round.weaponFires Round.flashes Round.tSide Round.ctSide
       Round.roundNum Round.isWarmup Round.startTick Round.freezeTimeEndTick
       Round.endTick Round.endOfficialTick Round.tScore Round.ctScore
       Round.endTScore Round.endCTScore Round.roundEndReason
       Team.players Team.teamName frames_equiv].
  rewrite (map_twice_id _ _ ks (switch_kill_twice sid) Hk),
          (map_twice_id _ _ ds (switch_damage_twice sid) Hd),
          (map_twice_id _ _ gs (switch_grenade_twice sid) Hg),
          (map_twice_id _ _ ws (switch_weaponFire_twice sid) Hw),
          (map_twice_id _ _ fl (switch_flash_twice sid) Hl).
  repeat split; try assumption.
  apply map_switch_in_frame_twice. exact Hfs.
Qed.

Ltac solve_switchable :=
  unfold switchable, frame_switchable, kill_switchable, damage_switchable,
    grenade_switchable, weaponFire_switchable, flash_switchable, labelled,
    is_side, occurrences;
  repeat (simpl;
          match goal with
          | |- _ /\ _ => split
          | |- Forall _ (_ :: _) => constructor
          | |- Forall _ [] => constructor
          | |- (_ <= _)%nat => lia
          | |- _ -> _ => let H := fresh in intros H; try discriminate H
          | |- _ = _ => reflexivity
          | |- _ \/ _ => first [left; reflexivity | right; reflexivity]
          end).

(** Player 7 on the T side of the roster and of the frame, with a kill. *)
Lemma switch_player_side_twice_witness :
  let p := sample_player 7 "T" 10 20 0 true in
  let q := sample_player 8 "CT" 30 40 0 true in
  let r :=
    Round.mk 1 false 0 10 100 110 0 0 1 0 "TargetBombed"
      (Team.mk "Team A" [p]) (Team.mk "Team B" [q])
      (Some [sample_frame [p] [q]]) (Some [Kill.mk 7 "T" 8 "CT" "AK-47"])
      (Some []) (Some []) (Some []) (Some []) in
  exists r2, switch_twice r 7 = Ok r2 /\ round_equiv r r2.
Proof.
  cbv zeta.
  apply (switch_player_side_twice
           (Round.mk 1 false 0 10 100 110 0 0 1 0 "TargetBombed"
              (Team.mk "Team A" [sample_player 7 "T" 10 20 0 true])
              (Team.mk "Team B" [sample_player 8 "CT" 30 40 0 true])
              (Some [sample_frame [sample_player 7 "T" 10 20 0 true]
                                  [sample_player 8 "CT" 30 40 0 true]])
              (Some [Kill.mk 7 "T" 8 "CT" "AK-47"])
              (Some []) (Some []) (Some []) (Some []))
           7).
  - unfold lists_present. simpl. repeat split; discriminate.
  - solve_switchable.
Defined.

(** ** Roster normaliser *)

Lemma switchedPlayers_agree (mapName : string) (r : Round.t) :
  sides_agree mapName r -> switchedPlayers mapName r = [].
Proof.
  unfold sides_agree, switchedPlayers.
  generalize (player_list key_t r ++ player_list key_ct r) as l.
  intros l H. induction H as [| player l Hp Hl IH]; simpl.
  - reflexivity.
  - rewrite Hp, String.eqb_refl. simpl. exact IH.
Qed.

Lemma eliminate_within_limit (loops : nat) (side : side_key) (r : Round.t) :
  len (player_list side r) <= 5 -> eliminate loops side r = Ok r.
Proof.
  intros H. destruct loops as [| loops]; simpl; [reflexivity |].
  replace (5 <? len (player_list side r)) with false
    by (symmetry; apply Z.ltb_ge; exact H).
  reflexivity.
Qed.

Lemma over_limit_false (r : Round.t) :
  len (player_list key_t r) <= 5 -> len (player_list key_ct r) <= 5 ->
  over_limit r = false.
Proof.
  intros Ht Hct. unfold over_limit. apply orb_false_iff.
  split; apply Z.ltb_ge; assumption.
Qed.

Lemma accepted_iff (r : Round.t) :
  accepted r = true <->
  3 <= len (player_list key_t r) <= 5 /\ 3 <= len (player_list key_ct r) <= 5.
Proof.
  unfold accepted, max_players, min_players. simpl.
  rewrite !andb_true_iff, !Z.leb_le. intuition lia.
Qed.

(** A round with frames whose first-frame lists hold 3 to 5 players each and
    whose first-frame players carry their inferred side goes through the loop
    body untouched. *)
Lemma excess_players_round_balanced (mapName : string) (r : Round.t) :
  accepted r = true -> sides_agree mapName r ->
  excess_players_round mapName r = Ok (Some r).
Proof.
  intros Hacc Hagree. pose proof Hacc as Hb. apply accepted_iff in Hb.
  destruct Hb as [[Ht3 Ht5] [Hc3 Hc5]].
  unfold excess_players_round.
  destruct (Round.frames r) as [[| first later] |] eqn:Hfs.
  - unfold player_list, player_lists, len in Ht3. rewrite Hfs in Ht3.
    simpl in Ht3. lia.
  - apply over_limit_false in Ht5 as Hlim; [| exact Hc5].
    rewrite Hlim. cbn [bind]. rewrite Hlim. cbn [bind].
    unfold force_sides. rewrite (switchedPlayers_agree mapName r Hagree).
    cbn [for_each bind]. unfold eliminate_and_accept.
    rewrite (eliminate_within_limit _ key_t r Ht5). cbn [bind].
    rewrite (eliminate_within_limit _ key_t r Ht5). cbn [bind].
    rewrite (eliminate_within_limit _ key_ct r Hc5). cbn [bind].
    rewrite Hacc. reflexivity.
  - unfold player_list, player_lists, len in Ht3. rewrite Hfs in Ht3.
    simpl in Ht3. lia.
Qed.

(** C2 (as stated, refuted).  Two rounds with frames whose sides both have at
    most 5 players in the first frame.  The first has two players a side: it
    is dropped by the acceptance test.  The second, on de_mirage, has a
    T-labelled player at x < 0 in its T list: the side correction moves that
    player to the CT list. *)
Lemma remove_excess_players_touches_small_rounds :
  let t_at (id x : Z) := sample_player id "T" x 10 0 true in
  let ct_at (id x : Z) := sample_player id "CT" x 10 0 true in
  let small :=
    sample_round 0 0 1 0
      (Some [sample_frame [t_at 1 5; t_at 2 6] [ct_at 3 (-5); ct_at 4 (-6)]])
      (Some []) in
  let mis_sided :=
    sample_round 0 0 1 0
      (Some [sample_frame [t_at 1 5; t_at 2 6; t_at 3 7; t_at 4 (-8)]
                          [ct_at 5 (-5); ct_at 6 (-6); ct_at 7 (-7)]])
      (Some []) in
  over_limit small = false
  /\ over_limit mis_sided = false
  /\ exists r',
       rounds_of_result
         (remove_excess_players (sample_parser "de_mirage" [] [small; mis_sided]))
       = Some [r']
       /\ player_list key_t r' = [t_at 1 5; t_at 2 6; t_at 3 7]
       /\ player_list key_ct r'
          = [ct_at 5 (-5); ct_at 6 (-6); ct_at 7 (-7); ct_at 4 (-8)]
       /\ r' <> mis_sided.
Proof.
  cbv zeta. split; [reflexivity |]. split; [reflexivity |].
  eexists. split; [reflexivity |]. split; [reflexivity |].
  split; [reflexivity |]. discriminate.
Qed.

(** C2 (amended).  For a round with frames whose first-frame sides both have
    at most 5 players, the two coach removals are skipped, and the loop body
    is the side correction followed by the earliest-death elimination and the
    acceptance test; if moreover both sides have at least 3 players and every
    first-frame player carries the side that [get_player_side] infers, the
    round is retained unmodified. *)
Theorem excess_players_round_within_limit (mapName : string) (r : Round.t)
    (first : Frame.t) (later : list Frame.t) :
  Round.frames r = Some (first :: later) ->
  len (frame_players key_t first) <= 5 ->
  len (frame_players key_ct first) <= 5 ->
  excess_players_round mapName r
  = (do r1 <- force_sides mapName r; eliminate_and_accept r1)
  /\ (3 <= len (frame_players key_t first) ->
      3 <= len (frame_players key_ct first) ->
      sides_agree mapName r ->
      excess_players_round mapName r = Ok (Some r)).
Proof.
  intros Hfs Ht Hct.
  assert (Hlt : player_list key_t r = frame_players key_t first).
  { unfold player_list, player_lists. rewrite Hfs. reflexivity. }
  assert (Hlct : player_list key_ct r = frame_players key_ct first).
  { unfold player_list, player_lists. rewrite Hfs. reflexivity. }
  split.
  - unfold excess_players_round. rewrite Hfs.
    rewrite over_limit_false by (rewrite ?Hlt, ?Hlct; assumption).
    cbn [bind].
    rewrite over_limit_false by (rewrite ?Hlt, ?Hlct; assumption).
    reflexivity.
  - intros Ht3 Hct3 Hagree. apply excess_players_round_balanced; [| exact Hagree].
    apply accepted_iff. rewrite Hlt, Hlct. lia.
Qed.

(** A round of the restarted match: five players a side on de_dust2. *)
Lemma excess_players_round_within_limit_witness :
  excess_players_round "de_dust2" (scored_round 0 0 1 0)
  = (do r1 <- force_sides "de_dust2" (scored_round 0 0 1 0);
     eliminate_and_accept r1)
  /\ excess_players_round "de_dust2" (scored_round 0 0 1 0)
     = Ok (Some (scored_round 0 0 1 0)).
Proof.
  destruct (excess_players_round_within_limit "de_dust2" (scored_round 0 0 1 0)
              (sample_frame five_t five_ct) [sample_frame five_t five_ct])
    as [Hsteps Hsame].
  - reflexivity.
  - vm_compute. discriminate.
  - vm_compute. discriminate.
  - split; [exact Hsteps |]. apply Hsame.
    + vm_compute. discriminate.
    + vm_compute. discriminate.
    + unfold sides_agree. simpl. repeat constructor.
Defined.

(** The numbering after a run on the restarted match. *)
Lemma clean_rounds_contiguous_witness :
  exists p',
    clean_rounds default_args restarted_match = Ok p'
    /\ exists p1 g1 rs1 g' rs',
         filter_stages default_args restarted_match = Ok p1
         /\ json p1 = Some g1 /\ Game.gameRounds g1 = Some rs1
         /\ json p' = Some g' /\ Game.gameRounds g' = Some rs'
         /\ map Round.roundNum rs' = map Z.of_nat (seq 1 (length rs'))
         /\ map Frame.globalFrameID (all_frames rs')
            = map Z.of_nat (seq 0 (length (all_frames rs')))
         /\ map unnumbered rs' = map unnumbered rs1
         /\ same_header p1 p'.
Proof.
  eexists. split.
  - vm_compute. reflexivity.
  - apply (clean_rounds_contiguous default_args restarted_match).
    + eexists. eexists. split; reflexivity.
    + vm_compute. reflexivity.
Defined.

(** C9 (as stated, refuted).  On the restarted match the first run of
    [clean_rounds], all stages enabled, drops the second round (the total of
    the round after it is lower) and leaves four rounds with the totals
    1, 1, 3, 5; the second run drops the first of these, whose successor now
    has an equal total, and renumbers the remaining three.  On the mislabelled
    match the first run moves player 4 to the CT lists, where the entry keeps
    the label ["CT"] against its position, and the second run moves it back
    to the T lists. *)
Lemma clean_rounds_not_idempotent :
  (exists p1 p2,
     clean_rounds default_args restarted_match = Ok p1
     /\ clean_rounds default_args p1 = Ok p2
     /\ map round_total (rounds_of p1) = [1; 1; 3; 5]
     /\ map Round.roundNum (rounds_of p1) = [1; 2; 3; 4]
     /\ map round_total (rounds_of p2) = [1; 3; 5]
     /\ map Round.roundNum (rounds_of p2) = [1; 2; 3]
     /\ p2 <> p1)
  /\ (exists p1 p2,
       clean_rounds default_args mislabelled_match = Ok p1
       /\ clean_rounds default_args p1 = Ok p2
       /\ map (fun r => ids (player_list key_t r)) (rounds_of p1)
          = [[1; 2; 3]; [1; 2; 3]]
       /\ map (fun r => ids (player_list key_t r)) (rounds_of p2)
          = [[1; 2; 3; 4]; [1; 2; 3; 4]]
       /\ p2 <> p1).
Proof.
  split.
  - eexists. eexists. split; [vm_compute; reflexivity |].
    split; [vm_compute; reflexivity |].
    repeat split. intros H. discriminate H.
  - eexists. eexists. split; [vm_compute; reflexivity |].
    split; [vm_compute; reflexivity |].
    repeat split. intros H. discriminate H.
Qed.

(** ** Second run of the pipeline *)

Lemma for_each_invariant {A S : Type} (I : S -> S -> Prop)
    (body : A -> S -> result S) (xs : list A) (st st' : S) :
  (forall s, I s s) -> (forall s1 s2 s3, I s1 s2 -> I s2 s3 -> I s1 s3) ->
  (forall x s s', body x s = Ok s' -> I s s') ->
  for_each body xs st = Ok st' -> I st st'.
Proof.
  intros Hrefl Htrans Hbody. revert st.
  induction xs as [| x xs IH]; intros st H; simpl in H.
  - injection H as <-. apply Hrefl.
  - destruct (body x st) as [s1 |] eqn:Hx; cbn [bind] in H; [| discriminate H].
    eapply Htrans; [eapply Hbody; exact Hx | apply IH; exact H].
Qed.

Lemma same_profile_refl (r : Round.t) : same_profile r r.
Proof. reflexivity. Qed.

Lemma same_profile_trans (r1 r2 r3 : Round.t) :
  same_profile r1 r2 -> same_profile r2 r3 -> same_profile r1 r3.
Proof. unfold same_profile. congruence. Qed.

Lemma remove_player_from_round_profile (r r' : Round.t) (sid : Z) :
  remove_player_from_round r sid = Ok r' -> same_profile r r'.
Proof.
  unfold remove_player_from_round. cbn [Round.frames Round.set_sides].
  destruct (Round.frames r); cbn [iter_list bind]; intros H; [| discriminate H].
  injection H as <-. reflexivity.
Qed.

Lemma remove_all_profile (l : list Player.t) (r r' : Round.t) :
  remove_all l r = Ok r' -> same_profile r r'.
Proof.
  apply (for_each_invariant same_profile).
  - apply same_profile_refl.
  - apply same_profile_trans.
  - intros player s s' H. eapply remove_player_from_round_profile. exact H.
Qed.

Lemma map_weapon_switch_kill (sid : Z) (ks : list Kill.t) :
  map Kill.weapon (map (switch_kill sid) ks) = map Kill.weapon ks.
Proof. rewrite map_map. reflexivity. Qed.

Lemma switch_player_side_profile (r r' : Round.t) (sid : Z) :
  switch_player_side r sid = Ok r' -> same_profile r r'.
Proof.
  unfold switch_player_side.
  destruct (switch_lists _ _ sid _ _) as [ts cts].
  destruct (Round.kills r) as [ks |] eqn:Hk; cbn [iter_list bind];
    [| discriminate].
  destruct (Round.damages r); cbn [iter_list bind]; [| discriminate].
  destruct (Round.grenades r); cbn [iter_list bind]; [| discriminate].
  destruct (Round.weaponFires r); cbn [iter_list bind]; [| discriminate].
  destruct (Round.flashes r); cbn [iter_list bind]; [| discriminate].
  destruct (Round.frames r); cbn [iter_list bind]; [| discriminate].
  intros H. injection H as <-. unfold same_profile, profile.
  cbn [Round.set_frames Round.set_events Round.set_sides Round.isWarmup
       Round.startTick Round.freezeTimeEndTick Round.endTick Round.endOfficialTick
       Round.tScore Round.ctScore Round.endTScore Round.endCTScore
       Round.roundEndReason Round.kills option_map].
  rewrite Hk, map_weapon_switch_kill. reflexivity.
Qed.

Lemma force_sides_profile (mapName : string) (r r' : Round.t) :
  force_sides mapName r = Ok r' -> same_profile r r'.
Proof.
  apply (for_each_invariant same_profile).
  - apply same_profile_refl.
  - apply same_profile_trans.
  - intros sid s s' H. eapply switch_player_side_profile. exact H.
Qed.

Lemma eliminate_profile (loops : nat) (side : side_key) (r r' : Round.t) :
  eliminate loops side r = Ok r' -> same_profile r r'.
Proof.
  revert r. induction loops as [| loops IH]; intros r H; simpl in H.
  - injection H as <-. reflexivity.
  - destruct (5 <? len (player_list side r)); [| injection H as <-; reflexivity].
    destruct (findFirstDeadPlayer r side) as [[d |] |]; cbn [bind] in H;
      try discriminate H; [| injection H as <-; reflexivity].
    destruct (d =? 0); [injection H as <-; reflexivity |].
    destruct (remove_player_from_round r d) as [r1 |] eqn:Hr; cbn [bind] in H;
      [| discriminate H].
    eapply same_profile_trans;
      [eapply remove_player_from_round_profile; exact Hr | apply IH; exact H].
Qed.

Lemma remove_coaches_in_origin_profile (r r' : Round.t) :
  remove_coaches_in_origin r = Ok r' -> same_profile r r'.
Proof.
  unfold remove_coaches_in_origin.
  destruct (iter_list (Round.frames r)) as [fs |]; cbn [bind]; [| discriminate].
  destruct (py_index fs 0) as [first |]; cbn [bind]; [| discriminate].
  apply remove_all_profile.
Qed.

Lemma remove_coaches_not_moving_profile (r r' : Round.t) :
  remove_coaches_not_moving r = Ok r' -> same_profile r r'.
Proof.
  unfold remove_coaches_not_moving.
  destruct (Round.frames r) as [[| first later] |].
  - intros H. injection H as <-. reflexivity.
  - apply remove_all_profile.
  - intros H. injection H as <-. reflexivity.
Qed.

(** A round that leaves the loop body of [remove_excess_players] has the
    profile it came with and passes the acceptance test. *)
Lemma excess_players_round_kept (mapName : string) (r r' : Round.t) :
  excess_players_round mapName r = Ok (Some r') ->
  same_profile r r' /\ accepted r' = true.
Proof.
  unfold excess_players_round.
  destruct (Round.frames r) as [[| first later] |]; try discriminate.
  destruct (if over_limit r then remove_coaches_in_origin r else Ok r)
    as [r1 |] eqn:H1; cbn [bind]; [| discriminate].
  destruct (if over_limit r1 then remove_coaches_not_moving r1 else Ok r1)
    as [r2 |] eqn:H2; cbn [bind]; [| discriminate].
  destruct (force_sides mapName r2) as [r3 |] eqn:H3; cbn [bind]; [| discriminate].
  unfold eliminate_and_accept.
  destruct (eliminate max_loops key_t r3) as [r4 |] eqn:H4; cbn [bind];
    [| discriminate].
  destruct (eliminate max_loops key_t r4) as [r5 |] eqn:H5; cbn [bind];
    [| discriminate].
  destruct (eliminate max_loops key_ct r5) as [r6 |] eqn:H6; cbn [bind];
    [| discriminate].
  destruct (accepted r6) eqn:Hacc; intros H; [| discriminate H].
  injection H as <-. split; [| exact Hacc].
  assert (P1 : same_profile r r1).
  { destruct (over_limit r);
      [apply remove_coaches_in_origin_profile; exact H1
      | injection H1 as <-; reflexivity]. }
  assert (P2 : same_profile r1 r2).
  { destruct (over_limit r1);
      [apply remove_coaches_not_moving_profile; exact H2
      | injection H2 as <-; reflexivity]. }
  pose proof (force_sides_profile _ _ _ H3) as P3.
  pose proof (eliminate_profile _ _ _ _ H4) as P4.
  pose proof (eliminate_profile _ _ _ _ H5) as P5.
  pose proof (eliminate_profile _ _ _ _ H6) as P6.
  unfold same_profile in *. congruence.
Qed.

Lemma no_frames_state pf mapName phases rounds :
  remove_rounds_with_no_frames (state pf mapName phases rounds)
  = Ok (state pf mapName phases
          (if pf then Some (filter has_frames (or_empty rounds)) else rounds)).
Proof. destruct pf; reflexivity. Qed.

Lemma warmups_state pf mapName phases rounds :
  remove_warmups (state pf mapName phases rounds)
  = Ok (state pf mapName phases
          (Some (if has_key "warmupChanged" phases
                 then filter live (or_empty rounds) else []))).
Proof.
  unfold remove_warmups, with_json, state. cbn [json Game.matchPhases].
  destruct (has_key "warmupChanged" phases); reflexivity.
Qed.

Lemma knife_state pf mapName phases rs :
  remove_knife_rounds (state pf mapName phases (Some rs))
  = Ok (state pf mapName phases (Some (filter knife_round_kept rs))).
Proof. reflexivity. Qed.

Lemma time_state pf mapName phases rs :
  remove_time_rounds (state pf mapName phases (Some rs))
  = Ok (state pf mapName phases (Some (filter time_ok rs))).
Proof. reflexivity. Qed.

Lemma excess_players_state pf mapName phases rs :
  remove_excess_players (state pf mapName phases (Some rs))
  = do rs' <- (if pf then for_each (excess_players_step mapName) rs [] else Ok rs);
    Ok (state pf mapName phases (Some rs')).
Proof.
  unfold remove_excess_players, with_json, state. simpl. destruct pf; simpl.
  - destruct (for_each (excess_players_step mapName) rs []); reflexivity.
  - reflexivity.
Qed.

Lemma excess_kills_state pf mapName phases rs :
  remove_excess_kill_rounds (state pf mapName phases (Some rs))
  = Ok (state pf mapName phases (Some (filter kills_ok rs))).
Proof. reflexivity. Qed.

Lemma end_round_state pf mapName phases rs :
  remove_end_round None (state pf mapName phases (Some rs))
  = Ok (state pf mapName phases (Some (filter ending_ok rs))).
Proof. reflexivity. Qed.

Lemma bad_scoring_state pf mapName phases rs :
  remove_bad_scoring (state pf mapName phases (Some rs))
  = Ok (state pf mapName phases (Some (select (bad_scoring_keeps rs) rs))).
Proof.
  apply (remove_bad_scoring_select (state pf mapName phases (Some rs))
           (Game.mk mapName phases (Some rs)) rs); reflexivity.
Qed.

Lemma filter_stages_state pf mapName phases rounds :
  filter_stages default_args (state pf mapName phases rounds)
  = do rs <- stage_lists pf mapName phases (or_empty rounds);
    Ok (state pf mapName phases (Some rs)).
Proof.
  unfold filter_stages, default_args, when, stage_lists.
  cbn [arg_remove_no_frames arg_remove_warmups arg_remove_knifes
       arg_remove_bad_timings arg_remove_excess_players arg_remove_excess_kills
       arg_remove_bad_endings arg_remove_bad_scoring].
  rewrite no_frames_state. cbn [bind].
  rewrite warmups_state. cbn [bind].
  rewrite knife_state. cbn [bind].
  rewrite time_state. cbn [bind].
  rewrite excess_players_state.
  replace (or_empty (if pf then Some (filter has_frames (or_empty rounds)) else rounds))
    with (if pf then filter has_frames (or_empty rounds) else or_empty rounds)
    by (destruct pf; reflexivity).
  destruct (if pf then for_each _ _ [] else Ok _) as [rs' |]; cbn [bind];
    [| reflexivity].
  rewrite excess_kills_state. cbn [bind].
  rewrite end_round_state. cbn [bind].
  apply bad_scoring_state.
Qed.

Lemma clean_rounds_state pf mapName phases rounds :
  clean_rounds default_args (state pf mapName phases rounds)
  = do rs <- stage_lists pf mapName phases (or_empty rounds);
    Ok (state pf mapName phases (Some (renumber rs))).
Proof.
  unfold clean_rounds, with_json. cbn [json state].
  rewrite filter_stages_state.
  destruct (stage_lists pf mapName phases (or_empty rounds)) as [rs |];
    reflexivity.
Qed.

Lemma knife_filter_weapons (ks : list Kill.t) :
  length (filter is_knife_kill ks)
  = length (filter (fun w => String.eqb w "Knife") (map Kill.weapon ks)).
Proof.
  induction ks as [| k ks IH]; simpl.
  - reflexivity.
  - unfold is_knife_kill at 1.
    destruct (String.eqb (Kill.weapon k) "Knife"); simpl; rewrite IH; reflexivity.
Qed.

Lemma knife_count_weapons (ks ks' : list Kill.t) :
  map Kill.weapon ks = map Kill.weapon ks' -> count_knife ks = count_knife ks'.
Proof.
  intros H. rewrite !count_knife_filter. unfold len.
  rewrite !knife_filter_weapons, H. reflexivity.
Qed.

Lemma same_profile_tests (r r' : Round.t) :
  same_profile r r' ->
  live r' = live r /\ knife_round_kept r' = knife_round_kept r
  /\ time_ok r' = time_ok r /\ kills_ok r' = kills_ok r
  /\ ending_ok r' = ending_ok r.
Proof.
  unfold same_profile, profile. intros H.
  injection H as Hw Hs Hf He Ho Ht Hc Het Hec Hr Hk.
  unfold live, knife_round_kept, time_ok, kills_ok, ending_ok.
  rewrite Hw, Hs, Hf, He, Ho, Hr.
  assert (Hlen : length (or_empty (Round.kills r'))
                 = length (or_empty (Round.kills r))).
  { destruct (Round.kills r'), (Round.kills r); simpl in *; try discriminate;
      [| reflexivity].
    injection Hk as Hk. apply (f_equal (@length _)) in Hk.
    rewrite !length_map in Hk. exact Hk. }
  repeat split; try (rewrite Hlen; reflexivity).
  destruct (Round.isWarmup r); [reflexivity |].
  destruct (Round.kills r') as [ks' |], (Round.kills r) as [ks |];
    simpl in *; try discriminate; [| reflexivity].
  injection Hk as Hk. rewrite (knife_count_weapons ks' ks Hk), Hlen. reflexivity.
Qed.

Lemma unnumbered_profile (r : Round.t) : profile (unnumbered r) = profile r.
Proof. reflexivity. Qed.

Lemma unnumbered_player_lists (r : Round.t) :
  player_lists (unnumbered r) = player_lists r.
Proof.
  unfold player_lists, unnumbered. cbn [Round.frames Round.set_roundNum Round.set_frames].
  destruct (Round.frames r) as [[| f fs] |]; reflexivity.
Qed.

Lemma unnumbered_accepted (r r' : Round.t) :
  unnumbered r' = unnumbered r -> accepted r' = accepted r.
Proof.
  intros H. unfold accepted, player_list.
  rewrite <- (unnumbered_player_lists r'), <- (unnumbered_player_lists r), H.
  reflexivity.
Qed.

Lemma unnumbered_cleaned (pf : bool) (r r' : Round.t) :
  unnumbered r' = unnumbered r -> cleaned_round pf r -> cleaned_round pf r'.
Proof.
  intros H (Ha & Hrest).
  assert (Hp : same_profile r r').
  { unfold same_profile.
    rewrite <- (unnumbered_profile r'), <- (unnumbered_profile r), H. reflexivity. }
  destruct (same_profile_tests r r' Hp) as (E1 & E2 & E3 & E4 & E5).
  unfold cleaned_round. rewrite E1, E2, E3, E4, E5.
  split; [| exact Hrest].
  intros Hpf. rewrite (unnumbered_accepted r r' H). apply Ha. exact Hpf.
Qed.

Lemma unnumbered_Forall (P : Round.t -> Prop) (rs rs' : list Round.t) :
  (forall r r', unnumbered r' = unnumbered r -> P r -> P r') ->
  map unnumbered rs' = map unnumbered rs -> Forall P rs -> Forall P rs'.
Proof.
  intros HP. revert rs'. induction rs as [| r rs IH]; intros [| r' rs'] H Hall;
    cbn [map] in H; try discriminate; [constructor |].
  assert (Hr : unnumbered r' = unnumbered r) by congruence.
  assert (Hrs : map unnumbered rs' = map unnumbered rs) by congruence.
  inversion Hall; subst. constructor; [eapply HP; eassumption | apply IH; assumption].
Qed.

Lemma renumber_unnumbered (rs : list Round.t) :
  map unnumbered (renumber rs) = map unnumbered rs.
Proof.
  unfold renumber.
  destruct (renumber_frames_from_spec 0 (renumber_round_list rs)) as (_ & _ & H).
  rewrite H. apply renumber_round_list_unnumbered.
Qed.

Lemma Forall_filter_self {A : Type} (f : A -> bool) (l : list A) :
  Forall (fun a => f a = true) (filter f l).
Proof.
  apply Forall_forall. intros a Ha. apply filter_In in Ha. tauto.
Qed.

Lemma Forall_filter_keep {A : Type} (P : A -> Prop) (f : A -> bool) (l : list A) :
  Forall P l -> Forall P (filter f l).
Proof.
  rewrite !Forall_forall. intros H a Ha. apply filter_In in Ha. apply H. tauto.
Qed.

Lemma Forall_select_from {A : Type} (P : A -> Prop) (keep : nat -> bool) (k : nat)
    (l : list A) :
  Forall P l -> Forall P (select_from keep k l).
Proof.
  intros H. revert k. induction H as [| a l Ha Hl IH]; intros k; simpl.
  - constructor.
  - destruct (keep k); [constructor; [exact Ha | apply IH] | apply IH].
Qed.

Lemma filter_all {A : Type} (f : A -> bool) (l : list A) :
  Forall (fun a => f a = true) l -> filter f l = l.
Proof.
  intros H. induction H as [| a l Ha Hl IH]; simpl.
  - reflexivity.
  - rewrite Ha, IH. reflexivity.
Qed.

Lemma excess_players_loop_kept (mapName : string) (P Q : Round.t -> Prop)
    (rs acc rs' : list Round.t) :
  (forall r r', excess_players_round mapName r = Ok (Some r') -> P r -> Q r') ->
  Forall P rs -> Forall Q acc ->
  for_each (excess_players_step mapName) rs acc = Ok rs' -> Forall Q rs'.
Proof.
  intros HPQ Hrs. revert acc. induction Hrs as [| r rs Hr Hrs IH];
    intros acc Hacc H; simpl in H.
  - injection H as <-. exact Hacc.
  - unfold excess_players_step at 1 in H.
    destruct (excess_players_round mapName r) as [[r' |] |] eqn:Hround;
      cbn [bind] in H; try discriminate H.
    + apply (IH (acc ++ [r'])); [| exact H].
      apply Forall_app. split; [exact Hacc |].
      constructor; [eapply HPQ; eassumption | constructor].
    + apply (IH acc); assumption.
Qed.

Lemma excess_players_loop_fixed (mapName : string) (rs acc : list Round.t) :
  Forall (fun r => excess_players_round mapName r = Ok (Some r)) rs ->
  for_each (excess_players_step mapName) rs acc = Ok (acc ++ rs).
Proof.
  intros H. revert acc. induction H as [| r rs Hr Hrs IH]; intros acc; simpl.
  - rewrite app_nil_r. reflexivity.
  - unfold excess_players_step at 1. rewrite Hr. cbn [bind].
    rewrite IH, <- app_assoc. reflexivity.
Qed.

(** What the filter stages leave. *)
Lemma stage_lists_cleaned (pf : bool) (mapName : string)
    (phases : list (string * list Z)) (rs0 rs : list Round.t) :
  stage_lists pf mapName phases rs0 = Ok rs ->
  Forall (cleaned_round pf) rs
  /\ (has_key "warmupChanged" phases = false -> rs = []).
Proof.
  unfold stage_lists. intros H.
  set (rs_a := if pf then filter has_frames rs0 else rs0) in H.
  set (rs_b := if has_key "warmupChanged" phases then filter live rs_a else [])
    in H.
  assert (Hb : Forall (fun r => live r = true) rs_b).
  { unfold rs_b. destruct (has_key "warmupChanged" phases);
      [apply Forall_filter_self | constructor]. }
  set (P := fun r => live r = true /\ knife_round_kept r = true
                     /\ time_ok r = true).
  assert (Hd : Forall P (filter time_ok (filter knife_round_kept rs_b))).
  { apply Forall_forall. intros r Hr. apply filter_In in Hr as [Hr Ht].
    apply filter_In in Hr as [Hr Hk]. rewrite Forall_forall in Hb.
    repeat split; auto. }
  set (Q := fun r => (pf = true -> accepted r = true) /\ P r).
  destruct (if pf
            then for_each (excess_players_step mapName)
                          (filter time_ok (filter knife_round_kept rs_b)) []
            else Ok (filter time_ok (filter knife_round_kept rs_b)))
    as [rs_e |] eqn:He; cbn [bind] in H; [| discriminate H].
  assert (Hq : Forall Q rs_e).
  { destruct pf.
    - apply (excess_players_loop_kept mapName P Q
               (filter time_ok (filter knife_round_kept rs_b)) [] rs_e);
        [| exact Hd | constructor | exact He].
      intros r r' Hround (Hl & Hk & Ht).
      destruct (excess_players_round_kept _ _ _ Hround) as [Hp Hacc].
      destruct (same_profile_tests r r' Hp) as (El & Ek & Et & _ & _).
      split; [intros _; exact Hacc |]. repeat split; congruence.
    - injection He as <-. eapply Forall_impl; [| exact Hd].
      intros r HP. split; [discriminate | exact HP]. }
  injection H as <-. split.
  - apply Forall_select_from. apply Forall_forall. intros r Hr.
    apply filter_In in Hr as [Hr He'']. apply filter_In in Hr as [Hr Hk''].
    rewrite Forall_forall in Hq. destruct (Hq r Hr) as (Ha & Hl & Hk & Ht).
    repeat split; assumption.
  - intros Hno. unfold rs_b in He. rewrite Hno in He. simpl in He.
    destruct pf; simpl in He; injection He as <-; reflexivity.
Qed.

Lemma set_roundNum_same (n : Z) (r : Round.t) :
  Round.roundNum r = n -> Round.set_roundNum n r = r.
Proof. intros <-. destruct r. reflexivity. Qed.

Lemma set_globalFrameID_same (n : Z) (f : Frame.t) :
  Frame.globalFrameID f = n -> Frame.set_globalFrameID n f = f.
Proof. intros <-. destruct f. reflexivity. Qed.

Lemma set_frames_same (fs : option (list Frame.t)) (r : Round.t) :
  Round.frames r = fs -> Round.set_frames fs r = r.
Proof. intros <-. destruct r. reflexivity. Qed.

Lemma renumber_round_list_fixed (k : nat) (rs : list Round.t) :
  map Round.roundNum rs = map Z.of_nat (seq (S k) (length rs)) ->
  map (fun ir => Round.set_roundNum (fst ir + 1) (snd ir))
      (combine (map Z.of_nat (seq k (length rs))) rs)
  = rs.
Proof.
  revert k. induction rs as [| r rs IH]; intros k H; simpl in *.
  - reflexivity.
  - injection H as Hr Hrs. f_equal.
    + apply set_roundNum_same. lia.
    + apply IH. exact Hrs.
Qed.

Lemma renumber_frame_list_fixed (k : Z) (fs : list Frame.t) :
  map Frame.globalFrameID fs = count_from k (length fs) ->
  renumber_frame_list k fs = (fs, k + len fs).
Proof.
  revert k. induction fs as [| f fs IH]; intros k H; simpl in *.
  - unfold len. simpl. f_equal. lia.
  - injection H as Hf Hfs. rewrite (IH (k + 1) Hfs).
    rewrite (set_globalFrameID_same k f Hf). f_equal.
    unfold len. simpl length. lia.
Qed.

Lemma app_same_length {A : Type} (l1 l1' l2 l2' : list A) :
  l1 ++ l2 = l1' ++ l2' -> length l1 = length l1' -> l1 = l1' /\ l2 = l2'.
Proof.
  revert l1'. induction l1 as [| a l1 IH]; intros [| a' l1'] H Hlen;
    simpl in *; try discriminate.
  - split; [reflexivity | exact H].
  - injection H as -> H. injection Hlen as Hlen.
    destruct (IH l1' H Hlen) as [-> ->]. split; reflexivity.
Qed.

Lemma count_from_length (k : Z) (n : nat) : length (count_from k n) = n.
Proof.
  revert k. induction n as [| n IH]; intros k; simpl; [| rewrite IH]; reflexivity.
Qed.

Lemma renumber_frames_from_fixed (k : Z) (rs : list Round.t) :
  map Frame.globalFrameID (all_frames rs) = count_from k (length (all_frames rs)) ->
  renumber_frames_from k rs = rs.
Proof.
  revert k. induction rs as [| r rs IH]; intros k H; simpl in *.
  - reflexivity.
  - destruct (Round.frames r) as [fs |] eqn:Hfs; simpl in H.
    + rewrite map_app, length_app, count_from_app in H.
      apply app_same_length in H as [H1 H2];
        [| rewrite length_map, count_from_length; reflexivity].
      rewrite (renumber_frame_list_fixed k fs H1).
      rewrite (set_frames_same (Some fs) r Hfs). f_equal.
      apply IH. exact H2.
    + f_equal. apply IH. exact H.
Qed.

(** Renumbering a renumbered round list changes nothing. *)
Lemma renumber_fixed (rs : list Round.t) : renumber (renumber rs) = renumber rs.
Proof.
  unfold renumber at 1.
  destruct (renumber_frames_from_spec 0 (renumber_round_list rs))
    as (Hids & Hnum & Hrest).
  fold (renumber rs) in Hids, Hnum, Hrest.
  assert (Hlen : length (renumber rs) = length rs).
  { apply (f_equal (@length _)) in Hnum. rewrite !length_map in Hnum.
    rewrite Hnum. apply renumber_round_list_length. }
  assert (Hrounds : renumber_round_list (renumber rs) = renumber rs).
  { apply (renumber_round_list_fixed 0).
    rewrite Hnum, renumber_round_list_roundNum, Hlen. reflexivity. }
  rewrite Hrounds. apply renumber_frames_from_fixed.
  rewrite Hids. f_equal. symmetry. apply all_frames_unnumbered. exact Hrest.
Qed.

Lemma accepted_has_frames (r : Round.t) :
  accepted r = true -> has_frames r = true.
Proof.
  intros H. apply accepted_iff in H. destruct H as [[H _] _].
  unfold has_frames. unfold player_list, player_lists, len in H.
  destruct (Round.frames r) as [[| f fs] |]; simpl in *; try lia. reflexivity.
Qed.

(** The filter stages leave a cleaned round list alone when the side
    correction and the score checker do. *)
Lemma stage_lists_fixed (pf : bool) (mapName : string)
    (phases : list (string * list Z)) (rs : list Round.t) :
  Forall (cleaned_round pf) rs ->
  (has_key "warmupChanged" phases = false -> rs = []) ->
  Forall (sides_agree mapName) rs ->
  select (bad_scoring_keeps rs) rs = rs ->
  stage_lists pf mapName phases rs = Ok rs.
Proof.
  intros Hclean Hmark Hagree Hscore. unfold stage_lists.
  assert (Ha : (if pf then filter has_frames rs else rs) = rs).
  { destruct pf; [| reflexivity]. apply filter_all.
    eapply Forall_impl; [| exact Hclean].
    intros r (Hacc & _). apply accepted_has_frames. apply Hacc. reflexivity. }
  rewrite Ha.
  assert (Hb : (if has_key "warmupChanged" phases then filter live rs else []) = rs).
  { destruct (has_key "warmupChanged" phases).
    - apply filter_all. eapply Forall_impl; [| exact Hclean].
      intros r (_ & H & _). exact H.
    - symmetry. apply Hmark. reflexivity. }
  rewrite Hb.
  rewrite (filter_all knife_round_kept rs)
    by (eapply Forall_impl; [| exact Hclean]; intros r (_ & _ & H & _); exact H).
  rewrite (filter_all time_ok rs)
    by (eapply Forall_impl; [| exact Hclean]; intros r (_ & _ & _ & H & _); exact H).
  assert (He : (if pf then for_each (excess_players_step mapName) rs []
                else Ok rs) = Ok rs).
  { destruct pf; [| reflexivity].
    rewrite excess_players_loop_fixed; [reflexivity |].
    rewrite Forall_forall in *. intros r Hr.
    apply excess_players_round_balanced; [| apply Hagree; exact Hr].
    destruct (Hclean r Hr) as (Hacc & _). apply Hacc. reflexivity. }
  rewrite He. cbn [bind].
  rewrite (filter_all kills_ok rs)
    by (eapply Forall_impl; [| exact Hclean];
        intros r (_ & _ & _ & _ & H & _); exact H).
  rewrite (filter_all ending_ok rs)
    by (eapply Forall_impl; [| exact Hclean];
        intros r (_ & _ & _ & _ & _ & H); exact H).
  rewrite Hscore. reflexivity.
Qed.

(** C9 (amended).  Let [p1] be the result of a first run of [clean_rounds]
    with every stage enabled.  If every first-frame player of [p1] carries the
    side that [get_player_side] infers and the score consistency checker
    rejects no round of [p1], then a second run, every stage enabled, returns
    [p1] itself: no round or player is removed, no side is switched, and the
    round numbers and global frame identifiers stay as they are. *)
Theorem clean_rounds_second_run (p p1 : DemoParser) (g1 : Game.t) :
  clean_rounds default_args p = Ok p1 ->
  json p1 = Some g1 ->
  Forall (sides_agree (Game.mapName g1)) (rounds_of p1) ->
  remove_bad_scoring p1 = Ok p1 ->
  clean_rounds default_args p1 = Ok p1.
Proof.
  intros Hfirst Hj Hagree Hscore.
  destruct p as [pf [[mapName phases rounds] |]]; [| discriminate Hfirst].
  change (mkParser pf (Some (Game.mk mapName phases rounds)))
    with (state pf mapName phases rounds) in Hfirst.
  rewrite clean_rounds_state in Hfirst.
  destruct (stage_lists pf mapName phases (or_empty rounds)) as [rs |] eqn:Hstages;
    cbn [bind] in Hfirst; [| discriminate Hfirst].
  injection Hfirst as <-. cbn [json state] in Hj. injection Hj as <-.
  cbn [Game.mapName rounds_of json state Game.gameRounds or_empty] in Hagree.
  rewrite bad_scoring_state in Hscore. injection Hscore as Hscore.
  destruct (stage_lists_cleaned _ _ _ _ _ Hstages) as [Hclean Hmark].
  rewrite clean_rounds_state. cbn [or_empty].
  rewrite stage_lists_fixed.
  - cbn [bind]. rewrite renumber_fixed. reflexivity.
  - eapply unnumbered_Forall; [| apply renumber_unnumbered | exact Hclean].
    intros r r'. apply unnumbered_cleaned.
  - intros Hno. rewrite (Hmark Hno). reflexivity.
  - exact Hagree.
  - exact Hscore.
Qed.

(** The second run on the steady match. *)
Lemma clean_rounds_second_run_witness :
  exists p1,
    clean_rounds default_args steady_match = Ok p1
    /\ map Round.roundNum (rounds_of p1) = [1; 2; 3]
    /\ clean_rounds default_args p1 = Ok p1.
Proof.
  eexists. split; [vm_compute; reflexivity |]. split; [reflexivity |].
  eapply (clean_rounds_second_run steady_match).
  - vm_compute. reflexivity.
  - reflexivity.
  - unfold sides_agree. simpl. repeat constructor.
  - vm_compute. reflexivity.
Defined.

(** * Further properties of the code *)

(** ** A null round list *)

(** X13.  [clean_rounds] on a loaded record whose [gameRounds] is [null]
    completes; the round list of the result is the empty list as soon as one
    of the stages that read [gameRounds or []] runs (the no-frames filter and
    the roster normaliser when frames are parsed, the warmup, timing and
    excess-kill filters), and stays [null] otherwise: the knife, end-reason
    and score stages and the two renumbering passes return on a null list. *)
Theorem clean_rounds_null_round_list (a : CleanArgs) (pf : bool)
    (mapName : string) (phases : list (string * list Z)) :
  clean_rounds a (state pf mapName phases None)
  = Ok (state pf mapName phases
          (if stores_a_list pf a then Some [] else None)).
Proof.
  destruct a as [a1 a2 a3 a4 a5 a6 a7 a8].
  unfold clean_rounds, filter_stages, when, with_json, stores_a_list.
  cbn [json state arg_remove_no_frames arg_remove_warmups arg_remove_knifes
       arg_remove_bad_timings arg_remove_excess_players arg_remove_excess_kills
       arg_remove_bad_endings arg_remove_bad_scoring].
  destruct pf, a1; cbn [andb orb];
    rewrite ?no_frames_state; cbn [bind or_empty filter];
    destruct a2; cbn [andb orb];
    rewrite ?warmups_state; cbn [bind or_empty filter];
    try (destruct (has_key "warmupChanged" phases));
    destruct a3, a4, a5, a6, a7, a8; reflexivity.
Qed.

(** ** Rounds without frames *)

Lemma excess_players_round_no_frames (mapName : string) (r : Round.t) :
  has_frames r = false -> excess_players_round mapName r = Ok None.
Proof.
  unfold has_frames, excess_players_round.
  destruct (Round.frames r) as [[| f fs] |]; simpl; intros H;
    [reflexivity | discriminate H | reflexivity].
Qed.

Lemma excess_players_loop_no_frames (mapName : string) (rs acc : list Round.t) :
  for_each (excess_players_step mapName) (filter has_frames rs) acc
  = for_each (excess_players_step mapName) rs acc.
Proof.
  revert acc. induction rs as [| r rs IH]; intros acc; simpl.
  - reflexivity.
  - destruct (has_frames r) eqn:Hr; simpl.
    + destruct (excess_players_step mapName r acc); cbn [bind];
        [apply IH | reflexivity].
    + unfold excess_players_step at 2.
      rewrite (excess_players_round_no_frames mapName r Hr). cbn [bind].
      apply IH.
Qed.

(** X16.  [remove_excess_players] drops the rounds without frames itself
    ([if not game_round["frames"]: continue]): running
    [remove_rounds_with_no_frames] before it gives the same parser state, or
    the same exception, as running [remove_excess_players] alone. *)
Theorem remove_excess_players_subsumes_no_frames (p : DemoParser) :
  bind (remove_rounds_with_no_frames p) remove_excess_players
  = remove_excess_players p.
Proof.
  destruct p as [pf [[mapName phases rounds] |]]; [| reflexivity].
  change (mkParser pf (Some (Game.mk mapName phases rounds)))
    with (state pf mapName phases rounds).
  rewrite no_frames_state. cbn [bind]. destruct pf.
  - rewrite excess_players_state.
    unfold remove_excess_players, with_json. cbn [json state parse_frames negb].
    cbn [Game.mapName Game.gameRounds].
    rewrite excess_players_loop_no_frames.
    destruct (for_each (excess_players_step mapName) (or_empty rounds) []);
      reflexivity.
  - reflexivity.
Qed.

(** ** Maps without a position rule *)

Lemma get_player_side_unlisted (player : Player.t) (mapName : string) :
  string_in mapName position_maps = false ->
  get_player_side player mapName = Player.side player.
Proof.
  intros H. unfold get_player_side. unfold position_maps in H.
  rewrite H. reflexivity.
Qed.

(** X15.  On a map that is not one of the seven with a position rule,
    [get_player_side] returns the reported side, no player is put in
    [switchedPlayers], and the side correction of [remove_excess_players]
    leaves every round as it is. *)
Theorem force_sides_unlisted_map (mapName : string) (r : Round.t) :
  string_in mapName position_maps = false ->
  switchedPlayers mapName r = [] /\ force_sides mapName r = Ok r.
Proof.
  intros H.
  assert (Hs : switchedPlayers mapName r = []).
  { apply switchedPlayers_agree. unfold sides_agree.
    apply Forall_forall. intros player _.
    apply get_player_side_unlisted. exact H. }
  split; [exact Hs |]. unfold force_sides. rewrite Hs. reflexivity.
Qed.

(** The statement on de_dust2 for a round of the restarted match. *)
Lemma force_sides_unlisted_map_witness :
  switchedPlayers "de_dust2" (scored_round 0 0 1 0) = []
  /\ force_sides "de_dust2" (scored_round 0 0 1 0) = Ok (scored_round 0 0 1 0).
Proof.
  apply (force_sides_unlisted_map "de_dust2" (scored_round 0 0 1 0)).
  reflexivity.
Defined.

(** ** Roster bound *)

(** X4.  When [remove_excess_players] completes with frames parsed, every
    round it leaves has frames and between 3 and 5 players on each side of its
    first frame. *)
Theorem remove_excess_players_roster_bound (p p' : DemoParser) :
  parse_frames p = true ->
  remove_excess_players p = Ok p' ->
  Forall (fun r =>
            has_frames r = true
            /\ 3 <= len (player_list key_t r) <= 5
            /\ 3 <= len (player_list key_ct r) <= 5)
         (rounds_of p').
Proof.
  intros Hpf H.
  destruct p as [pf [[mapName phases rounds] |]]; [| discriminate H].
  cbn [parse_frames] in Hpf. subst pf.
  change (mkParser true (Some (Game.mk mapName phases rounds)))
    with (state true mapName phases rounds) in H.
  unfold remove_excess_players, with_json in H.
  cbn [json state parse_frames negb Game.mapName Game.gameRounds] in H.
  destruct (for_each (excess_players_step mapName) (or_empty rounds) [])
    as [rs' |] eqn:Hloop; cbn [bind] in H; [| discriminate H].
  injection H as <-. cbn [rounds_of json store_rounds Game.set_gameRounds
                          Game.gameRounds or_empty].
  apply (excess_players_loop_kept mapName (fun _ => True)
           (fun r => has_frames r = true
                     /\ 3 <= len (player_list key_t r) <= 5
                     /\ 3 <= len (player_list key_ct r) <= 5)
           (or_empty rounds) [] rs'); [| | constructor | exact Hloop].
  - intros r r' Hround _.
    destruct (excess_players_round_kept _ _ _ Hround) as [_ Hacc].
    split; [apply accepted_has_frames; exact Hacc |].
    apply accepted_iff. exact Hacc.
  - apply Forall_forall. intros; exact I.
Qed.

(** The bound on the restarted match: its five rounds all stay. *)
Lemma remove_excess_players_roster_bound_witness :
  exists p',
    remove_excess_players restarted_match = Ok p'
    /\ length (rounds_of p') = 5%nat
    /\ Forall (fun r =>
                 has_frames r = true
                 /\ 3 <= len (player_list key_t r) <= 5
                 /\ 3 <= len (player_list key_ct r) <= 5)
              (rounds_of p').
Proof.
  eexists. split; [vm_compute; reflexivity |]. split; [reflexivity |].
  eapply (remove_excess_players_roster_bound restarted_match).
  - reflexivity.
  - vm_compute. reflexivity.
Defined.

(** ** Score checker on a regular match *)

Lemma select_from_all {A : Type} (keep : nat -> bool) (k : nat) (l : list A) :
  (forall j, (j < length l)%nat -> keep (k + j)%nat = true) ->
  select_from keep k l = l.
Proof.
  revert k. induction l as [| a l IH]; intros k H; simpl.
  - reflexivity.
  - rewrite <- (Nat.add_0_r k) at 1. rewrite (H 0%nat) by (simpl; lia).
    f_equal. apply IH. intros j Hj.
    replace (S k + j)%nat with (k + S j)%nat by lia. apply H. simpl. lia.
Qed.

Lemma store_rounds_same (p : DemoParser) (g : Game.t) (rs : list Round.t) :
  json p = Some g -> Game.gameRounds g = Some rs -> store_rounds p g rs = p.
Proof.
  destruct p as [pf j], g as [mapName phases rounds]. simpl.
  intros -> ->. reflexivity.
Qed.

Lemma bad_scoring_keeps_increasing (rs : list Round.t) (i : nat) :
  (2 <= length rs)%nat -> increasing_totals rs -> (i < length rs)%nat ->
  bad_scoring_keeps rs i = true.
Proof.
  intros Hlen Hinc Hi. unfold bad_scoring_keeps.
  destruct (nth_error rs i) as [r |] eqn:Hr.
  2:{ apply nth_error_None in Hr. lia. }
  destruct (Nat.ltb_spec (S i) (length rs)) as [Hnext | Hlast].
  - destruct (nth_error rs (S i)) as [next |] eqn:Hn.
    2:{ apply nth_error_None in Hn. lia. }
    apply orb_true_iff. left. apply Z.ltb_lt. apply (Hinc i r next Hr Hn).
  - destruct i as [| i']; [lia |].
    replace (S i' - 1)%nat with i' by lia.
    destruct (nth_error rs i') as [prev |] eqn:Hp.
    2:{ apply nth_error_None in Hp. lia. }
    apply Z.ltb_lt. apply (Hinc i' prev r Hp Hr).
Qed.

(** X10.  A match of at least two rounds whose totals
    [tScore + endTScore + ctScore + endCTScore] grow strictly from each round
    to the next (as they do when every round adds one point) goes through
    [remove_bad_scoring] unchanged. *)
Theorem remove_bad_scoring_keeps_regular_match (p : DemoParser) (g : Game.t)
    (rs : list Round.t) :
  json p = Some g ->
  Game.gameRounds g = Some rs ->
  (2 <= length rs)%nat ->
  increasing_totals rs ->
  remove_bad_scoring p = Ok p.
Proof.
  intros Hj Hr Hlen Hinc.
  rewrite (remove_bad_scoring_select p g rs Hj Hr).
  unfold select. rewrite select_from_all.
  - rewrite (store_rounds_same p g rs Hj Hr). reflexivity.
  - intros j Hj'. apply bad_scoring_keeps_increasing; assumption.
Qed.

(** The steady match: totals 1, 3, 5. *)
Lemma remove_bad_scoring_keeps_regular_match_witness :
  remove_bad_scoring steady_match = Ok steady_match.
Proof.
  apply (remove_bad_scoring_keeps_regular_match steady_match
           (Game.mk "de_dust2" [("warmupChanged"%string, [0; 50])]
              (Some [scored_round 0 0 1 0; scored_round 1 0 2 0;
                     scored_round 2 0 2 1]))
           [scored_round 0 0 1 0; scored_round 1 0 2 0; scored_round 2 0 2 1]).
  - reflexivity.
  - reflexivity.
  - simpl. lia.
  - intros i a b Ha Hb.
    destruct i as [| [| [| i]]]; simpl in Ha, Hb;
      try discriminate; injection Ha as <-; injection Hb as <-;
      vm_compute; reflexivity.
Defined.

(** ** The two renumbering passes *)

Lemma renumber_rounds_state pf mapName phases rounds :
  renumber_rounds (state pf mapName phases rounds)
  = Ok (state pf mapName phases (option_map renumber_round_list rounds)).
Proof. destruct rounds; reflexivity. Qed.

Lemma renumber_frames_state pf mapName phases rounds :
  renumber_frames (state pf mapName phases rounds)
  = Ok (state pf mapName phases (option_map (renumber_frames_from 0) rounds)).
Proof. destruct rounds; reflexivity. Qed.

Lemma renumber_frames_from_length (index : Z) (rs : list Round.t) :
  length (renumber_frames_from index rs) = length rs.
Proof.
  revert index. induction rs as [| r rs IH]; intros index; simpl.
  - reflexivity.
  - destruct (Round.frames r) as [fs |].
    + destruct (renumber_frame_list index fs) as [fs' index']. simpl.
      rewrite IH. reflexivity.
    + simpl. rewrite IH. reflexivity.
Qed.

Lemma renumber_frames_from_numbered (index : Z) (k : nat) (rs : list Round.t) :
  renumber_frames_from index
    (map (fun ir => Round.set_roundNum (fst ir + 1) (snd ir))
         (combine (map Z.of_nat (seq k (length rs))) rs))
  = map (fun ir => Round.set_roundNum (fst ir + 1) (snd ir))
        (combine (map Z.of_nat (seq k (length (renumber_frames_from index rs))))
                 (renumber_frames_from index rs)).
Proof.
  revert index k. induction rs as [| r rs IH]; intros index k.
  - reflexivity.
  - cbn [length seq map combine renumber_frames_from fst snd].
    cbn [Round.frames Round.set_roundNum].
    destruct (Round.frames r) as [fs |].
    + destruct (renumber_frame_list index fs) as [fs' index'].
      cbn [length seq map combine fst snd]. f_equal. apply IH.
    + cbn [length seq map combine fst snd]. f_equal. apply IH.
Qed.

Lemma renumber_passes_commute (rs : list Round.t) :
  renumber_frames_from 0 (renumber_round_list rs)
  = renumber_round_list (renumber_frames_from 0 rs).
Proof. apply (renumber_frames_from_numbered 0 0 rs). Qed.

Lemma renumber_round_list_twice (rs : list Round.t) :
  renumber_round_list (renumber_round_list rs) = renumber_round_list rs.
Proof.
  apply (renumber_round_list_fixed 0).
  rewrite renumber_round_list_roundNum, renumber_round_list_length. reflexivity.
Qed.

Lemma renumber_frames_from_twice (rs : list Round.t) :
  renumber_frames_from 0 (renumber_frames_from 0 rs) = renumber_frames_from 0 rs.
Proof.
  destruct (renumber_frames_from_spec 0 rs) as (Hids & _ & Hrest).
  apply renumber_frames_from_fixed. rewrite Hids. f_equal. symmetry.
  apply all_frames_unnumbered. exact Hrest.
Qed.

(** X12.  [renumber_rounds] and [renumber_frames] can be run in either order
    with the same result, and running either of them a second time changes
    nothing; without a loaded record every combination raises
    [AttributeError]. *)
Theorem renumbering_passes_compose (p : DemoParser) :
  bind (renumber_rounds p) renumber_frames
  = bind (renumber_frames p) renumber_rounds
  /\ bind (renumber_rounds p) renumber_rounds = renumber_rounds p
  /\ bind (renumber_frames p) renumber_frames = renumber_frames p.
Proof.
  destruct p as [pf [[mapName phases rounds] |]]; [| repeat split].
  change (mkParser pf (Some (Game.mk mapName phases rounds)))
    with (state pf mapName phases rounds).
  rewrite !renumber_rounds_state, !renumber_frames_state. cbn [bind].
  rewrite !renumber_rounds_state, !renumber_frames_state.
  destruct rounds as [rs |]; cbn [option_map]; [| repeat split].
  rewrite renumber_passes_commute, renumber_round_list_twice,
    renumber_frames_from_twice.
  repeat split.
Qed.

(** ** The scalar filters compose freely *)

Lemma filter_swap {A : Type} (f g : A -> bool) (l : list A) :
  filter f (filter g l) = filter g (filter f l).
Proof.
  induction l as [| a l IH]; simpl; [reflexivity |].
  destruct (g a) eqn:Hg, (f a) eqn:Hf; simpl; rewrite ?Hg, ?Hf, IH; reflexivity.
Qed.

Lemma filter_twice {A : Type} (f : A -> bool) (l : list A) :
  filter f (filter f l) = filter f l.
Proof. apply filter_all. apply Forall_filter_self. Qed.

Lemma act_swap (k1 k2 : list_action) (rounds : option (list Round.t)) :
  act k1 (act k2 rounds) = act k2 (act k1 rounds).
Proof.
  destruct k1 as [f | f | |], k2 as [g | g | |], rounds as [rs |]; simpl;
    try reflexivity; try (f_equal; apply filter_swap).
Qed.

Lemma act_twice (k : list_action) (rounds : option (list Round.t)) :
  act k (act k rounds) = act k rounds.
Proof.
  destruct k as [f | f | |], rounds as [rs |]; simpl;
    try reflexivity; f_equal; apply filter_twice.
Qed.

Lemma scalar_filter_action (bad_endings : option (list string))
    (F : DemoParser -> result DemoParser) (pf : bool) (mapName : string)
    (phases : list (string * list Z)) :
  In F (scalar_filters bad_endings) ->
  (forall pf', F (mkParser pf' None) = Raise AttributeError)
  /\ exists k, forall rounds,
       F (state pf mapName phases rounds)
       = Ok (state pf mapName phases (act k rounds)).
Proof.
  intros [<- | [<- | [<- | [<- | [<- | [<- | []]]]]]];
    (split; [intros pf'; reflexivity |]).
  - exists (if pf then Normalising has_frames else Skip).
    intros rounds. rewrite no_frames_state. destruct pf; reflexivity.
  - exists (if has_key "warmupChanged" phases then Normalising live else Wipe).
    intros rounds. rewrite warmups_state.
    destruct (has_key "warmupChanged" phases); reflexivity.
  - exists (Lenient knife_round_kept). intros [rs |]; reflexivity.
  - exists (Normalising time_ok). intros rounds. reflexivity.
  - exists (Normalising kills_ok). intros rounds. reflexivity.
  - exists (Lenient
              (fun r => negb (string_in (Round.roundEndReason r)
                                        match bad_endings with
                                        | None => default_bad_endings
                                        | Some l => l
                                        end))).
    intros [rs |]; reflexivity.
Qed.

(** X11.  Any two of the six scalar filters (no frames, warmup, knife, timing,
    excess kills, end reason with any blacklist) can be run in either order
    with the same result, and running one of them a second time changes
    nothing; without a loaded record each raises [AttributeError]. *)
Theorem scalar_filters_compose (bad_endings : option (list string))
    (F G : DemoParser -> result DemoParser) (p : DemoParser) :
  In F (scalar_filters bad_endings) ->
  In G (scalar_filters bad_endings) ->
  bind (F p) G = bind (G p) F
  /\ bind (F p) F = F p
  /\ (json p = None -> F p = Raise AttributeError).
Proof.
  intros HF HG.
  destruct p as [pf [[mapName phases rounds] |]].
  - change (mkParser pf (Some (Game.mk mapName phases rounds)))
      with (state pf mapName phases rounds).
    destruct (scalar_filter_action bad_endings F pf mapName phases HF)
      as [_ [kF HkF]].
    destruct (scalar_filter_action bad_endings G pf mapName phases HG)
      as [_ [kG HkG]].
    rewrite !HkF, !HkG. cbn [bind]. rewrite !HkF, !HkG.
    rewrite act_swap, act_twice. repeat split. discriminate.
  - destruct (scalar_filter_action bad_endings F pf EmptyString [] HF)
      as [HnF _].
    destruct (scalar_filter_action bad_endings G pf EmptyString [] HG)
      as [HnG _].
    rewrite !HnF, !HnG. repeat split.
Qed.

(** The timing filter and the end-reason filter on the restarted match. *)
Lemma scalar_filters_compose_witness :
  bind (remove_time_rounds restarted_match) (remove_end_round None)
  = bind (remove_end_round None restarted_match) remove_time_rounds
  /\ bind (remove_time_rounds restarted_match) remove_time_rounds
     = remove_time_rounds restarted_match
  /\ (json restarted_match = None ->
      remove_time_rounds restarted_match = Raise AttributeError).
Proof.
  apply (scalar_filters_compose None remove_time_rounds (remove_end_round None)
           restarted_match).
  - simpl. tauto.
  - simpl. tauto.
Defined.

Lemma filter_implied {A : Type} (f g : A -> bool) (l : list A) :
  (forall a, g a = true -> f a = true) -> filter f (filter g l) = filter g l.
Proof.
  intros H. apply filter_all. apply Forall_forall. intros a Ha.
  apply filter_In in Ha. apply H. tauto.
Qed.

(** X18.  [remove_excess_kill_rounds] and [remove_knife_rounds] drop every
    warmup round themselves.  When the record has the ["warmupChanged"] key,
    running [remove_warmups] after [remove_excess_kill_rounds] changes
    nothing, on every parser state; running it after [remove_knife_rounds]
    changes nothing exactly when the round list is not null: on a null list
    the knife filter returns at once and leaves [null], which
    [remove_warmups] then replaces by the empty list.  Without a loaded
    record all of them raise [AttributeError].  No round that either filter
    leaves is a warmup round. *)
Theorem remove_warmups_after_kill_filters (p : DemoParser) :
  (forall g, json p = Some g ->
             has_key "warmupChanged" (Game.matchPhases g) = true) ->
  bind (remove_excess_kill_rounds p) remove_warmups = remove_excess_kill_rounds p
  /\ (bind (remove_knife_rounds p) remove_warmups = remove_knife_rounds p
      <-> forall g, json p = Some g -> Game.gameRounds g <> None)
  /\ (json p = None ->
      remove_excess_kill_rounds p = Raise AttributeError
      /\ remove_knife_rounds p = Raise AttributeError
      /\ remove_warmups p = Raise AttributeError)
  /\ (forall p', remove_excess_kill_rounds p = Ok p'
                 \/ remove_knife_rounds p = Ok p' ->
                 Forall (fun r => Round.isWarmup r = false) (rounds_of p')).
Proof.
  intros Hkey.
  assert (Hkills : forall r, kills_ok r = true -> live r = true).
  { intros r Hr. unfold kills_ok in Hr. apply andb_true_iff in Hr as [Hr _].
    exact Hr. }
  assert (Hknife : forall r, knife_round_kept r = true -> live r = true).
  { intros r Hr. unfold knife_round_kept in Hr. unfold live.
    destruct (Round.isWarmup r); [discriminate Hr | reflexivity]. }
  assert (Hlive : forall (f : Round.t -> bool) l,
             (forall r, f r = true -> live r = true) ->
             Forall (fun r => Round.isWarmup r = false) (filter f l)).
  { intros f l Hf. apply Forall_forall. intros r Hr.
    apply filter_In in Hr as [_ Hr]. apply Hf in Hr. unfold live in Hr.
    apply negb_true_iff in Hr. exact Hr. }
  destruct p as [pf [[mapName phases rounds] |]].
  - specialize (Hkey _ eq_refl). cbn [Game.matchPhases] in Hkey.
    change (mkParser pf (Some (Game.mk mapName phases rounds)))
      with (state pf mapName phases rounds).
    assert (Hex : remove_excess_kill_rounds (state pf mapName phases rounds)
                  = Ok (state pf mapName phases
                          (Some (filter kills_ok (or_empty rounds)))))
      by reflexivity.
    split; [| split; [| split]].
    + rewrite Hex. cbn [bind]. rewrite warmups_state, Hkey. cbn [or_empty].
      rewrite (filter_implied live kills_ok _ Hkills). reflexivity.
    + destruct rounds as [rs |].
      * rewrite knife_state. cbn [bind]. rewrite warmups_state, Hkey.
        cbn [or_empty].
        rewrite (filter_implied live knife_round_kept _ Hknife).
        split; [| reflexivity]. intros _ g Hg. injection Hg as <-.
        discriminate.
      * split.
        -- intros H. exfalso.
           change (remove_knife_rounds (state pf mapName phases None))
             with (Ok (state pf mapName phases None)) in H.
           cbn [bind] in H. rewrite warmups_state, Hkey in H. discriminate H.
        -- intros H. exfalso. apply (H _ eq_refl). reflexivity.
    + discriminate.
    + intros p' [H | H].
      * rewrite Hex in H. injection H as <-. apply Hlive. exact Hkills.
      * destruct rounds as [rs |].
        -- rewrite knife_state in H. injection H as <-. apply Hlive.
           exact Hknife.
        -- cbn in H. injection H as <-. constructor.
  - split; [reflexivity |]. split; [| split].
    + split; [discriminate | reflexivity].
    + intros _. repeat split.
    + intros p' [H | H]; discriminate H.
Qed.

(** A record with the key, a warmup round with a kill, a round with a knife
    kill only and a live round with a rifle kill: both filters drop the
    warmup round and [remove_warmups] has nothing left to do. *)
Lemma remove_warmups_after_kill_filters_witness :
  let warmup :=
    Round.mk 1 true 0 10 100 110 0 0 0 0 "TargetBombed"
      (Team.mk "Team A" []) (Team.mk "Team B" []) None
      (Some [Kill.mk 1 "T" 6 "CT" "AK-47"]) (Some []) (Some []) (Some [])
      (Some []) in
  let knife := sample_round 0 0 1 0 None (Some [Kill.mk 1 "T" 6 "CT" "Knife"]) in
  let rifle := sample_round 1 0 2 0 None (Some [Kill.mk 1 "T" 6 "CT" "AK-47"]) in
  let p := sample_parser "de_dust2" [("warmupChanged"%string, [0; 50])]
             [warmup; knife; rifle] in
  (bind (remove_excess_kill_rounds p) remove_warmups = remove_excess_kill_rounds p
   /\ (bind (remove_knife_rounds p) remove_warmups = remove_knife_rounds p
       <-> forall g, json p = Some g -> Game.gameRounds g <> None)
   /\ (json p = None ->
       remove_excess_kill_rounds p = Raise AttributeError
       /\ remove_knife_rounds p = Raise AttributeError
       /\ remove_warmups p = Raise AttributeError)
   /\ (forall p', remove_excess_kill_rounds p = Ok p'
                  \/ remove_knife_rounds p = Ok p' ->
                  Forall (fun r => Round.isWarmup r = false) (rounds_of p')))
  /\ rounds_of_result (remove_excess_kill_rounds p) = Some [knife; rifle]
  /\ rounds_of_result (remove_knife_rounds p) = Some [rifle].
Proof.
  cbv zeta. split; [| split; reflexivity].
  apply (remove_warmups_after_kill_filters
           (sample_parser "de_dust2" [("warmupChanged"%string, [0; 50])]
              [Round.mk 1 true 0 10 100 110 0 0 0 0 "TargetBombed"
                 (Team.mk "Team A" []) (Team.mk "Team B" []) None
                 (Some [Kill.mk 1 "T" 6 "CT" "AK-47"]) (Some []) (Some [])
                 (Some []) (Some []);
               sample_round 0 0 1 0 None (Some [Kill.mk 1 "T" 6 "CT" "Knife"]);
               sample_round 1 0 2 0 None
                 (Some [Kill.mk 1 "T" 6 "CT" "AK-47"])])).
  intros g Hg. injection Hg as <-. reflexivity.
Defined.

(** ** The first dead player *)

(** X8.  On a round with frames, [findFirstDeadPlayer] returns [None] exactly
    when no frame lists a dead player on the given side, and a steamID it
    returns is the steamID of a player listed dead on that side in some
    frame; on a round whose frame list is null it raises [TypeError]. *)
Theorem findFirstDeadPlayer_finds_a_dead_player (r : Round.t) (side : side_key)
    (frames : list Frame.t) :
  Round.frames r = Some frames ->
  (findFirstDeadPlayer r side = Ok None <->
   forall frame player, In frame frames -> In player (frame_players side frame) ->
                        Player.isAlive player = true)
  /\ (forall d, findFirstDeadPlayer r side = Ok (Some d) ->
        exists frame player,
          In frame frames /\ In player (frame_players side frame)
          /\ Player.isAlive player = false /\ Player.steamID player = d)
  /\ findFirstDeadPlayer (Round.set_frames None r) side = Raise TypeError.
Proof.
  intros Hfs. rewrite (findFirstDeadPlayer_first_dead r side frames Hfs).
  split; [| split; [| reflexivity]].
  - destruct (find (fun player => negb (Player.isAlive player))
                   (flat_map (frame_players side) frames)) as [q |] eqn:Hfind;
      simpl.
    + split; [discriminate |]. intros Hall. exfalso.
      destruct (find_some _ _ Hfind) as [Hin Hq].
      apply in_flat_map in Hin as (frame & Hframe & Hin).
      rewrite (Hall frame q Hframe Hin) in Hq. discriminate Hq.
    + split; [| reflexivity]. intros _ frame player Hframe Hin.
      assert (Hflat : In player (flat_map (frame_players side) frames)).
      { apply in_flat_map. exists frame. split; assumption. }
      pose proof (find_none _ _ Hfind player Hflat) as Hq. simpl in Hq.
      apply negb_false_iff in Hq. exact Hq.
  - intros d H.
    destruct (find (fun player => negb (Player.isAlive player))
                   (flat_map (frame_players side) frames)) as [q |] eqn:Hfind;
      simpl in H; [| discriminate H].
    injection H as <-. destruct (find_some _ _ Hfind) as [Hin Hq].
    apply in_flat_map in Hin as (frame & Hframe & Hin).
    exists frame, q. repeat split; try assumption.
    apply negb_true_iff in Hq. exact Hq.
Qed.

(** A frame with one dead T player. *)
Lemma findFirstDeadPlayer_finds_a_dead_player_witness :
  let frame :=
    sample_frame [sample_player 1 "T" 10 20 0 true;
                  sample_player 2 "T" 30 40 0 false] [] in
  let r := sample_round 0 0 1 0 (Some [frame]) (Some []) in
  (findFirstDeadPlayer r key_t = Ok None <->
   forall f player, In f [frame] -> In player (frame_players key_t f) ->
                    Player.isAlive player = true)
  /\ (forall d, findFirstDeadPlayer r key_t = Ok (Some d) ->
        exists f player,
          In f [frame] /\ In player (frame_players key_t f)
          /\ Player.isAlive player = false /\ Player.steamID player = d)
  /\ findFirstDeadPlayer (Round.set_frames None r) key_t = Raise TypeError.
Proof.
  cbv zeta.
  apply (findFirstDeadPlayer_finds_a_dead_player
           (sample_round 0 0 1 0
              (Some [sample_frame [sample_player 1 "T" 10 20 0 true;
                                   sample_player 2 "T" 30 40 0 false] []])
              (Some []))
           key_t
           [sample_frame [sample_player 1 "T" 10 20 0 true;
                          sample_player 2 "T" 30 40 0 false] []]).
  reflexivity.
Defined.

(** ** Settings after the constructor *)

Lemma string_in_In (s : string) (l : list string) :
  string_in s l = true <-> In s l.
Proof.
  unfold string_in. rewrite existsb_exists. split.
  - intros (x & Hx & E). apply String.eqb_eq in E. subst x. exact Hx.
  - intros H. exists s. split; [exact H | apply String.eqb_refl].
Qed.

Lemma _check_trade_time_spec (a : FullParserArgs) :
  1 <= trade_time (_check_trade_time a)
  /\ parse_rate (_check_trade_time a) = parse_rate a
  /\ buy_style (_check_trade_time a) = buy_style a
  /\ (1 <= trade_time a -> _check_trade_time a = a).
Proof.
  unfold _check_trade_time. cbv zeta.
  destruct (Z.leb_spec (trade_time a) 0) as [H | H].
  - cbn. repeat split; lia.
  - destruct (7 <? trade_time a); repeat split; lia.
Qed.

Lemma _check_parse_rate_spec (a : FullParserArgs) :
  (exists n, parse_rate (_check_parse_rate a) = PyInt n /\ 1 <= n)
  /\ trade_time (_check_parse_rate a) = trade_time a
  /\ buy_style (_check_parse_rate a) = buy_style a
  /\ (forall n, parse_rate a = PyInt n -> 1 <= n -> _check_parse_rate a = a).
Proof.
  unfold _check_parse_rate. cbv zeta.
  destruct (parse_rate a) as [n |] eqn:Hrate.
  - destruct (Z.ltb_spec n 1) as [H | H].
    + cbn. repeat split.
      * exists 128. split; [reflexivity | lia].
      * intros m Hm Hm1. injection Hm as <-. lia.
    + assert (E : (if (1 <? n) && (n <? 64) then a
                   else if 256 <=? n then a else a) = a).
      { destruct ((1 <? n) && (n <? 64)), (256 <=? n); reflexivity. }
      rewrite E. repeat split.
      exists n. split; [exact Hrate | exact H].
  - cbn. repeat split.
    + exists 128. split; [reflexivity | lia].
    + intros m Hm. discriminate Hm.
Qed.

Lemma _check_buy_style_spec (allowed : list string) (a : FullParserArgs) :
  (In (buy_style (_check_buy_style allowed a)) allowed
   \/ buy_style (_check_buy_style allowed a) = "hltv"%string)
  /\ parse_rate (_check_buy_style allowed a) = parse_rate a
  /\ trade_time (_check_buy_style allowed a) = trade_time a
  /\ (In (buy_style a) allowed \/ buy_style a = "hltv"%string ->
      _check_buy_style allowed a = a).
Proof.
  unfold _check_buy_style.
  destruct (string_in (buy_style a) allowed) eqn:E; cbn [negb].
  - repeat split. left. apply string_in_In. exact E.
  - cbn. repeat split; [right; reflexivity |].
    intros [H | H].
    + apply string_in_In in H. congruence.
    + destruct a as [r t s]. cbn in H. subst s. reflexivity.
Qed.

(** X14.  After the three checks of the constructor the trade time is at
    least 1, the parse rate is an integer that is at least 1, and the buy
    style is one of the allowed ones or ["hltv"]; a setting that already was
    so is kept as given (a trade time above 7 and a parse rate below 64 or
    from 256 on only give a warning), and checking again changes nothing. *)
Theorem check_settings_valid (allowed : list string) (a : FullParserArgs) :
  let a' := check_settings allowed a in
  1 <= trade_time a'
  /\ (exists n, parse_rate a' = PyInt n /\ 1 <= n)
  /\ (In (buy_style a') allowed \/ buy_style a' = "hltv"%string)
  /\ (1 <= trade_time a -> trade_time a' = trade_time a)
  /\ (forall n, parse_rate a = PyInt n -> 1 <= n -> parse_rate a' = PyInt n)
  /\ (In (buy_style a) allowed -> buy_style a' = buy_style a)
  /\ check_settings allowed a' = a'.
Proof.
  cbv zeta. unfold check_settings.
  set (a1 := _check_trade_time a). set (a2 := _check_parse_rate a1).
  set (a3 := _check_buy_style allowed a2).
  destruct (_check_trade_time_spec a) as (T1 & T2 & T3 & T4). fold a1 in T1, T2, T3, T4.
  destruct (_check_parse_rate_spec a1) as ((n & P1 & P1') & P2 & P3 & P4).
  fold a2 in P1, P2, P3, P4.
  destruct (_check_buy_style_spec allowed a2) as (B1 & B2 & B3 & B4).
  fold a3 in B1, B2, B3, B4.
  assert (Hfix3 : _check_trade_time a3 = a3).
  { apply _check_trade_time_spec. rewrite B3, P2. exact T1. }
  assert (Hfix2 : _check_parse_rate a3 = a3).
  { destruct (_check_parse_rate_spec a3) as (_ & _ & _ & H).
    apply (H n); [rewrite B2; exact P1 | exact P1']. }
  assert (Hfix1 : _check_buy_style allowed a3 = a3).
  { apply _check_buy_style_spec. exact B1. }
  split; [rewrite B3, P2; exact T1 |].
  split; [exists n; split; [rewrite B2; exact P1 | exact P1'] |].
  split; [exact B1 |].
  split; [intros H; rewrite B3, P2, (T4 H); reflexivity |].
  split.
  { intros m Hm Hm1. rewrite B2.
    assert (E : a2 = a1) by (apply (P4 m); [rewrite T2; exact Hm | exact Hm1]).
    unfold a2 in *. rewrite E, T2. exact Hm. }
  split.
  { intros Hin.
    assert (E : a3 = a2)
      by (apply B4; left; rewrite P3, T3; exact Hin).
    rewrite E, P3, T3. reflexivity. }
  rewrite Hfix3, Hfix2, Hfix1. reflexivity.
Qed.

(** ** What the roster normaliser leaves alone *)

Lemma same_record_refl (r : Round.t) : same_record r r.
Proof. reflexivity. Qed.

Lemma same_record_trans (r1 r2 r3 : Round.t) :
  same_record r1 r2 -> same_record r2 r3 -> same_record r1 r3.
Proof. unfold same_record. congruence. Qed.

Lemma bare_frame_remove (sid : Z) (fs : list Frame.t) :
  map bare_frame (map (remove_from_frame sid) fs) = map bare_frame fs.
Proof. rewrite map_map. apply map_ext. intros f. reflexivity. Qed.

Lemma remove_player_from_round_record (r r' : Round.t) (sid : Z) :
  remove_player_from_round r sid = Ok r' -> same_record r r'.
Proof.
  unfold remove_player_from_round. cbn [Round.frames Round.set_sides].
  destruct (Round.frames r) as [fs |] eqn:Hfs; cbn [iter_list bind];
    intros H; [| discriminate H].
  injection H as <-. unfold same_record, bare_round.
  cbn [Round.set_frames Round.set_sides Round.roundNum Round.isWarmup
       Round.startTick Round.freezeTimeEndTick Round.endTick
       Round.endOfficialTick Round.tScore Round.ctScore Round.endTScore
       Round.endCTScore Round.roundEndReason Round.tSide Round.ctSide
       Round.frames Round.kills Round.damages Round.grenades Round.weaponFires
       Round.flashes option_map].
  rewrite Hfs. cbn [option_map]. rewrite bare_frame_remove. reflexivity.
Qed.

Lemma bare_frame_switch (sid : Z) (fs : list Frame.t) :
  map bare_frame (map (switch_in_frame sid) fs) = map bare_frame fs.
Proof.
  rewrite map_map. apply map_ext. intros f. unfold switch_in_frame.
  destruct (switch_lists _ _ sid _ _) as [ts cts]. reflexivity.
Qed.

Lemma switch_player_side_record (r r' : Round.t) (sid : Z) :
  switch_player_side r sid = Ok r' -> same_record r r'.
Proof.
  unfold switch_player_side.
  destruct (switch_lists _ _ sid _ _) as [ts cts].
  destruct (Round.kills r) as [ks |] eqn:Hk; cbn [iter_list bind];
    [| discriminate].
  destruct (Round.damages r) as [ds |] eqn:Hd; cbn [iter_list bind];
    [| discriminate].
  destruct (Round.grenades r) as [gs |] eqn:Hg; cbn [iter_list bind];
    [| discriminate].
  destruct (Round.weaponFires r) as [ws |] eqn:Hw; cbn [iter_list bind];
    [| discriminate].
  destruct (Round.flashes r) as [fl |] eqn:Hl; cbn [iter_list bind];
    [| discriminate].
  destruct (Round.frames r) as [fs |] eqn:Hfs; cbn [iter_list bind];
    [| discriminate].
  intros H. injection H as <-. unfold same_record, bare_round.
  cbn [Round.set_frames Round.set_events Round.set_sides Round.roundNum
       Round.isWarmup Round.startTick Round.freezeTimeEndTick Round.endTick
       Round.endOfficialTick Round.tScore Round.ctScore Round.endTScore
       Round.endCTScore Round.roundEndReason Round.tSide Round.ctSide
       Round.frames Round.kills Round.damages Round.grenades Round.weaponFires
       Round.flashes option_map].
  rewrite Hk, Hd, Hg, Hw, Hl, Hfs. cbn [option_map].
  rewrite bare_frame_switch, !map_map. reflexivity.
Qed.

Lemma remove_all_record (l : list Player.t) (r r' : Round.t) :
  remove_all l r = Ok r' -> same_record r r'.
Proof.
  apply (for_each_invariant same_record).
  - apply same_record_refl.
  - apply same_record_trans.
  - intros player s s' H. eapply remove_player_from_round_record. exact H.
Qed.

Lemma force_sides_record (mapName : string) (r r' : Round.t) :
  force_sides mapName r = Ok r' -> same_record r r'.
Proof.
  apply (for_each_invariant same_record).
  - apply same_record_refl.
  - apply same_record_trans.
  - intros sid s s' H. eapply switch_player_side_record. exact H.
Qed.

Lemma eliminate_record (loops : nat) (side : side_key) (r r' : Round.t) :
  eliminate loops side r = Ok r' -> same_record r r'.
Proof.
  revert r. induction loops as [| loops IH]; intros r H; simpl in H.
  - injection H as <-. reflexivity.
  - destruct (5 <? len (player_list side r)); [| injection H as <-; reflexivity].
    destruct (findFirstDeadPlayer r side) as [[d |] |]; cbn [bind] in H;
      try discriminate H; [| injection H as <-; reflexivity].
    destruct (d =? 0); [injection H as <-; reflexivity |].
    destruct (remove_player_from_round r d) as [r1 |] eqn:Hr; cbn [bind] in H;
      [| discriminate H].
    eapply same_record_trans;
      [eapply remove_player_from_round_record; exact Hr | apply IH; exact H].
Qed.

Lemma remove_coaches_in_origin_record (r r' : Round.t) :
  remove_coaches_in_origin r = Ok r' -> same_record r r'.
Proof.
  unfold remove_coaches_in_origin.
  destruct (iter_list (Round.frames r)) as [fs |]; cbn [bind]; [| discriminate].
  destruct (py_index fs 0) as [first |]; cbn [bind]; [| discriminate].
  apply remove_all_record.
Qed.

Lemma remove_coaches_not_moving_record (r r' : Round.t) :
  remove_coaches_not_moving r = Ok r' -> same_record r r'.
Proof.
  unfold remove_coaches_not_moving.
  destruct (Round.frames r) as [[| first later] |].
  - intros H. injection H as <-. reflexivity.
  - apply remove_all_record.
  - intros H. injection H as <-. reflexivity.
Qed.

Lemma excess_players_round_record (mapName : string) (r r' : Round.t) :
  excess_players_round mapName r = Ok (Some r') -> same_record r r'.
Proof.
  unfold excess_players_round.
  destruct (Round.frames r) as [[| first later] |]; try discriminate.
  destruct (if over_limit r then remove_coaches_in_origin r else Ok r)
    as [r1 |] eqn:H1; cbn [bind]; [| discriminate].
  destruct (if over_limit r1 then remove_coaches_not_moving r1 else Ok r1)
    as [r2 |] eqn:H2; cbn [bind]; [| discriminate].
  destruct (force_sides mapName r2) as [r3 |] eqn:H3; cbn [bind]; [| discriminate].
  unfold eliminate_and_accept.
  destruct (eliminate max_loops key_t r3) as [r4 |] eqn:H4; cbn [bind];
    [| discriminate].
  destruct (eliminate max_loops key_t r4) as [r5 |] eqn:H5; cbn [bind];
    [| discriminate].
  destruct (eliminate max_loops key_ct r5) as [r6 |] eqn:H6; cbn [bind];
    [| discriminate].
  destruct (accepted r6); intros H; [| discriminate H].
  injection H as <-.
  assert (P1 : same_record r r1).
  { destruct (over_limit r);
      [apply remove_coaches_in_origin_record; exact H1
      | injection H1 as <-; reflexivity]. }
  assert (P2 : same_record r1 r2).
  { destruct (over_limit r1);
      [apply remove_coaches_not_moving_record; exact H2
      | injection H2 as <-; reflexivity]. }
  pose proof (force_sides_record _ _ _ H3) as P3.
  pose proof (eliminate_record _ _ _ _ H4) as P4.
  pose proof (eliminate_record _ _ _ _ H5) as P5.
  pose proof (eliminate_record _ _ _ _ H6) as P6.
  unfold same_record in *. congruence.
Qed.

Lemma thinned_refl (R : Round.t -> Round.t -> Prop) (rs : list Round.t) :
  (forall r, R r r) -> thinned R rs rs.
Proof.
  intros H. induction rs as [| r rs IH]; constructor; [apply H | exact IH].
Qed.

Lemma excess_players_loop_thinned (mapName : string) (rs acc rs' : list Round.t) :
  for_each (excess_players_step mapName) rs acc = Ok rs' ->
  exists tail, rs' = acc ++ tail /\ thinned same_record rs tail.
Proof.
  revert acc. induction rs as [| r rs IH]; intros acc H; simpl in H.
  - injection H as <-. exists []. split; [symmetry; apply app_nil_r | constructor].
  - unfold excess_players_step at 1 in H.
    destruct (excess_players_round mapName r) as [[r' |] |] eqn:Hround;
      cbn [bind] in H; try discriminate H.
    + destruct (IH _ H) as (tail & -> & Htail).
      exists (r' :: tail). split; [rewrite <- app_assoc; reflexivity |].
      apply thinned_keep; [| exact Htail].
      eapply excess_players_round_record. exact Hround.
    + destruct (IH _ H) as (tail & -> & Htail).
      exists tail. split; [reflexivity |]. apply thinned_drop. exact Htail.
Qed.

(** X5.  When [remove_excess_players] completes, the rounds it leaves are
    rounds of the input in their order, some of them dropped, none added; a
    round that stays has its fields, its frames with their ticks and
    identifiers, and its events with their steamIDs and weapons as before:
    only the entries of the player lists and the side labels of the events
    can differ.  The map name, the match phases and [parse_frames] are left
    alone. *)
Theorem remove_excess_players_thins (p p' : DemoParser) :
  remove_excess_players p = Ok p' ->
  thinned same_record (rounds_of p) (rounds_of p') /\ same_header p p'.
Proof.
  intros H. destruct p as [pf [[mapName phases rounds] |]]; [| discriminate H].
  unfold remove_excess_players, with_json in H.
  cbn [json parse_frames Game.mapName Game.gameRounds] in H.
  destruct pf; cbn [negb] in H.
  - destruct (for_each (excess_players_step mapName) (or_empty rounds) [])
      as [rs' |] eqn:Hloop; cbn [bind] in H; [| discriminate H].
    injection H as <-.
    destruct (excess_players_loop_thinned _ _ _ _ Hloop) as (tail & -> & Ht).
    split; [exact Ht | repeat split].
  - injection H as <-. split; [| apply same_header_refl].
    apply thinned_refl. apply same_record_refl.
Qed.

(** The statement on the mislabelled match, where a player is moved. *)
Lemma remove_excess_players_thins_witness :
  exists p',
    remove_excess_players mislabelled_match = Ok p'
    /\ thinned same_record (rounds_of mislabelled_match) (rounds_of p')
    /\ same_header mislabelled_match p'.
Proof.
  eexists. split; [vm_compute; reflexivity |].
  apply (remove_excess_players_thins mislabelled_match).
  vm_compute. reflexivity.
Defined.

(** ** The switch conserves the players *)

Lemma find_some_in (sid : Z) (l : list Player.t) (p : Player.t) :
  find (fun player => Player.steamID player =? sid) l = Some p ->
  In p l /\ Player.steamID p = sid.
Proof.
  intros H. destruct (find_some _ _ H) as [Hin Hp].
  split; [exact Hin | apply Z.eqb_eq; exact Hp].
Qed.

Lemma move_player_ids (f : Player.t -> Player.t) (sid : Z)
    (this other this' other' : list Player.t) :
  (forall p, Player.steamID (f p) = Player.steamID p) ->
  move_player f sid this other = Some (this', other') ->
  Permutation (ids (this ++ other)) (ids (this' ++ other')).
Proof.
  intros Hf H. unfold move_player in H.
  destruct (find (fun player => Player.steamID player =? sid) this) as [p |] eqn:E;
    [| discriminate H].
  injection H as <- <-. destruct (find_some_in _ _ _ E) as [Hin _].
  unfold ids. rewrite !map_app. cbn [map]. rewrite Hf.
  pose proof (list_remove_permutation p this Hin) as Hperm.
  apply (Permutation_map Player.steamID) in Hperm.
  rewrite map_app in Hperm. cbn [map] in Hperm.
  rewrite Hperm, <- !app_assoc. apply Permutation_app_head.
  apply Permutation_app_comm.
Qed.

Lemma switch_lists_ids (f g : Player.t -> Player.t) (sid : Z)
    (ts cts : list Player.t) :
  (forall p, Player.steamID (f p) = Player.steamID p) ->
  (forall p, Player.steamID (g p) = Player.steamID p) ->
  Permutation (ids (ts ++ cts))
              (ids (fst (switch_lists f g sid ts cts)
                    ++ snd (switch_lists f g sid ts cts))).
Proof.
  intros Hf Hg. unfold switch_lists.
  destruct (move_player f sid ts cts) as [[ts' cts'] |] eqn:M1.
  - exact (move_player_ids f sid ts cts ts' cts' Hf M1).
  - destruct (move_player g sid cts ts) as [[cts' ts'] |] eqn:M2.
    + cbn [fst snd]. pose proof (move_player_ids g sid cts ts cts' ts' Hg M2) as H.
      unfold ids in *. rewrite !map_app in *.
      rewrite (Permutation_app_comm (map Player.steamID ts)),
              (Permutation_app_comm (map Player.steamID ts')).
      exact H.
    + apply Permutation_refl.
Qed.

Lemma switch_in_frame_ids (sid : Z) (f : Frame.t) :
  Permutation (ids (frame_all_players f))
              (ids (frame_all_players (switch_in_frame sid f))).
Proof.
  pose proof (switch_lists_ids (Player.set_side "CT") (Player.set_side "T") sid
                (Team.players (Frame.t_ f)) (Team.players (Frame.ct f))
                (fun p => eq_refl) (fun p => eq_refl)) as H.
  unfold frame_all_players, switch_in_frame. cbn [frame_players].
  destruct (switch_lists (Player.set_side "CT") (Player.set_side "T") sid
              (Team.players (Frame.t_ f)) (Team.players (Frame.ct f)))
    as [ts cts].
  exact H.
Qed.

(** X6.  When [switch_player_side] completes, the round has the same fields,
    frames and events as before up to the side labels, the steamIDs of the
    two rosters taken together are the same up to order, and so are the
    steamIDs of the two player lists of every frame: the switch moves entries
    between the two sides and neither adds nor loses a player. *)
Theorem switch_player_side_conserves_players (r r' : Round.t) (sid : Z) :
  switch_player_side r sid = Ok r' ->
  same_record r r'
  /\ Permutation (ids (roster_all_players r)) (ids (roster_all_players r'))
  /\ Forall2 (fun f f' =>
                Permutation (ids (frame_all_players f))
                            (ids (frame_all_players f')))
             (or_empty (Round.frames r)) (or_empty (Round.frames r')).
Proof.
  intros H. split; [apply (switch_player_side_record r r' sid H) |].
  unfold switch_player_side in H.
  pose proof (switch_lists_ids (fun p => p) (fun p => p) sid
                (Team.players (Round.tSide r)) (Team.players (Round.ctSide r))
                (fun p => eq_refl) (fun p => eq_refl)) as Hros.
  destruct (switch_lists (fun p => p) (fun p => p) sid
              (Team.players (Round.tSide r)) (Team.players (Round.ctSide r)))
    as [ts cts].
  destruct (Round.kills r); cbn [iter_list bind] in H; [| discriminate H].
  destruct (Round.damages r); cbn [iter_list bind] in H; [| discriminate H].
  destruct (Round.grenades r); cbn [iter_list bind] in H; [| discriminate H].
  destruct (Round.weaponFires r); cbn [iter_list bind] in H; [| discriminate H].
  destruct (Round.flashes r); cbn [iter_list bind] in H; [| discriminate H].
  destruct (Round.frames r) as [fs |]; cbn [iter_list bind] in H;
    [| discriminate H].
  injection H as <-. split; [exact Hros |].
  cbn [Round.frames Round.set_frames or_empty].
  induction fs as [| f fs IH]; simpl; constructor.
  - apply switch_in_frame_ids.
  - exact IH.
Qed.

(** The switch of player 7 between rosters, frame lists and a kill. *)
Lemma switch_player_side_conserves_players_witness :
  let p := sample_player 7 "T" 10 20 0 true in
  let q := sample_player 8 "CT" 30 40 0 true in
  let r :=
    Round.mk 1 false 0 10 100 110 0 0 1 0 "TargetBombed"
      (Team.mk "Team A" [p]) (Team.mk "Team B" [q])
      (Some [sample_frame [p] [q]]) (Some [Kill.mk 7 "T" 8 "CT" "AK-47"])
      (Some []) (Some []) (Some []) (Some []) in
  exists r',
    switch_player_side r 7 = Ok r'
    /\ same_record r r'
    /\ Permutation (ids (roster_all_players r)) (ids (roster_all_players r'))
    /\ Forall2 (fun f f' =>
                  Permutation (ids (frame_all_players f))
                              (ids (frame_all_players f')))
               (or_empty (Round.frames r)) (or_empty (Round.frames r')).
Proof.
  cbv zeta. eexists. split; [reflexivity |].
  apply (switch_player_side_conserves_players _ _ 7). reflexivity.
Defined.

(** ** The removal spares the other players *)

Lemma list_remove_without (sid : Z) (p : Player.t) (l : list Player.t) :
  Player.steamID p = sid -> without sid (list_remove p l) = without sid l.
Proof.
  intros Hp. induction l as [| q l IH]; simpl; [reflexivity |].
  destruct (Player.eqb q p) eqn:E.
  - apply player_eqb_eq in E. subst q. rewrite Hp, Z.eqb_refl. reflexivity.
  - simpl. rewrite IH. reflexivity.
Qed.

Lemma remove_loop_without (steps : nat) (sid : Z) (i : nat) (l : list Player.t) :
  without sid (remove_loop steps sid i l) = without sid l.
Proof.
  revert i l. induction steps as [| steps IH]; intros i l; simpl.
  - reflexivity.
  - destruct (nth_error l i) as [p |]; [| reflexivity].
    rewrite IH. destruct (Z.eqb_spec (Player.steamID p) sid) as [E | E];
      [apply list_remove_without; exact E | reflexivity].
Qed.

Lemma remove_loop_length (steps : nat) (sid : Z) (i : nat) (l : list Player.t) :
  (length (remove_loop steps sid i l) <= length l)%nat.
Proof.
  revert i l. induction steps as [| steps IH]; intros i l; simpl.
  - lia.
  - destruct (nth_error l i) as [p |]; [| lia].
    etransitivity; [apply IH |].
    destruct (Player.steamID p =? sid); [apply list_remove_length | lia].
Qed.

Lemma list_remove_length_in (p : Player.t) (l : list Player.t) :
  In p l -> S (length (list_remove p l)) = length l.
Proof.
  induction l as [| q l IH]; simpl; intros Hin; [contradiction |].
  destruct (Player.eqb q p) eqn:E; [reflexivity |].
  destruct Hin as [-> | Hin]; [rewrite player_eqb_refl in E; discriminate |].
  simpl. rewrite (IH Hin). reflexivity.
Qed.

Lemma firstn_snoc (i : nat) (l : list Player.t) (p : Player.t) :
  nth_error l i = Some p -> firstn (S i) l = firstn i l ++ [p].
Proof.
  revert l. induction i as [| i IH]; intros [| q l] H; simpl in H;
    try discriminate.
  - injection H as ->. reflexivity.
  - simpl. f_equal. apply IH. exact H.
Qed.

Lemma remove_loop_removes (steps : nat) (sid : Z) (i : nat) (l : list Player.t) :
  In sid (ids l) ->
  (forall q, In q (firstn i l) -> Player.steamID q <> sid) ->
  (length l <= steps + i)%nat ->
  (length (remove_loop steps sid i l) < length l)%nat.
Proof.
  revert i. induction steps as [| steps IH]; intros i Hin Hpre Hlen.
  - exfalso. rewrite firstn_all2 in Hpre by lia.
    unfold ids in Hin. apply in_map_iff in Hin as (q & Hq & Hq').
    exact (Hpre q Hq' Hq).
  - simpl. destruct (nth_error l i) as [p |] eqn:Hp.
    + destruct (Z.eqb_spec (Player.steamID p) sid) as [E | E].
      * pose proof (list_remove_length_in p l (nth_error_In _ _ Hp)) as Hl.
        pose proof (remove_loop_length steps sid (S i) (list_remove p l)). lia.
      * apply IH; [exact Hin | | lia].
        intros q Hq. rewrite (firstn_snoc i l p Hp) in Hq.
        apply in_app_or in Hq. destruct Hq as [Hq | [<- | []]];
          [apply Hpre; exact Hq | exact E].
    + exfalso. apply nth_error_None in Hp. rewrite firstn_all2 in Hpre by lia.
      unfold ids in Hin. apply in_map_iff in Hin as (q & Hq & Hq').
      exact (Hpre q Hq' Hq).
Qed.

Lemma remove_from_players_removed (sid : Z) (l : list Player.t) :
  removed_from sid l (remove_from_players sid l).
Proof.
  unfold removed_from, remove_from_players. split; [| split].
  - apply remove_loop_without.
  - apply remove_loop_length.
  - intros Hin. apply remove_loop_removes; [exact Hin | intros q [] | lia].
Qed.

(** X7.  When [remove_player_from_round] completes, whether or not steamIDs
    repeat inside a list: in both rosters and in both player lists of every
    frame the entries with another steamID are all kept, in their order,
    nothing is added, and a list that had an entry with the removed steamID
    has lost at least one; fields, frames and events are as before. *)
Theorem remove_player_from_round_spares_others (r r' : Round.t) (sid : Z) :
  remove_player_from_round r sid = Ok r' ->
  same_record r r'
  /\ removed_from sid (Team.players (Round.tSide r)) (Team.players (Round.tSide r'))
  /\ removed_from sid (Team.players (Round.ctSide r))
                  (Team.players (Round.ctSide r'))
  /\ Forall2 (fun f f' =>
                removed_from sid (frame_players key_t f) (frame_players key_t f')
                /\ removed_from sid (frame_players key_ct f)
                                (frame_players key_ct f'))
             (or_empty (Round.frames r)) (or_empty (Round.frames r')).
Proof.
  intros H. split; [apply (remove_player_from_round_record r r' sid H) |].
  unfold remove_player_from_round in H. cbn [Round.frames Round.set_sides] in H.
  destruct (Round.frames r) as [fs |]; cbn [iter_list bind] in H;
    [| discriminate H].
  injection H as <-.
  cbn [Round.tSide Round.ctSide Round.frames Round.set_frames Round.set_sides
       or_empty remove_from_team Team.players Team.set_players].
  split; [apply remove_from_players_removed |].
  split; [apply remove_from_players_removed |].
  induction fs as [| f fs IH]; simpl; constructor.
  - split; apply remove_from_players_removed.
  - exact IH.
Qed.

(** The removal of steamID 6 from a frame that lists it twice in a row. *)
Lemma remove_player_from_round_spares_others_witness :
  let ts := [sample_player 1 "T" 10 10 0 true; sample_player 6 "T" 0 0 0 true;
             sample_player 6 "T" 5 5 0 true; sample_player 2 "T" 20 10 0 true] in
  let r := sample_round 0 0 1 0 (Some [sample_frame ts []]) (Some []) in
  exists r',
    remove_player_from_round r 6 = Ok r'
    /\ same_record r r'
    /\ removed_from 6 (Team.players (Round.tSide r)) (Team.players (Round.tSide r'))
    /\ removed_from 6 (Team.players (Round.ctSide r))
                    (Team.players (Round.ctSide r'))
    /\ Forall2 (fun f f' =>
                  removed_from 6 (frame_players key_t f) (frame_players key_t f')
                  /\ removed_from 6 (frame_players key_ct f)
                                  (frame_players key_ct f'))
               (or_empty (Round.frames r)) (or_empty (Round.frames r')).
Proof.
  cbv zeta. eexists. split; [reflexivity |].
  apply remove_player_from_round_spares_others. reflexivity.
Defined.

(** ** A round with a single frame *)

Lemma player_list_purge (side : side_key) (sid : Z) (r : Round.t) :
  player_list side (purge sid r) = without sid (player_list side r).
Proof.
  unfold player_list, player_lists, purge.
  cbn [Round.frames Round.set_frames].
  destruct (Round.frames r) as [[| f fs] |], side; reflexivity.
Qed.

Lemma player_list_purge_all (side : side_key) (l : list Player.t) (r : Round.t) :
  player_list side (purge_all l r)
  = fold_left (fun acc player => without (Player.steamID player) acc) l
              (player_list side r).
Proof.
  revert r. induction l as [| p l IH]; intros r; simpl.
  - reflexivity.
  - rewrite IH, player_list_purge. reflexivity.
Qed.

Lemma fold_without_length (l acc : list Player.t) :
  (length (fold_left (fun acc player => without (Player.steamID player) acc) l acc)
   <= length acc)%nat.
Proof.
  revert acc. induction l as [| p l IH]; intros acc; simpl.
  - lia.
  - etransitivity; [apply IH |]. apply filter_length_le.
Qed.

Lemma fold_without_covers (l acc : list Player.t) :
  (forall q, In q acc -> In (Player.steamID q) (ids l)) ->
  fold_left (fun acc player => without (Player.steamID player) acc) l acc = [].
Proof.
  revert acc. induction l as [| p l IH]; intros acc H; simpl.
  - destruct acc as [| q acc]; [reflexivity |].
    destruct (H q (or_introl eq_refl)).
  - apply IH. intros q Hq. unfold without in Hq. apply filter_In in Hq as [Hq Hne].
    destruct (H q Hq) as [E | Hin]; [| exact Hin].
    rewrite E, Z.eqb_refl in Hne. discriminate Hne.
Qed.

Lemma purge_all_unique (l : list Player.t) (r : Round.t) :
  round_unique r -> round_unique (purge_all l r).
Proof.
  revert r. induction l as [| p l IH]; intros r H; simpl.
  - exact H.
  - apply IH. apply purge_unique. exact H.
Qed.

Lemma purge_all_single_frame (l : list Player.t) (r : Round.t) (f : Frame.t) :
  Round.frames r = Some [f] ->
  exists f', Round.frames (purge_all l r) = Some [f'].
Proof.
  revert r f. induction l as [| p l IH]; intros r f H; simpl.
  - exists f. exact H.
  - apply (IH _ (purge_frame (Player.steamID p) f)).
    unfold purge. cbn [Round.frames Round.set_frames]. rewrite H. reflexivity.
Qed.

Lemma over_limit_purge_all (l : list Player.t) (r : Round.t) :
  over_limit (purge_all l r) = true -> over_limit r = true.
Proof.
  unfold over_limit. rewrite !orb_true_iff, !Z.ltb_lt, !player_list_purge_all.
  unfold len.
  pose proof (fold_without_length l (player_list key_t r)).
  pose proof (fold_without_length l (player_list key_ct r)).
  lia.
Qed.

Lemma remove_coaches_not_moving_single_frame (r : Round.t) (f : Frame.t) :
  Round.frames r = Some [f] -> round_unique r ->
  exists r',
    remove_coaches_not_moving r = Ok r'
    /\ player_list key_t r' = [] /\ player_list key_ct r' = [].
Proof.
  intros Hfs Hu. unfold remove_coaches_not_moving. rewrite Hfs.
  assert (Hall : flat_map
                   (fun side =>
                      filter (fun player => negb (has_moved side player []))
                             (frame_players side f))
                   [key_t; key_ct]
                 = frame_players key_t f ++ frame_players key_ct f).
  { cbn [flat_map has_moved existsb negb]. rewrite app_nil_r.
    rewrite !filter_all; [reflexivity | | ];
      apply Forall_forall; intros; reflexivity. }
  rewrite Hall.
  rewrite remove_all_unique by (congruence || exact Hu).
  eexists. split; [reflexivity |].
  assert (Ht : player_list key_t r = frame_players key_t f)
    by (unfold player_list, player_lists; rewrite Hfs; reflexivity).
  assert (Hct : player_list key_ct r = frame_players key_ct f)
    by (unfold player_list, player_lists; rewrite Hfs; reflexivity).
  split; rewrite player_list_purge_all; apply fold_without_covers;
    intros q Hq; unfold ids; rewrite map_app; apply in_or_app;
    [left; rewrite <- Ht | right; rewrite <- Hct]; apply in_map; exact Hq.
Qed.

(** X9.  A round with exactly one frame, in which steamIDs identify the
    players inside each list: if a side of that frame still has more than 5
    players once the players at (0,0,0) are removed, [remove_excess_players]
    drops the round.  With no later frame to compare positions with,
    [remove_coaches_not_moving] takes every player of the frame for a coach
    and empties both sides. *)
Theorem excess_players_round_single_frame (mapName : string) (r : Round.t)
    (f : Frame.t) :
  Round.frames r = Some [f] ->
  round_unique r ->
  over_limit (purge_all (coaches_in_origin f) r) = true ->
  excess_players_round mapName r = Ok None.
Proof.
  intros Hfs Hu Hover.
  pose proof (over_limit_purge_all _ _ Hover) as Hover0.
  unfold excess_players_round. rewrite Hfs, Hover0.
  rewrite (remove_coaches_in_origin_unique r f [] Hfs Hu). cbn [bind].
  rewrite Hover.
  destruct (purge_all_single_frame (coaches_in_origin f) r f Hfs) as [f1 Hf1].
  destruct (remove_coaches_not_moving_single_frame _ f1 Hf1
              (purge_all_unique _ _ Hu)) as (r2 & Hr2 & Ht & Hct).
  rewrite Hr2. cbn [bind].
  unfold force_sides, switchedPlayers. rewrite Ht, Hct.
  cbn [app fold_left for_each bind]. unfold eliminate_and_accept.
  do 3 (rewrite eliminate_within_limit
          by (rewrite ?Ht, ?Hct; unfold len; simpl; lia);
        cbn [bind]).
  unfold accepted. rewrite Ht, Hct. reflexivity.
Qed.

(** Six T players and five CT players recorded in a single frame. *)
Lemma excess_players_round_single_frame_witness :
  excess_players_round "de_dust2"
    (Round.mk 1 false 0 10 100 110 0 0 1 0 "TargetBombed"
       (Team.mk "Team A" five_t) (Team.mk "Team B" five_ct)
       (Some [sample_frame (five_t ++ [sample_player 11 "T" 150 200 0 true])
                           five_ct])
       (Some []) (Some []) (Some []) (Some []) (Some []))
  = Ok None.
Proof.
  apply (excess_players_round_single_frame "de_dust2" _
           (sample_frame (five_t ++ [sample_player 11 "T" 150 200 0 true])
                         five_ct)).
  - reflexivity.
  - solve_round_unique.
  - vm_compute. reflexivity.
Defined.

(** ** Completion of [clean_rounds] *)

Lemma same_record_iterable (r r' : Round.t) :
  same_record r r' -> iterable r -> iterable r'.
Proof.
  unfold same_record, bare_round. intros H (Hf & Hk & Hd & Hg & Hw & Hl).
  injection H as _ _ _ _ _ _ _ _ _ _ _ _ _ Ef Ek Ed Eg Ew El.
  unfold iterable, events_present.
  destruct (Round.frames r'), (Round.frames r); try discriminate; try congruence.
  destruct (Round.kills r'), (Round.kills r); try discriminate; try congruence.
  destruct (Round.damages r'), (Round.damages r); try discriminate;
    try congruence.
  destruct (Round.grenades r'), (Round.grenades r); try discriminate;
    try congruence.
  destruct (Round.weaponFires r'), (Round.weaponFires r); try discriminate;
    try congruence.
  destruct (Round.flashes r'), (Round.flashes r); try discriminate;
    try congruence.
  repeat split; discriminate.
Qed.

Lemma for_each_total {A S : Type} (I : S -> Prop) (body : A -> S -> result S)
    (xs : list A) (st : S) :
  (forall x s, I s -> exists s', body x s = Ok s' /\ I s') ->
  I st -> exists st', for_each body xs st = Ok st' /\ I st'.
Proof.
  intros Hbody. revert st. induction xs as [| x xs IH]; intros st Hst; simpl.
  - exists st. split; [reflexivity | exact Hst].
  - destruct (Hbody x st Hst) as (s' & Hs' & HI). rewrite Hs'. cbn [bind].
    apply IH. exact HI.
Qed.

Lemma remove_player_from_round_total (r : Round.t) (sid : Z) :
  iterable r -> exists r', remove_player_from_round r sid = Ok r' /\ iterable r'.
Proof.
  intros Hr. pose proof Hr as [Hf _].
  destruct (remove_player_from_round r sid) as [r' |] eqn:H.
  - exists r'. split; [reflexivity |].
    eapply same_record_iterable; [eapply remove_player_from_round_record; exact H
                                 | exact Hr].
  - exfalso. unfold remove_player_from_round in H.
    cbn [Round.frames Round.set_sides] in H.
    destruct (Round.frames r); [discriminate H | congruence].
Qed.

Lemma remove_all_total (l : list Player.t) (r : Round.t) :
  iterable r -> exists r', remove_all l r = Ok r' /\ iterable r'.
Proof.
  apply (for_each_total iterable). intros player s Hs.
  apply remove_player_from_round_total. exact Hs.
Qed.

Lemma switch_player_side_total (r : Round.t) (sid : Z) :
  iterable r -> exists r', switch_player_side r sid = Ok r' /\ iterable r'.
Proof.
  intros Hr. destruct (switch_player_side r sid) as [r' |] eqn:H.
  - exists r'. split; [reflexivity |].
    eapply same_record_iterable; [eapply switch_player_side_record; exact H
                                 | exact Hr].
  - exfalso. destruct Hr as (Hf & Hk & Hd & Hg & Hw & Hl).
    unfold switch_player_side in H.
    destruct (switch_lists _ _ sid _ _) as [ts cts].
    destruct (Round.kills r); [| congruence].
    destruct (Round.damages r); [| congruence].
    destruct (Round.grenades r); [| congruence].
    destruct (Round.weaponFires r); [| congruence].
    destruct (Round.flashes r); [| congruence].
    destruct (Round.frames r); [| congruence].
    discriminate H.
Qed.

Lemma force_sides_total (mapName : string) (r : Round.t) :
  iterable r -> exists r', force_sides mapName r = Ok r' /\ iterable r'.
Proof.
  apply (for_each_total iterable). intros sid s Hs.
  apply switch_player_side_total. exact Hs.
Qed.

Lemma eliminate_total (loops : nat) (side : side_key) (r : Round.t) :
  iterable r -> exists r', eliminate loops side r = Ok r' /\ iterable r'.
Proof.
  revert r. induction loops as [| loops IH]; intros r Hr; simpl.
  - exists r. split; [reflexivity | exact Hr].
  - destruct (5 <? len (player_list side r));
      [| exists r; split; [reflexivity | exact Hr]].
    unfold findFirstDeadPlayer. pose proof Hr as [Hf _].
    destruct (Round.frames r) as [fs |]; [| congruence].
    cbn [iter_list bind].
    destruct (scan_frames side None fs) as [d |];
      [| exists r; split; [reflexivity | exact Hr]].
    destruct (d =? 0); [exists r; split; [reflexivity | exact Hr] |].
    destruct (remove_player_from_round_total r d Hr) as (r1 & Hr1 & HI).
    rewrite Hr1. cbn [bind]. apply IH. exact HI.
Qed.

Lemma excess_players_round_total (mapName : string) (r : Round.t) :
  events_present r ->
  exists kept,
    excess_players_round mapName r = Ok kept
    /\ (forall r', kept = Some r' -> events_present r').
Proof.
  intros He. unfold excess_players_round.
  destruct (Round.frames r) as [[| first later] |] eqn:Hfs;
    try (exists None; split; [reflexivity | discriminate]).
  assert (Hr : iterable r) by (split; [congruence | exact He]).
  assert (H1 : exists r1,
             (if over_limit r then remove_coaches_in_origin r else Ok r) = Ok r1
             /\ iterable r1).
  { destruct (over_limit r); [| exists r; split; [reflexivity | exact Hr]].
    unfold remove_coaches_in_origin. rewrite Hfs. cbn [iter_list bind].
    change (py_index (first :: later) 0) with (Ok (A := Frame.t) first).
    cbn [bind]. apply remove_all_total. exact Hr. }
  destruct H1 as (r1 & -> & Hr1). cbn [bind].
  assert (H2 : exists r2,
             (if over_limit r1 then remove_coaches_not_moving r1 else Ok r1)
             = Ok r2 /\ iterable r2).
  { destruct (over_limit r1); [| exists r1; split; [reflexivity | exact Hr1]].
    unfold remove_coaches_not_moving.
    destruct (Round.frames r1) as [[| f1 l1] |];
      try (exists r1; split; [reflexivity | exact Hr1]).
    apply remove_all_total. exact Hr1. }
  destruct H2 as (r2 & -> & Hr2). cbn [bind].
  destruct (force_sides_total mapName r2 Hr2) as (r3 & -> & Hr3). cbn [bind].
  unfold eliminate_and_accept.
  destruct (eliminate_total max_loops key_t r3 Hr3) as (r4 & -> & Hr4).
  cbn [bind].
  destruct (eliminate_total max_loops key_t r4 Hr4) as (r5 & -> & Hr5).
  cbn [bind].
  destruct (eliminate_total max_loops key_ct r5 Hr5) as (r6 & -> & Hr6).
  cbn [bind].
  destruct (accepted r6).
  - exists (Some r6). split; [reflexivity |].
    intros r' E. injection E as <-. apply Hr6.
  - exists None. split; [reflexivity | discriminate].
Qed.

Lemma excess_players_loop_total (mapName : string) (rs acc : list Round.t) :
  Forall events_present rs -> Forall events_present acc ->
  exists rs',
    for_each (excess_players_step mapName) rs acc = Ok rs'
    /\ Forall events_present rs'.
Proof.
  intros Hrs. revert acc. induction Hrs as [| r rs Hr Hrs IH]; intros acc Hacc.
  - exists acc. split; [reflexivity | exact Hacc].
  - cbn [for_each]. unfold excess_players_step at 1.
    destruct (excess_players_round_total mapName r Hr) as (kept & -> & Hkept).
    cbn [bind]. destruct kept as [r' |]; cbn [bind].
    + apply IH. apply Forall_app. split; [exact Hacc |].
      constructor; [apply Hkept; reflexivity | constructor].
    + apply IH. exact Hacc.
Qed.

Lemma act_Forall (P : Round.t -> Prop) (k : list_action)
    (rounds : option (list Round.t)) :
  Forall P (or_empty rounds) -> Forall P (or_empty (act k rounds)).
Proof.
  destruct k as [f | f | |], rounds as [rs |]; simpl; intros H;
    try apply Forall_filter_keep; try constructor; exact H.
Qed.

Lemma scalar_filter_total (bad_endings : option (list string))
    (F : DemoParser -> result DemoParser) :
  In F (scalar_filters bad_endings) -> stage_total F.
Proof.
  intros HF pf mapName phases rounds Hall.
  destruct (scalar_filter_action bad_endings F pf mapName phases HF)
    as [_ [k Hk]].
  exists (act k rounds). split; [apply Hk | apply act_Forall; exact Hall].
Qed.

Lemma remove_excess_players_total : stage_total remove_excess_players.
Proof.
  intros pf mapName phases rounds Hall.
  unfold remove_excess_players, with_json.
  cbn [json state parse_frames Game.mapName Game.gameRounds].
  destruct pf; cbn [negb].
  - destruct (excess_players_loop_total mapName (or_empty rounds) [] Hall)
      as (rs' & -> & Hrs'); [constructor |].
    cbn [bind]. exists (Some rs'). split; [reflexivity | exact Hrs'].
  - exists rounds. split; [reflexivity | exact Hall].
Qed.

Lemma remove_bad_scoring_total : stage_total remove_bad_scoring.
Proof.
  intros pf mapName phases [rs |] Hall.
  - rewrite bad_scoring_state. eexists. split; [reflexivity |].
    cbn [or_empty] in *. apply Forall_select_from. exact Hall.
  - exists None. split; [reflexivity | constructor].
Qed.

Lemma when_total (flag : bool) (F : DemoParser -> result DemoParser) :
  stage_total F -> stage_total (when flag F).
Proof.
  intros HF pf mapName phases rounds Hall. unfold when. destruct flag.
  - apply HF. exact Hall.
  - exists rounds. split; [reflexivity | exact Hall].
Qed.

Lemma filter_stages_total (a : CleanArgs) : stage_total (filter_stages a).
Proof.
  intros pf mapName phases rounds Hall. unfold filter_stages.
  destruct (when_total (arg_remove_no_frames a) _
              (scalar_filter_total None remove_rounds_with_no_frames
                 ltac:(simpl; tauto)) pf mapName phases rounds Hall)
    as (o1 & -> & H1). cbn [bind].
  destruct (when_total (arg_remove_warmups a) _
              (scalar_filter_total None remove_warmups ltac:(simpl; tauto))
              pf mapName phases o1 H1) as (o2 & -> & H2). cbn [bind].
  destruct (when_total (arg_remove_knifes a) _
              (scalar_filter_total None remove_knife_rounds ltac:(simpl; tauto))
              pf mapName phases o2 H2) as (o3 & -> & H3). cbn [bind].
  destruct (when_total (arg_remove_bad_timings a) _
              (scalar_filter_total None remove_time_rounds ltac:(simpl; tauto))
              pf mapName phases o3 H3) as (o4 & -> & H4). cbn [bind].
  destruct (when_total (arg_remove_excess_players a) _
              remove_excess_players_total pf mapName phases o4 H4)
    as (o5 & -> & H5). cbn [bind].
  destruct (when_total (arg_remove_excess_kills a) _
              (scalar_filter_total None remove_excess_kill_rounds
                 ltac:(simpl; tauto)) pf mapName phases o5 H5)
    as (o6 & -> & H6). cbn [bind].
  destruct (when_total (arg_remove_bad_endings a) _
              (scalar_filter_total None (remove_end_round None)
                 ltac:(simpl; tauto)) pf mapName phases o6 H6)
    as (o7 & -> & H7). cbn [bind].
  apply (when_total (arg_remove_bad_scoring a) _ remove_bad_scoring_total).
  exact H7.
Qed.

(** The stages and the renumbering passes complete on a loaded record none
    of whose rounds has a null event list. *)
Lemma clean_rounds_total (a : CleanArgs) (p : DemoParser) :
  json p <> None ->
  Forall events_present (rounds_of p) ->
  exists p', clean_rounds a p = Ok p'.
Proof.
  intros Hj Hall. destruct p as [pf [[mapName phases rounds] |]];
    [| exfalso; apply Hj; reflexivity].
  change (mkParser pf (Some (Game.mk mapName phases rounds)))
    with (state pf mapName phases rounds) in *.
  cbn [rounds_of json state Game.gameRounds] in Hall.
  unfold clean_rounds, with_json. cbn [json state].
  destruct (filter_stages_total a pf mapName phases rounds Hall)
    as (o & -> & _). cbn [bind].
  rewrite renumber_rounds_state. cbn [bind]. rewrite renumber_frames_state.
  eexists. reflexivity.
Qed.

(** ** The exceptions of [clean_rounds] *)

Lemma mild_bind {A B : Type} (m : result A) (k : A -> result B) :
  mild m -> (forall x, m = Ok x -> mild (k x)) -> mild (bind m k).
Proof.
  destruct m as [x | e]; simpl; intros Hm Hk; [apply Hk; reflexivity | exact Hm].
Qed.

Lemma for_each_mild {A S : Type} (body : A -> S -> result S) (xs : list A)
    (st : S) :
  (forall x s, mild (body x s)) -> mild (for_each body xs st).
Proof.
  intros Hbody. revert st. induction xs as [| x xs IH]; intros st; simpl.
  - exact I.
  - apply mild_bind; [apply Hbody | intros s _; apply IH].
Qed.

Lemma iter_list_mild {A : Type} (l : option (list A)) : mild (iter_list l).
Proof. destruct l; simpl; [exact I | reflexivity]. Qed.

Lemma remove_player_from_round_mild (r : Round.t) (sid : Z) :
  mild (remove_player_from_round r sid).
Proof.
  unfold remove_player_from_round.
  apply mild_bind; [apply iter_list_mild | intros; exact I].
Qed.

Lemma remove_all_mild (l : list Player.t) (r : Round.t) : mild (remove_all l r).
Proof.
  apply for_each_mild. intros player s. apply remove_player_from_round_mild.
Qed.

Lemma switch_player_side_mild (r : Round.t) (sid : Z) :
  mild (switch_player_side r sid).
Proof.
  unfold switch_player_side. destruct (switch_lists _ _ sid _ _) as [ts cts].
  repeat (apply mild_bind; [apply iter_list_mild | intros ? _]). exact I.
Qed.

Lemma force_sides_mild (mapName : string) (r : Round.t) :
  mild (force_sides mapName r).
Proof.
  apply for_each_mild. intros sid s. apply switch_player_side_mild.
Qed.

Lemma eliminate_mild (loops : nat) (side : side_key) (r : Round.t) :
  mild (eliminate loops side r).
Proof.
  revert r. induction loops as [| loops IH]; intros r; simpl; [exact I |].
  destruct (5 <? len (player_list side r)); [| exact I].
  apply mild_bind.
  - unfold findFirstDeadPlayer.
    apply mild_bind; [apply iter_list_mild | intros; exact I].
  - intros [d |] _; [| exact I]. destruct (d =? 0); [exact I |].
    apply mild_bind; [apply remove_player_from_round_mild | intros; apply IH].
Qed.

Lemma excess_players_round_mild (mapName : string) (r : Round.t) :
  mild (excess_players_round mapName r).
Proof.
  unfold excess_players_round.
  destruct (Round.frames r) as [[| first later] |] eqn:Hfs; try exact I.
  apply mild_bind.
  { destruct (over_limit r); [| exact I].
    unfold remove_coaches_in_origin. rewrite Hfs. cbn [iter_list bind].
    change (py_index (first :: later) 0) with (Ok (A := Frame.t) first).
    cbn [bind]. apply remove_all_mild. }
  intros r1 _. apply mild_bind.
  { destruct (over_limit r1); [| exact I].
    unfold remove_coaches_not_moving.
    destruct (Round.frames r1) as [[| f1 l1] |]; try exact I.
    apply remove_all_mild. }
  intros r2 _. apply mild_bind; [apply force_sides_mild |].
  intros r3 _. unfold eliminate_and_accept.
  repeat (apply mild_bind; [apply eliminate_mild | intros ? _]).
  destruct (accepted _); exact I.
Qed.

Lemma scalar_filter_mild (bad_endings : option (list string))
    (F : DemoParser -> result DemoParser) :
  In F (scalar_filters bad_endings) -> stage_mild F.
Proof.
  intros HF pf mapName phases rounds.
  destruct (scalar_filter_action bad_endings F pf mapName phases HF)
    as [_ [k Hk]].
  left. exists (act k rounds). apply Hk.
Qed.

Lemma excess_players_state_any pf mapName phases rounds :
  remove_excess_players (state pf mapName phases rounds)
  = do rs' <- (if pf
               then for_each (excess_players_step mapName) (or_empty rounds) []
               else Ok (or_empty rounds));
    Ok (state pf mapName phases (if pf then Some rs' else rounds)).
Proof.
  unfold remove_excess_players, with_json, state.
  cbn [json parse_frames Game.mapName Game.gameRounds]. destruct pf; cbn [negb].
  - destruct (for_each (excess_players_step mapName) (or_empty rounds) []);
      reflexivity.
  - reflexivity.
Qed.

Lemma remove_excess_players_mild : stage_mild remove_excess_players.
Proof.
  intros pf mapName phases rounds. rewrite excess_players_state_any.
  destruct pf.
  - pose proof (for_each_mild (excess_players_step mapName) (or_empty rounds) [])
      as H.
    destruct (for_each (excess_players_step mapName) (or_empty rounds) [])
      as [rs' | e]; cbn [bind].
    + left. eexists. reflexivity.
    + right. f_equal. apply H. intros r s. unfold excess_players_step.
      apply mild_bind; [apply excess_players_round_mild |].
      intros [r' |] _; exact I.
  - cbn [bind]. left. exists rounds. reflexivity.
Qed.

Lemma remove_bad_scoring_mild : stage_mild remove_bad_scoring.
Proof.
  intros pf mapName phases [rs |].
  - left. rewrite bad_scoring_state. eexists. reflexivity.
  - left. exists None. reflexivity.
Qed.

Lemma when_mild (flag : bool) (F : DemoParser -> result DemoParser) :
  stage_mild F -> stage_mild (when flag F).
Proof.
  intros HF pf mapName phases rounds. unfold when. destruct flag.
  - apply HF.
  - left. exists rounds. reflexivity.
Qed.

Lemma stage_mild_then (F G : DemoParser -> result DemoParser) :
  stage_mild F -> stage_mild G -> stage_mild (fun p => bind (F p) G).
Proof.
  intros HF HG pf mapName phases rounds.
  destruct (HF pf mapName phases rounds) as [[o ->] | ->]; cbn [bind].
  - apply HG.
  - right. reflexivity.
Qed.

Lemma filter_stages_mild (a : CleanArgs) : stage_mild (filter_stages a).
Proof.
  unfold filter_stages.
  repeat (apply (stage_mild_then (when _ _));
          [apply when_mild;
           first [apply remove_excess_players_mild
                 | apply (scalar_filter_mild None); simpl; tauto] |]).
  apply when_mild. apply remove_bad_scoring_mild.
Qed.

(** The stages and the renumbering passes raise [AttributeError] without a
    loaded record, and on a loaded one complete or raise [TypeError]. *)
Lemma clean_rounds_mild (a : CleanArgs) (p : DemoParser) :
  (json p = None -> clean_rounds a p = Raise AttributeError)
  /\ (json p <> None ->
      (exists p', clean_rounds a p = Ok p' /\ json p' <> None)
      \/ clean_rounds a p = Raise TypeError).
Proof.
  destruct p as [pf [[mapName phases rounds] |]].
  - split; [discriminate |]. intros _.
    change (mkParser pf (Some (Game.mk mapName phases rounds)))
      with (state pf mapName phases rounds).
    unfold clean_rounds, with_json. cbn [json state].
    destruct (filter_stages_mild a pf mapName phases rounds) as [[o ->] | ->];
      cbn [bind].
    + left. rewrite renumber_rounds_state. cbn [bind].
      rewrite renumber_frames_state. eexists. split; [reflexivity | discriminate].
    + right. reflexivity.
  - split; [reflexivity |]. intros H. exfalso. apply H. reflexivity.
Qed.

(** ** The whole call *)

(** X1.  The exceptions of a call of [clean_rounds], whatever [write_json]
    and [parse_json_to_df] do.  Without a loaded record the call raises
    [AttributeError].  On a loaded record an exception of the stages is a
    [TypeError] (a helper of the roster normaliser iterating a null list),
    never an [AttributeError] or an [IndexError]: the lookups
    [gameRounds[i - 1]], [gameRounds[i + 1]] and [frames[0]] are in range
    where they are reached.  Any other exception comes from [write_json] with
    [save_to_json] set, from [parse_json_to_df] with [return_type] ["df"], or
    is the [ValueError] of a [return_type] that is neither ["json"] nor
    ["df"], raised once the record has been cleaned; a call that returns has
    cleaned the record and returns [self.json], which is loaded, or the data
    frames. *)
Theorem clean_rounds_call_exceptions {E D : Type} (env : Outside E D)
    (a : CleanArgs) (return_type : string) (save_to_json : bool)
    (p : DemoParser) :
  (json p = None ->
   clean_rounds_call env a return_type save_to_json p
   = inl (StageError AttributeError))
  /\ (json p <> None ->
      match clean_rounds_call env a return_type save_to_json p with
      | inl (StageError e) => e = TypeError /\ clean_rounds a p = Raise TypeError
      | inl (OutsideError e) =>
          exists p', clean_rounds a p = Ok p'
                     /\ (save_to_json = true /\ write_json env p' = Some e
                         \/ return_type = "df"%string
                            /\ parse_json_to_df env p' = inl e)
      | inl ValueError =>
          return_type <> "json"%string /\ return_type <> "df"%string
          /\ exists p', clean_rounds a p = Ok p'
      | inr (p', ReturnedJson g) =>
          return_type = "json"%string /\ clean_rounds a p = Ok p'
          /\ g = json p' /\ g <> None
      | inr (p', ReturnedDf d) =>
          return_type = "df"%string /\ clean_rounds a p = Ok p'
          /\ parse_json_to_df env p' = inr d
      end).
Proof.
  destruct (clean_rounds_mild a p) as [Hnone Hsome]. split.
  - intros Hj. unfold clean_rounds_call. rewrite (Hnone Hj). reflexivity.
  - intros Hj. unfold clean_rounds_call.
    destruct (Hsome Hj) as [(p' & Hrun & Hj') | Hrun]; rewrite Hrun;
      [| split; reflexivity].
    destruct save_to_json; [destruct (write_json env p') as [e |] eqn:Hw |].
    + exists p'. split; [reflexivity |]. left. split; [reflexivity | exact Hw].
    + destruct (String.eqb_spec return_type "json") as [Ej | Ej];
        [repeat split; assumption |].
      destruct (String.eqb_spec return_type "df") as [Ed | Ed].
      * destruct (parse_json_to_df env p') as [e | d] eqn:Hd.
        -- exists p'. split; [reflexivity |]. right. split; [exact Ed | exact Hd].
        -- repeat split; assumption.
      * split; [exact Ej |]. split; [exact Ed |]. exists p'. reflexivity.
    + destruct (String.eqb_spec return_type "json") as [Ej | Ej];
        [repeat split; assumption |].
      destruct (String.eqb_spec return_type "df") as [Ed | Ed].
      * destruct (parse_json_to_df env p') as [e | d] eqn:Hd.
        -- exists p'. split; [reflexivity |]. right. split; [exact Ed | exact Hd].
        -- repeat split; assumption.
      * split; [exact Ej |]. split; [exact Ed |]. exists p'. reflexivity.
Qed.

(** X2.  On a loaded record none of whose rounds has a null event list
    (kills, damages, grenades, weaponFires, flashes), whatever the stages
    enabled and whatever the frames, rosters and scores: the stages complete;
    if [write_json], when [save_to_json] asks for it, writes the file, then a
    call of [clean_rounds] with [return_type] ["json"] returns the cleaned
    record, which is loaded, a call with ["df"] returns the data frames when
    [parse_json_to_df] gives them, and a call with any other [return_type]
    raises [ValueError]. *)
Theorem clean_rounds_call_returns {E D : Type} (env : Outside E D)
    (a : CleanArgs) (save_to_json : bool) (p : DemoParser) :
  json p <> None ->
  Forall events_present (rounds_of p) ->
  (forall p', clean_rounds a p = Ok p' -> save_to_json = true ->
              write_json env p' = None) ->
  exists p',
    clean_rounds a p = Ok p'
    /\ json p' <> None
    /\ clean_rounds_call env a "json" save_to_json p
       = inr (p', ReturnedJson (json p'))
    /\ (forall d, parse_json_to_df env p' = inr d ->
                  clean_rounds_call env a "df" save_to_json p
                  = inr (p', ReturnedDf d))
    /\ (forall return_type,
          return_type <> "json"%string -> return_type <> "df"%string ->
          clean_rounds_call env a return_type save_to_json p = inl ValueError).
Proof.
  intros Hj Hall Hwrite.
  destruct (clean_rounds_total a p Hj Hall) as [p' Hrun].
  exists p'. split; [exact Hrun |].
  assert (Hj' : json p' <> None).
  { destruct (proj2 (clean_rounds_mild a p) Hj) as [(q & Hq & Hjq) | Hq];
      rewrite Hrun in Hq; [| discriminate Hq].
    injection Hq as <-. exact Hjq. }
  split; [exact Hj' |].
  assert (Hw : (if save_to_json then write_json env p' else None) = None).
  { destruct save_to_json eqn:Es; [| reflexivity].
    apply Hwrite; [exact Hrun | reflexivity]. }
  unfold clean_rounds_call. rewrite Hrun, Hw. split; [reflexivity |]. split.
  - intros d Hd. cbn. rewrite Hd. reflexivity.
  - intros return_type Ej Ed.
    destruct (String.eqb_spec return_type "json") as [E1 | _]; [contradiction |].
    destruct (String.eqb_spec return_type "df") as [E2 | _]; [contradiction |].
    reflexivity.
Qed.

(** The mislabelled match, on which a player is switched, with the file
    written and data frames given. *)
Lemma clean_rounds_call_returns_witness :
  let env := mkOutside unit nat (fun _ => None) (fun _ => inr 0%nat) in
  exists p',
    clean_rounds default_args mislabelled_match = Ok p'
    /\ json p' <> None
    /\ clean_rounds_call env default_args "json" true mislabelled_match
       = inr (p', ReturnedJson (json p'))
    /\ (forall d, parse_json_to_df env p' = inr d ->
                  clean_rounds_call env default_args "df" true mislabelled_match
                  = inr (p', ReturnedDf d))
    /\ (forall return_type,
          return_type <> "json"%string -> return_type <> "df"%string ->
          clean_rounds_call env default_args return_type true mislabelled_match
          = inl ValueError).
Proof.
  cbv zeta.
  apply (clean_rounds_call_returns
           (mkOutside unit nat (fun _ => None) (fun _ => inr 0%nat))
           default_args true mislabelled_match).
  - discriminate.
  - unfold events_present. simpl. repeat constructor; discriminate.
  - intros p' _ _. reflexivity.
Defined.

(** ** The result of a full run *)

Lemma cleaned_round_passes (pf : bool) (r : Round.t) :
  cleaned_round pf r -> passes_all_filters pf r.
Proof.
  intros (Hacc & Hlive & Hknife & Htime & Hkills & Hend).
  unfold live in Hlive. apply negb_true_iff in Hlive.
  unfold time_ok in Htime. rewrite !andb_true_iff, !Z.leb_le in Htime.
  unfold kills_ok in Hkills. rewrite andb_true_iff, Z.leb_le in Hkills.
  unfold ending_ok in Hend. apply negb_true_iff in Hend.
  unfold passes_all_filters, len. repeat split; try tauto.
  - intros Hin. apply string_in_In in Hin. congruence.
  - intros Hdrop. apply knife_round_kept_false_iff in Hdrop. congruence.
  - apply accepted_has_frames. apply Hacc. assumption.
  - apply accepted_iff. apply Hacc. assumption.
  - apply accepted_iff. apply Hacc. assumption.
  - apply accepted_iff. apply Hacc. assumption.
  - apply accepted_iff. apply Hacc. assumption.
Qed.

(** X3.  When [clean_rounds] completes with every stage enabled, every round
    of the result is a live round with start tick not after its end, official
    end and freeze-time end ticks, at most 10 kills, an end reason other than
    ["Draw"], ["Unknown"] and the empty string, and a kill list that is
    present and, unless empty, not made of knife kills only; when frames are
    parsed it also has frames and 3 to 5 players on each side of its first
    frame. *)
Theorem clean_rounds_result_passes_filters (p p' : DemoParser) :
  clean_rounds default_args p = Ok p' ->
  Forall (passes_all_filters (parse_frames p)) (rounds_of p').
Proof.
  intros H. destruct p as [pf [[mapName phases rounds] |]]; [| discriminate H].
  change (mkParser pf (Some (Game.mk mapName phases rounds)))
    with (state pf mapName phases rounds) in H.
  rewrite clean_rounds_state in H.
  destruct (stage_lists pf mapName phases (or_empty rounds)) as [rs |] eqn:Hs;
    cbn [bind] in H; [| discriminate H].
  injection H as <-. cbn [rounds_of json state Game.gameRounds or_empty parse_frames].
  destruct (stage_lists_cleaned _ _ _ _ _ Hs) as [Hclean _].
  eapply Forall_impl; [intros r; apply cleaned_round_passes |].
  eapply unnumbered_Forall; [| apply renumber_unnumbered | exact Hclean].
  intros r r'. apply unnumbered_cleaned.
Qed.

(** The result of a run on the restarted match. *)
Lemma clean_rounds_result_passes_filters_witness :
  exists p',
    clean_rounds default_args restarted_match = Ok p'
    /\ length (rounds_of p') = 4%nat
    /\ Forall (passes_all_filters true) (rounds_of p').
Proof.
  eexists. split; [vm_compute; reflexivity |]. split; [reflexivity |].
  apply (clean_rounds_result_passes_filters restarted_match).
  vm_compute. reflexivity.
Defined.

(** ** The side correction *)

Lemma mis_sided_listed (mapName : string) (player : Player.t) :
  mis_sided mapName player -> string_in mapName position_maps = true.
Proof.
  intros H. destruct (string_in mapName position_maps) eqn:E; [reflexivity |].
  exfalso. apply H. apply get_player_side_unlisted. exact E.
Qed.

Lemma get_player_side_listed (mapName : string) (player : Player.t) :
  string_in mapName position_maps = true ->
  (get_player_side player mapName = "T"%string
   \/ get_player_side player mapName = "CT"%string)
  /\ forall s, get_player_side (Player.set_side s player) mapName
               = get_player_side player mapName.
Proof.
  intros H. unfold get_player_side. unfold position_maps in H. rewrite H.
  cbn [Player.set_side Player.x Player.y].
  split; [| intros s; reflexivity].
  repeat match goal with
         | |- context [if ?c then _ else _] => destruct c
         end; auto.
Qed.

Lemma mis_sided_dec (mapName : string) (player : Player.t) :
  negb (String.eqb (get_player_side player mapName) (Player.side player)) = true
  <-> mis_sided mapName player.
Proof.
  unfold mis_sided. rewrite negb_true_iff. apply String.eqb_neq.
Qed.

Lemma set_add_in (x y : Z) (s : list Z) : In y (set_add x s) <-> y = x \/ In y s.
Proof.
  unfold set_add. destruct (existsb (Z.eqb x) s) eqn:E.
  - split; [tauto |]. intros [-> | H]; [| exact H].
    apply existsb_exists in E as (z & Hz & Ez). apply Z.eqb_eq in Ez.
    subst z. exact Hz.
  - rewrite in_app_iff. simpl. split; intros [H | H]; auto.
    + destruct H as [<- | []]. auto.
Qed.

Lemma set_add_NoDup (x : Z) (s : list Z) : NoDup s -> NoDup (set_add x s).
Proof.
  intros H. unfold set_add. destruct (existsb (Z.eqb x) s) eqn:E; [exact H |].
  apply NoDup_app; [exact H | repeat constructor; intros [] |].
  intros y Hy [Hxy | []].
  assert (Ht : existsb (Z.eqb x) s = true).
  { apply existsb_exists. exists y. split; [exact Hy | apply Z.eqb_eq; exact Hxy]. }
  congruence.
Qed.

Lemma switched_fold (mapName : string) (l : list Player.t) (acc : list Z) :
  NoDup acc ->
  let s := fold_left
             (fun s playerFrame =>
                if negb (String.eqb (get_player_side playerFrame mapName)
                                    (Player.side playerFrame))
                then set_add (Player.steamID playerFrame) s else s) l acc in
  NoDup s
  /\ forall y, In y s <->
               In y acc \/ exists q, In q l /\ Player.steamID q = y
                                     /\ mis_sided mapName q.
Proof.
  revert acc. induction l as [| p l IH]; intros acc Hacc; cbv zeta.
  - simpl. split; [exact Hacc |]. intros y. split; [auto |].
    intros [H | (q & [] & _)]. exact H.
  - cbn [fold_left].
    destruct (negb (String.eqb (get_player_side p mapName) (Player.side p)))
      eqn:E.
    + destruct (IH (set_add (Player.steamID p) acc) (set_add_NoDup _ _ Hacc))
        as [Hnd Hin].
      split; [exact Hnd |]. intros y. rewrite Hin, set_add_in. split.
      * intros [[-> | H] | (q & Hq & Hid & Hm)]; auto.
        -- right. exists p. split; [left; reflexivity |].
           split; [reflexivity | apply mis_sided_dec; exact E].
        -- right. exists q. split; [right; exact Hq | auto].
      * intros [H | (q & [<- | Hq] & Hid & Hm)]; auto.
        right. exists q. auto.
    + destruct (IH acc Hacc) as [Hnd Hin].
      split; [exact Hnd |]. intros y. rewrite Hin. split.
      * intros [H | (q & Hq & Hid & Hm)]; auto.
        right. exists q. split; [right; exact Hq | auto].
      * intros [H | (q & [<- | Hq] & Hid & Hm)]; auto.
        -- apply mis_sided_dec in Hm. congruence.
        -- right. exists q. auto.
Qed.

Lemma list_remove_incl (p q : Player.t) (l : list Player.t) :
  In q (list_remove p l) -> In q l.
Proof.
  induction l as [| a l IH]; simpl; [tauto |].
  destruct (Player.eqb a p); simpl; tauto.
Qed.

Lemma NoDup_ids_app_l (l l' : list Player.t) :
  NoDup (ids (l ++ l')) -> unique_ids l.
Proof.
  unfold unique_ids, ids. rewrite map_app. apply NoDup_app_remove_r.
Qed.

Lemma NoDup_ids_app_r (l l' : list Player.t) :
  NoDup (ids (l ++ l')) -> unique_ids l'.
Proof.
  unfold unique_ids, ids. rewrite map_app. apply NoDup_app_remove_l.
Qed.

Lemma NoDup_ids_apart (l l' : list Player.t) (p q : Player.t) :
  NoDup (ids (l ++ l')) -> In p l -> In q l' ->
  Player.steamID p <> Player.steamID q.
Proof.
  unfold ids. intros H Hp Hq E.
  induction l as [| a l IH]; [contradiction |].
  simpl in H. inversion H as [| ? ? Ha Hl]; subst.
  destruct Hp as [-> | Hp]; [| apply IH; assumption].
  apply Ha. rewrite E. apply in_map. apply in_or_app. right. exact Hq.
Qed.

Lemma list_remove_other_ids (p q : Player.t) (l : list Player.t) :
  unique_ids l -> In p l -> In q (list_remove p l) ->
  Player.steamID q <> Player.steamID p.
Proof.
  intros Hu Hp Hq. rewrite (list_remove_unique p l Hu Hp) in Hq.
  unfold without in Hq. apply filter_In in Hq as [_ Hq].
  apply negb_true_iff in Hq. apply Z.eqb_neq. exact Hq.
Qed.

(** One switch, seen on the two lists of a frame, while correcting. *)
Lemma correcting_step (mapName : string) (x : Z) (pending : list Z)
    (ts cts : list Player.t) :
  NoDup (x :: pending) ->
  correcting mapName (x :: pending) (ts, cts) ->
  correcting mapName pending
    (switch_lists (Player.set_side "CT") (Player.set_side "T") x ts cts).
Proof.
  intros Hnd (Hu & Ht & Hct & Hm). cbn [fst snd] in *.
  inversion Hnd as [| ? ? Hx Hpending]; subst.
  assert (Hperm := switch_lists_ids (Player.set_side "CT") (Player.set_side "T")
                     x ts cts (fun p => eq_refl) (fun p => eq_refl)).
  unfold correcting. split; [eapply Permutation_NoDup; eassumption |].
  clear Hperm. unfold switch_lists, move_player.
  destruct (find (fun player => Player.steamID player =? x) ts) as [p |] eqn:Ft.
  - destruct (find_some_in _ _ _ Ft) as [Hp Hid]. cbn [fst snd].
    rewrite Forall_forall in Ht, Hct.
    assert (Hmp : mis_sided mapName p).
    { apply Hm; [apply in_or_app; left; exact Hp | left; symmetry; exact Hid]. }
    destruct (get_player_side_listed mapName p (mis_sided_listed _ _ Hmp))
      as [Hval Hset].
    assert (Hget : get_player_side p mapName = "CT"%string).
    { destruct Hval as [E | E]; [| exact E].
      exfalso. apply Hmp. rewrite E. symmetry. apply Ht. exact Hp. }
    split; [| split].
    + apply Forall_forall. intros q Hq. apply Ht.
      eapply list_remove_incl. exact Hq.
    + apply Forall_app. split; [apply Forall_forall; exact Hct |].
      repeat constructor.
    + intros q Hq. rewrite app_assoc in Hq. apply in_app_or in Hq.
      destruct Hq as [Hq | [<- | []]].
      * assert (Hq' : In q (ts ++ cts)).
        { apply in_app_or in Hq. apply in_or_app.
          destruct Hq as [Hq | Hq];
            [left; eapply list_remove_incl; exact Hq | right; exact Hq]. }
        assert (Hne : Player.steamID q <> x).
        { apply in_app_or in Hq. destruct Hq as [Hq | Hq].
          - rewrite <- Hid.
            apply (list_remove_other_ids p q ts (NoDup_ids_app_l _ _ Hu) Hp Hq).
          - rewrite <- Hid. intros E.
            apply (NoDup_ids_apart ts cts p q Hu Hp Hq). symmetry. exact E. }
        rewrite (Hm q Hq'). simpl. split; [intros [E | H]; [congruence | exact H]
                                          | auto].
      * unfold mis_sided. rewrite Hset, Hget. cbn [Player.set_side Player.side
                                                   Player.steamID].
        split; [intros H; exfalso; apply H; reflexivity |].
        intros H. exfalso. apply Hx. rewrite <- Hid. exact H.
  - destruct (find (fun player => Player.steamID player =? x) cts) as [p |] eqn:Fc.
    + destruct (find_some_in _ _ _ Fc) as [Hp Hid]. cbn [fst snd].
      rewrite Forall_forall in Ht, Hct.
      assert (Hmp : mis_sided mapName p).
      { apply Hm; [apply in_or_app; right; exact Hp | left; symmetry; exact Hid]. }
      destruct (get_player_side_listed mapName p (mis_sided_listed _ _ Hmp))
        as [Hval Hset].
      assert (Hget : get_player_side p mapName = "T"%string).
      { destruct Hval as [E | E]; [exact E |].
        exfalso. apply Hmp. rewrite E. symmetry. apply Hct. exact Hp. }
      split; [| split].
      * apply Forall_app. split; [apply Forall_forall; exact Ht |].
        repeat constructor.
      * apply Forall_forall. intros q Hq. apply Hct.
        eapply list_remove_incl. exact Hq.
      * intros q Hq. rewrite <- app_assoc in Hq. apply in_app_or in Hq.
        destruct Hq as [Hq | Hq].
        -- assert (Hne : Player.steamID q <> x).
           { rewrite <- Hid. apply (NoDup_ids_apart ts cts q p Hu Hq Hp). }
           rewrite (Hm q (in_or_app _ _ _ (or_introl Hq))). simpl.
           split; [intros [E | H]; [congruence | exact H] | auto].
        -- simpl in Hq. destruct Hq as [<- | Hq].
           ++ unfold mis_sided. rewrite Hset, Hget.
              cbn [Player.set_side Player.side Player.steamID].
              split; [intros H; exfalso; apply H; reflexivity |].
              intros H. exfalso. apply Hx. rewrite <- Hid. exact H.
           ++ assert (Hne : Player.steamID q <> x).
              { rewrite <- Hid.
                apply (list_remove_other_ids p q cts
                         (NoDup_ids_app_r _ _ Hu) Hp Hq). }
              rewrite (Hm q (in_or_app _ _ _
                               (or_intror (list_remove_incl p q cts Hq)))).
              simpl. split; [intros [E | H]; [congruence | exact H] | auto].
    + cbn [fst snd]. split; [exact Ht |]. split; [exact Hct |].
      intros q Hq. rewrite (Hm q Hq). simpl.
      split; [| auto]. intros [E | H]; [| exact H]. exfalso.
      apply in_app_or in Hq. destruct Hq as [Hq | Hq].
      * pose proof (find_none _ _ Ft q Hq) as Hn. simpl in Hn.
        apply Z.eqb_neq in Hn. congruence.
      * pose proof (find_none _ _ Fc q Hq) as Hn. simpl in Hn.
        apply Z.eqb_neq in Hn. congruence.
Qed.

Lemma player_lists_switch (r r' : Round.t) (sid : Z) :
  switch_player_side r sid = Ok r' ->
  player_lists r'
  = switch_lists (Player.set_side "CT") (Player.set_side "T") sid
      (fst (player_lists r)) (snd (player_lists r)).
Proof.
  unfold switch_player_side.
  destruct (switch_lists (fun p => p) (fun p => p) sid _ _) as [ts cts].
  destruct (Round.kills r); cbn [iter_list bind]; [| discriminate].
  destruct (Round.damages r); cbn [iter_list bind]; [| discriminate].
  destruct (Round.grenades r); cbn [iter_list bind]; [| discriminate].
  destruct (Round.weaponFires r); cbn [iter_list bind]; [| discriminate].
  destruct (Round.flashes r); cbn [iter_list bind]; [| discriminate].
  unfold player_lists at 2 3.
  destruct (Round.frames r) as [[| f fs] |]; cbn [iter_list bind];
    [| | discriminate]; intros H; injection H as <-.
  - reflexivity.
  - unfold player_lists. cbn [Round.frames Round.set_frames map frame_players fst snd].
    unfold switch_in_frame.
    destruct (switch_lists (Player.set_side "CT") (Player.set_side "T") sid
                (Team.players (Frame.t_ f)) (Team.players (Frame.ct f)))
      as [ts' cts'].
    reflexivity.
Qed.

Lemma correcting_loop (mapName : string) (pending : list Z) (r r' : Round.t) :
  NoDup pending ->
  correcting mapName pending (player_lists r) ->
  for_each (fun playerToSwitch r => switch_player_side r playerToSwitch)
           pending r = Ok r' ->
  correcting mapName [] (player_lists r').
Proof.
  revert r. induction pending as [| x pending IH]; intros r Hnd Hc H;
    simpl in H.
  - injection H as <-. exact Hc.
  - destruct (switch_player_side r x) as [r1 |] eqn:Hx; cbn [bind] in H;
      [| discriminate H].
    apply (IH r1); [inversion Hnd; assumption | | exact H].
    rewrite (player_lists_switch r r1 x Hx).
    apply correcting_step; [exact Hnd |].
    destruct (player_lists r) as [ts cts]. exact Hc.
Qed.

Lemma force_sides_loop_ids (pending : list Z) (r r' : Round.t) :
  for_each (fun playerToSwitch r => switch_player_side r playerToSwitch)
           pending r = Ok r' ->
  Permutation (ids (fst (player_lists r) ++ snd (player_lists r)))
              (ids (fst (player_lists r') ++ snd (player_lists r'))).
Proof.
  revert r. induction pending as [| x pending IH]; intros r H; simpl in H.
  - injection H as <-. apply Permutation_refl.
  - destruct (switch_player_side r x) as [r1 |] eqn:Hx; cbn [bind] in H;
      [| discriminate H].
    eapply Permutation_trans; [| apply (IH r1 H)].
    rewrite (player_lists_switch r r1 x Hx).
    apply switch_lists_ids; intros; reflexivity.
Qed.

Lemma same_id_same_player (l : list Player.t) (q q' : Player.t) :
  NoDup (ids l) -> In q l -> In q' l ->
  Player.steamID q' = Player.steamID q -> q' = q.
Proof.
  unfold ids. induction l as [| a l IH]; intros Hu Hq Hq' Hid;
    [contradiction |].
  simpl in Hu. inversion Hu as [| ? ? Ha Hl]; subst.
  destruct Hq as [-> | Hq], Hq' as [-> | Hq'].
  - reflexivity.
  - exfalso. apply Ha. rewrite <- Hid. apply in_map. exact Hq'.
  - exfalso. apply Ha. rewrite Hid. apply in_map. exact Hq.
  - apply IH; assumption.
Qed.

(** The insertion-ordered list of the model is one of the walks of the set. *)
Lemma switchedPlayers_walk (mapName : string) (r : Round.t) :
  set_walk mapName r (switchedPlayers mapName r).
Proof.
  destruct (switched_fold mapName
              (player_list key_t r ++ player_list key_ct r) []
              ltac:(constructor)) as [Hnd Hin].
  fold (switchedPlayers mapName r) in Hnd, Hin.
  split; [exact Hnd |]. intros sid. rewrite Hin. unfold in_switched_set.
  split; [intros [[] | H]; exact H | intros H; right; exact H].
Qed.

(** X17.  The purpose of the side correction of [remove_excess_players], in
    whatever order the set [switchedPlayers] is walked.  If, in the first
    frame, steamIDs identify the players of the two lists together and every
    entry carries the label of its list (["T"] in the t list, ["CT"] in the
    ct list), then after [switch_player_side] has been called once for every
    member of the set, in any order, and has completed, every first-frame
    player carries the side that [get_player_side] infers from its position,
    the labels still are those of the lists, and the steamIDs of the frame
    are the same up to order and still identify the players. *)
Theorem side_correction_any_order (mapName : string) (order : list Z)
    (r r' : Round.t) :
  NoDup (ids (player_list key_t r ++ player_list key_ct r)) ->
  Forall (fun player => Player.side player = "T"%string) (player_list key_t r) ->
  Forall (fun player => Player.side player = "CT"%string)
         (player_list key_ct r) ->
  set_walk mapName r order ->
  switch_all order r = Ok r' ->
  sides_agree mapName r'
  /\ (forall sid, ~ in_switched_set mapName r' sid)
  /\ Forall (fun player => Player.side player = "T"%string)
            (player_list key_t r')
  /\ Forall (fun player => Player.side player = "CT"%string)
            (player_list key_ct r')
  /\ NoDup (ids (player_list key_t r' ++ player_list key_ct r'))
  /\ Permutation (ids (player_list key_t r ++ player_list key_ct r))
                 (ids (player_list key_t r' ++ player_list key_ct r')).
Proof.
  intros Hu Ht Hct [Hnd Hin] H. unfold switch_all in H.
  pose proof (force_sides_loop_ids _ r r' H) as Hperm.
  assert (Hc : correcting mapName order (player_lists r)).
  { unfold correcting. unfold player_list in *.
    split; [exact Hu |]. split; [exact Ht |]. split; [exact Hct |].
    intros q Hq. rewrite Hin. unfold in_switched_set, player_list. split.
    - intros Hm. exists q. auto.
    - intros (q' & Hq' & Hid & Hm).
      rewrite <- (same_id_same_player _ q q' Hu Hq Hq' Hid). exact Hm. }
  destruct (correcting_loop mapName _ r r' Hnd Hc H) as (Hu' & Ht' & Hct' & Hm').
  assert (Hagree : sides_agree mapName r').
  { unfold sides_agree, player_list. apply Forall_forall. intros q Hq.
    destruct (String.eqb_spec (get_player_side q mapName) (Player.side q))
      as [E | E]; [exact E |].
    exfalso. exact (proj1 (Hm' q Hq) E). }
  split; [exact Hagree |].
  split; [| unfold player_list; auto].
  intros sid (q & Hq & _ & Hm). unfold sides_agree in Hagree.
  rewrite Forall_forall in Hagree. apply Hm. apply Hagree. exact Hq.
Qed.

(** A 4 against 4 first frame on de_mirage with the T player 1 on the CT half
    and the CT player 8 on the T half, the set walked as 8, 1. *)
Lemma side_correction_any_order_witness :
  let ts := [sample_player 1 "T" (-5) 10 0 true; sample_player 2 "T" 6 10 0 true;
             sample_player 3 "T" 7 10 0 true; sample_player 4 "T" 8 10 0 true] in
  let cts := [sample_player 5 "CT" (-5) 10 0 true;
              sample_player 6 "CT" (-6) 10 0 true;
              sample_player 7 "CT" (-7) 10 0 true;
              sample_player 8 "CT" 8 10 0 true] in
  let r := sample_round 0 0 1 0 (Some [sample_frame ts cts]) (Some []) in
  exists r',
    switch_all [8; 1] r = Ok r'
    /\ ids (player_list key_t r') = [2; 3; 4; 8]
    /\ ids (player_list key_ct r') = [5; 6; 7; 1]
    /\ sides_agree "de_mirage" r'
    /\ (forall sid, ~ in_switched_set "de_mirage" r' sid)
    /\ Forall (fun player => Player.side player = "T"%string)
              (player_list key_t r')
    /\ Forall (fun player => Player.side player = "CT"%string)
              (player_list key_ct r')
    /\ NoDup (ids (player_list key_t r' ++ player_list key_ct r'))
    /\ Permutation (ids (player_list key_t r ++ player_list key_ct r))
                   (ids (player_list key_t r' ++ player_list key_ct r')).
Proof.
  cbv zeta. eexists. split; [vm_compute; reflexivity |].
  split; [reflexivity |]. split; [reflexivity |].
  apply (side_correction_any_order "de_mirage" [8; 1]
           (sample_round 0 0 1 0
              (Some [sample_frame
                       [sample_player 1 "T" (-5) 10 0 true;
                        sample_player 2 "T" 6 10 0 true;
                        sample_player 3 "T" 7 10 0 true;
                        sample_player 4 "T" 8 10 0 true]
                       [sample_player 5 "CT" (-5) 10 0 true;
                        sample_player 6 "CT" (-6) 10 0 true;
                        sample_player 7 "CT" (-7) 10 0 true;
                        sample_player 8 "CT" 8 10 0 true]])
              (Some []))).
  - solve_unique_ids.
  - simpl. repeat constructor.
  - simpl. repeat constructor.
  - split; [repeat constructor; simpl; intuition lia |].
    intros sid. unfold in_switched_set. split.
    + intros [<- | [<- | []]].
      * exists (sample_player 8 "CT" 8 10 0 true).
        split; [simpl; tauto |]. split; [reflexivity | discriminate].
      * exists (sample_player 1 "T" (-5) 10 0 true).
        split; [simpl; tauto |]. split; [reflexivity | discriminate].
    + intros (q & Hq & <- & Hm). simpl in Hq.
      repeat (destruct Hq as [<- | Hq];
              [first [simpl; tauto | exfalso; apply Hm; reflexivity] |]).
      destruct Hq.
  - vm_compute. reflexivity.
Defined.

(** ** Coaches that do not move *)

Lemma purge_all_frames (l : list Player.t) (r : Round.t) :
  Round.frames (purge_all l r)
  = option_map (map (purge_frame_all l)) (Round.frames r).
Proof.
  revert r. induction l as [| p l IH]; intros r.
  - simpl. destruct (Round.frames r) as [fs |]; simpl; [| reflexivity].
    rewrite map_id. reflexivity.
  - cbn [purge_all fold_left]. fold (purge_all l (purge (Player.steamID p) r)).
    rewrite IH. unfold purge. cbn [Round.frames Round.set_frames].
    destruct (Round.frames r) as [fs |]; simpl; [| reflexivity].
    rewrite map_map. reflexivity.
Qed.

Lemma frame_players_purge_frame_all (side : side_key) (l : list Player.t)
    (f : Frame.t) :
  frame_players side (purge_frame_all l f)
  = fold_left (fun acc player => without (Player.steamID player) acc) l
              (frame_players side f).
Proof.
  revert f. induction l as [| p l IH]; intros f.
  - reflexivity.
  - cbn [purge_frame_all fold_left].
    fold (purge_frame_all l (purge_frame (Player.steamID p) f)).
    rewrite IH. destruct side; reflexivity.
Qed.

Lemma fold_without_in (l acc : list Player.t) (q : Player.t) :
  In q (fold_left (fun acc player => without (Player.steamID player) acc) l acc)
  <-> In q acc /\ ~ In (Player.steamID q) (ids l).
Proof.
  revert acc. induction l as [| p l IH]; intros acc; simpl.
  - tauto.
  - rewrite IH. unfold without. rewrite filter_In, negb_true_iff, Z.eqb_neq.
    split.
    + intros [[Hq Hne] Hl]. split; [exact Hq |].
      intros [E | H]; [apply Hne; symmetry; exact E | apply Hl; exact H].
    + intros [Hq Hn]. split; [split; [exact Hq |] |]; intros H; apply Hn; auto.
Qed.

Lemma has_moved_iff (side : side_key) (player : Player.t) (later : list Frame.t) :
  has_moved side player later = true
  <-> exists frame p,
        In frame later /\ In p (frame_players side frame)
        /\ Player.steamID p = Player.steamID player
        /\ position_differs p player = true.
Proof.
  unfold has_moved. rewrite existsb_exists. split.
  - intros (frame & Hf & H). apply existsb_exists in H as (p & Hp & H).
    apply andb_true_iff in H as [Hid Hpos]. apply Z.eqb_eq in Hid.
    exists frame, p. auto.
  - intros (frame & p & Hf & Hp & Hid & Hpos). exists frame.
    split; [exact Hf |]. apply existsb_exists. exists p.
    split; [exact Hp |]. rewrite Hpos, andb_true_r. apply Z.eqb_eq. exact Hid.
Qed.

(** X19.  On a round with at least one frame, in which steamIDs identify the
    players inside each list, [remove_coaches_not_moving] completes and keeps
    every frame; the players left in a list of the first frame were there
    before, and each of them is listed on the same side of some later frame of
    the resulting round at another position.  A first-frame player is dropped
    exactly when its steamID is that of a player that never moved. *)
Theorem remove_coaches_not_moving_leaves_movers (r : Round.t) (f : Frame.t)
    (later : list Frame.t) :
  round_unique r ->
  Round.frames r = Some (f :: later) ->
  exists r' f' later',
    remove_coaches_not_moving r = Ok r'
    /\ Round.frames r' = Some (f' :: later')
    /\ length later' = length later
    /\ forall side p,
         (In p (frame_players side f') <->
          In p (frame_players side f)
          /\ ~ In (Player.steamID p) (ids (coaches_not_moving f later)))
         /\ (In p (frame_players side f') -> has_moved side p later' = true).
Proof.
  intros Hu Hfs. unfold remove_coaches_not_moving. rewrite Hfs.
  fold (coaches_not_moving f later). set (gone := coaches_not_moving f later).
  rewrite remove_all_unique by (congruence || exact Hu).
  exists (purge_all gone r), (purge_frame_all gone f),
         (map (purge_frame_all gone) later).
  split; [reflexivity |].
  split; [rewrite purge_all_frames, Hfs; reflexivity |].
  split; [apply length_map |].
  intros side p.
  assert (Hiff : In p (frame_players side (purge_frame_all gone f)) <->
                 In p (frame_players side f)
                 /\ ~ In (Player.steamID p) (ids gone)).
  { rewrite frame_players_purge_frame_all. apply fold_without_in. }
  split; [exact Hiff |].
  intros Hp. apply Hiff in Hp as [Hp Hkept].
  assert (Hmoved : has_moved side p later = true).
  { destruct (has_moved side p later) eqn:E; [reflexivity |].
    exfalso. apply Hkept. unfold ids. apply in_map.
    unfold gone, coaches_not_moving. apply in_flat_map. exists side.
    split; [destruct side; simpl; auto |].
    apply filter_In. split; [exact Hp | rewrite E; reflexivity]. }
  apply has_moved_iff in Hmoved as (frame & q & Hframe & Hq & Hid & Hpos).
  apply has_moved_iff. exists (purge_frame_all gone frame), q.
  split; [apply in_map; exact Hframe |].
  split; [| auto].
  rewrite frame_players_purge_frame_all. apply fold_without_in.
  split; [exact Hq | rewrite Hid; exact Hkept].
Qed.

(** Two frames: player 1 walks, player 2 stands still, the CT player walks. *)
Lemma remove_coaches_not_moving_leaves_movers_witness :
  let f := sample_frame [sample_player 1 "T" 5 10 0 true;
                         sample_player 2 "T" 6 10 0 true]
                        [sample_player 3 "CT" (-5) 10 0 true] in
  let g := sample_frame [sample_player 1 "T" 7 10 0 true;
                         sample_player 2 "T" 6 10 0 true]
                        [sample_player 3 "CT" (-5) 11 0 true] in
  let r := sample_round 0 0 1 0 (Some [f; g]) (Some []) in
  exists r' f' later',
    remove_coaches_not_moving r = Ok r'
    /\ Round.frames r' = Some (f' :: later')
    /\ length later' = length [g]
    /\ forall side p,
         (In p (frame_players side f') <->
          In p (frame_players side f)
          /\ ~ In (Player.steamID p) (ids (coaches_not_moving f [g])))
         /\ (In p (frame_players side f') -> has_moved side p later' = true).
Proof.
  cbv zeta. apply remove_coaches_not_moving_leaves_movers.
  - solve_round_unique.
  - reflexivity.
Defined.
